(** * Freedeck cloud client: a shallow embedding of the backend scripts

    The two backend scripts of the repository (the cloud client with its
    upload / list_versions / download_file actions, and the share-link
    resolver) are embedded as Rocq functions, and the properties the
    specification states about them are settled against that embedding.

    Modelling conventions.
    - A JavaScript string is a Rocq [string] holding the bytes of its
      UTF-8 form (a lone surrogate in its three-byte form); text that
      goes through a hash is read as those bytes, while [length] and
      [slice] count UTF-16 code units ([unitLength], [sliceUnits]).
      The character-class operations ([trim], [toLowerCase],
      [toUpperCase]) act on the ASCII range.
    - JavaScript numbers that the code handles (sizes, offsets, part
      numbers, status codes) are integers and are modelled in [Z].
    - Network calls go through an explicit world: the list of requests
      issued so far, answered by a server function that is a Section
      variable.  An exception is the [inl] branch of a sum.
    - Host built-ins whose behaviour is outside the repository
      ([JSON.parse], [new URL], [String.prototype.localeCompare], the
      regular-expression matcher) are Section variables. *)

From Stdlib Require Import ZArith Lia Ascii String.
From stdpp Require Import base list gmap strings sorting.

Open Scope Z_scope.

(** ** JavaScript string helpers *)

Module JsString.

Definition codes (s : string) : list Z :=
  map (fun c => Z.of_N (N_of_ascii c)) (list_ascii_of_string s).

Definition ofCodes (l : list Z) : string :=
  string_of_list_ascii (map (fun z => ascii_of_N (Z.to_N z)) l).

(** White space as [String.prototype.trim] sees it, on the ASCII range:
    TAB, LF, VT, FF, CR and SPACE. *)
Definition isWhiteSpace (c : ascii) : bool :=
  let n := N_of_ascii c in
  ((9 <=? n) && (n <=? 13) || (n =? 32))%N.

Fixpoint trimStart (s : string) : string :=
  match s with
  | EmptyString => EmptyString
  | String c rest => if isWhiteSpace c then trimStart rest else s
  end.

Fixpoint trimEnd (s : string) : string :=
  match s with
  | EmptyString => EmptyString
  | String c rest =>
      match trimEnd rest with
      | EmptyString => if isWhiteSpace c then EmptyString else String c EmptyString
      | kept => String c kept
      end
  end.

Definition trim (s : string) : string := trimEnd (trimStart s).

Definition lowerChar (c : ascii) : ascii :=
  let n := N_of_ascii c in
  if ((65 <=? n) && (n <=? 90))%N then ascii_of_N (n + 32) else c.

Definition upperChar (c : ascii) : ascii :=
  let n := N_of_ascii c in
  if ((97 <=? n) && (n <=? 122))%N then ascii_of_N (n - 32) else c.

Fixpoint mapChars (f : ascii -> ascii) (s : string) : string :=
  match s with
  | EmptyString => EmptyString
  | String c rest => String (f c) (mapChars f rest)
  end.

Definition toLowerCase : string -> string := mapChars lowerChar.
Definition toUpperCase : string -> string := mapChars upperChar.

(** [Array.prototype.join] on an array of strings. *)
Fixpoint join (sep : string) (l : list string) : string :=
  match l with
  | [] => EmptyString
  | [x] => x
  | x :: rest => x +:+ sep +:+ join sep rest
  end.

(** Decimal rendering of an integer, as [String(n)] gives it. *)
Fixpoint natDigits (fuel : nat) (n : N) (acc : string) : string :=
  match fuel with
  | O => acc
  | S fuel' =>
      let acc' := String (ascii_of_N (48 + n mod 10)) acc in
      if (n / 10 =? 0)%N then acc' else natDigits fuel' (n / 10)%N acc'
  end.

Definition ofN (n : N) : string := natDigits (S (N.to_nat (N.log2 n))) n EmptyString.

Definition ofZ (z : Z) : string :=
  if z <? 0 then String "-"%char (ofN (Z.to_N (- z))) else ofN (Z.to_N z).

(** [text.length] and [text.slice(0, n)] count UTF-16 code units.  In
    the UTF-8 form a byte that starts a sequence of one, two or three
    bytes stands for one unit, a byte that starts a sequence of four for
    two (a surrogate pair), and a continuation byte for none. *)
Definition isContinuation (c : ascii) : bool :=
  ((128 <=? N_of_ascii c) && (N_of_ascii c <? 192))%N.

Definition startsPair (c : ascii) : bool := (240 <=? N_of_ascii c)%N.

Definition unitsOf (c : ascii) : nat :=
  if isContinuation c then 0%nat else if startsPair c then 2%nat else 1%nat.

Fixpoint unitLength (s : string) : nat :=
  match s with
  | EmptyString => 0%nat
  | String c rest => (unitsOf c + unitLength rest)%nat
  end.

(** The high surrogate of the pair that a sequence of four bytes
    starting with [c0 c1 c2] encodes, in its three-byte form: what is
    left of the pair when a slice ends between its two units. *)
Definition highSurrogate (c0 c1 c2 : ascii) : string :=
  let top := ((N_of_ascii c0 mod 8) * 256 + (N_of_ascii c1 mod 64) * 4
              + (N_of_ascii c2 mod 64) / 16 - 64)%N in
  String (ascii_of_N 237)
    (String (ascii_of_N (160 + (top / 64) mod 16))
       (String (ascii_of_N (128 + top mod 64)) EmptyString)).

Fixpoint sliceUnits (n : nat) (s : string) : string :=
  match s with
  | EmptyString => EmptyString
  | String c rest =>
      if isContinuation c then String c (sliceUnits n rest)
      else
        match n with
        | O => EmptyString
        | S n' =>
            if startsPair c then
              match n' with
              | O =>
                  match rest with
                  | String c1 (String c2 _) => highSurrogate c c1 c2
                  | _ => EmptyString
                  end
              | S n'' => String c (sliceUnits n'' rest)
              end
            else String c (sliceUnits n' rest)
        end
  end.

End JsString.

(** ** MD5 (RFC 1321), the digest behind [crypto.createHash("md5")] *)

Module MD5.

Definition add32 (x y : Z) : Z := (x + y) mod 2 ^ 32.
Definition not32 (x : Z) : Z := Z.lxor x 0xffffffff.
Definition rotl32 (x c : Z) : Z :=
  Z.land (Z.lor (Z.shiftl x c) (Z.shiftr x (32 - c))) 0xffffffff.

Definition shifts : list Z :=
  [7; 12; 17; 22; 7; 12; 17; 22; 7; 12; 17; 22; 7; 12; 17; 22;
   5; 9; 14; 20; 5; 9; 14; 20; 5; 9; 14; 20; 5; 9; 14; 20;
   4; 11; 16; 23; 4; 11; 16; 23; 4; 11; 16; 23; 4; 11; 16; 23;
   6; 10; 15; 21; 6; 10; 15; 21; 6; 10; 15; 21; 6; 10; 15; 21].

Definition sines : list Z :=
  [0xd76aa478; 0xe8c7b756; 0x242070db; 0xc1bdceee; 0xf57c0faf; 0x4787c62a; 0xa8304613; 0xfd469501;
   0x698098d8; 0x8b44f7af; 0xffff5bb1; 0x895cd7be; 0x6b901122; 0xfd987193; 0xa679438e; 0x49b40821;
   0xf61e2562; 0xc040b340; 0x265e5a51; 0xe9b6c7aa; 0xd62f105d; 0x02441453; 0xd8a1e681; 0xe7d3fbc8;
   0x21e1cde6; 0xc33707d6; 0xf4d50d87; 0x455a14ed; 0xa9e3e905; 0xfcefa3f8; 0x676f02d9; 0x8d2a4c8a;
   0xfffa3942; 0x8771f681; 0x6d9d6122; 0xfde5380c; 0xa4beea44; 0x4bdecfa9; 0xf6bb4b60; 0xbebfbc70;
   0x289b7ec6; 0xeaa127fa; 0xd4ef3085; 0x04881d05; 0xd9d4d039; 0xe6db99e5; 0x1fa27cf8; 0xc4ac5665;
   0xf4292244; 0x432aff97; 0xab9423a7; 0xfc93a039; 0x655b59c3; 0x8f0ccc92; 0xffeff47d; 0x85845dd1;
   0x6fa87e4f; 0xfe2ce6e0; 0xa3014314; 0x4e0811a1; 0xf7537e82; 0xbd3af235; 0x2ad7d2bb; 0xeb86d391].

Record State := mkState { sa : Z; sb : Z; sc : Z; sd : Z }.

Definition initial : State :=
  mkState 0x67452301 0xefcdab89 0x98badcfe 0x10325476.

Definition step (block : list Z) (st : State) (i : nat) : State :=
  let '(mkState a b c d) := st in
  let iz := Z.of_nat i in
  let '(f, g) :=
    if iz <? 16 then (Z.lor (Z.land b c) (Z.land (not32 b) d), iz)
    else if iz <? 32 then (Z.lor (Z.land d b) (Z.land (not32 d) c), (5 * iz + 1) mod 16)
    else if iz <? 48 then (Z.lxor (Z.lxor b c) d, (3 * iz + 5) mod 16)
    else (Z.lxor c (Z.lor b (not32 d)), (7 * iz) mod 16) in
  let mixed := add32 (add32 (add32 f a) (nth i sines 0)) (nth (Z.to_nat g) block 0) in
  mkState d (add32 b (rotl32 mixed (nth i shifts 0))) b c.

Definition compress (st : State) (block : list Z) : State :=
  let '(mkState a b c d) := foldl (step block) st (seq 0 64) in
  mkState (add32 (sa st) a) (add32 (sb st) b) (add32 (sc st) c) (add32 (sd st) d).

Definition littleEndian (width : nat) (x : Z) : list Z :=
  map (fun k => Z.land (Z.shiftr x (8 * Z.of_nat k)) 0xff) (seq 0 width).

Fixpoint wordsOf (fuel : nat) (bytes : list Z) : list Z :=
  match fuel, bytes with
  | S fuel', b0 :: b1 :: b2 :: b3 :: rest =>
      (b0 + Z.shiftl b1 8 + Z.shiftl b2 16 + Z.shiftl b3 24) :: wordsOf fuel' rest
  | _, _ => []
  end.

Definition padded (msg : list Z) : list Z :=
  let len := Z.of_nat (length msg) in
  msg ++ [0x80] ++ repeat 0 (Z.to_nat ((55 - len) mod 64))
      ++ littleEndian 8 ((8 * len) mod 2 ^ 64).

Fixpoint blocks (fuel : nat) (st : State) (words : list Z) : State :=
  match fuel with
  | O => st
  | S fuel' =>
      match words with
      | [] => st
      | _ => blocks fuel' (compress st (take 16 words)) (drop 16 words)
      end
  end.

Definition digest (msg : list Z) : list Z :=
  let p := padded msg in
  let st := blocks (length p) initial (wordsOf (length p) p) in
  littleEndian 4 (sa st) ++ littleEndian 4 (sb st)
    ++ littleEndian 4 (sc st) ++ littleEndian 4 (sd st).

Definition hexDigit (n : Z) : ascii :=
  ascii_of_N (Z.to_N (if n <? 10 then 48 + n else 87 + n)).

Definition hex (bytes : list Z) : string :=
  string_of_list_ascii (flat_map (fun b => [hexDigit (b / 16); hexDigit (b mod 16)]) bytes).

End MD5.

Example md5_empty :
  MD5.hex (MD5.digest []) = "d41d8cd98f00b204e9800998ecf8427e"%string.
Proof. vm_compute. reflexivity. Qed.

Example md5_abc :
  MD5.hex (MD5.digest (JsString.codes "abc")) = "900150983cd24fb0d6963f7d28e17f72"%string.
Proof. vm_compute. reflexivity. Qed.

Example md5_two_blocks :
  MD5.hex (MD5.digest (repeat 97 70)) = "0f5c6c4e740bfcc08c3c26ccb2673d46"%string.
Proof. vm_compute. reflexivity. Qed.

Example ofZ_samples :
  (JsString.ofZ 0, JsString.ofZ 10485760, JsString.ofZ (-42), JsString.ofZ 1000)
  = ("0", "10485760", "-42", "1000")%string.
Proof. vm_compute. reflexivity. Qed.

Example trim_samples :
  (JsString.trim "  a b  ", JsString.trim "   ", JsString.trim "x")
  = ("a b", "", "x")%string.
Proof. vm_compute. reflexivity. Qed.

(** ** Canonical signing: [md5Hex] and [md5Signature] *)

Module Signing.

(** A parameter value as [md5Signature] distinguishes them. *)
Inductive ParamValue : Type :=
| PUndefined
| PNull
| PString (s : string).

(** A parameter object, as [Object.entries] enumerates it. *)
Definition Params : Type := list (string * ParamValue).

Definition isPresent (e : string * ParamValue) : bool :=
  match e.2 with
  | PUndefined | PNull => false
  | PString _ => true
  end.

Definition valueText (v : ParamValue) : string :=
  match v with
  | PUndefined => "undefined"
  | PNull => "null"
  | PString s => s
  end.

Definition pairText (e : string * ParamValue) : string :=
  e.1 +:+ "=" +:+ valueText e.2.

Definition md5Hex (text : string) : string :=
  MD5.hex (MD5.digest (JsString.codes text)).

(** [Array.prototype.sort] with a comparator is a stable sort, so for a
    consistent comparator its result is the one insertion gives. *)
Fixpoint insertEntry (cmp : string -> string -> Z) (e : string * ParamValue)
    (sorted : Params) : Params :=
  match sorted with
  | [] => [e]
  | y :: rest =>
      if cmp e.1 y.1 <=? 0 then e :: sorted else y :: insertEntry cmp e rest
  end.

Fixpoint sortEntries (cmp : string -> string -> Z) (entries : Params) : Params :=
  match entries with
  | [] => []
  | e :: rest => insertEntry cmp e (sortEntries cmp rest)
  end.

Definition signText (localeCompare : string -> string -> Z) (params : Params) : string :=
  JsString.join "&" (map pairText (sortEntries localeCompare (List.filter isPresent params))).

Definition md5Signature (localeCompare : string -> string -> Z) (params : Params) : string :=
  md5Hex (signText localeCompare params).

(** Ordinal comparison of strings (code by code). *)
Definition ordinalCompare (a b : string) : Z :=
  match String.compare a b with
  | Lt => -1
  | Eq => 0
  | Gt => 1
  end.

(** The signature as the specification words it: entries sorted by key
    under ordinal string comparison. *)
Definition specSignature (params : Params) : string :=
  md5Hex (JsString.join "&"
            (map pairText (sortEntries ordinalCompare (List.filter isPresent params)))).

(** The order the default collation of the host (the CLDR root
    collation that Node's ICU applies) gives to keys made of ASCII
    letters and digits: digits before letters, letters alphabetically
    whatever their case, and case only breaking ties, lower case first. *)
Fixpoint comparePrimary (a b : string) : comparison :=
  match a, b with
  | EmptyString, EmptyString => Eq
  | EmptyString, String _ _ => Lt
  | String _ _, EmptyString => Gt
  | String x a', String y b' =>
      match N.compare (N_of_ascii (JsString.lowerChar x)) (N_of_ascii (JsString.lowerChar y)) with
      | Eq => comparePrimary a' b'
      | c => c
      end
  end.

Fixpoint compareCase (a b : string) : comparison :=
  match a, b with
  | String x a', String y b' =>
      match N.compare (N_of_ascii y) (N_of_ascii x) with
      | Eq => compareCase a' b'
      | c => c
      end
  | _, _ => Eq
  end.

Definition rootCollate (a b : string) : Z :=
  match comparePrimary a b with
  | Lt => -1
  | Gt => 1
  | Eq => match compareCase a b with Lt => -1 | Gt => 1 | Eq => 0 end
  end.

(** A comparator is consistent on a set of keys when, on those keys, it
    never ties two distinct keys, is antisymmetric and is transitive. *)
Definition ConsistentOn (cmp : string -> string -> Z) (keys : list string) : Prop :=
  Forall (fun a =>
    Forall (fun b =>
      (a ≠ b -> (cmp a b <=? 0) = negb (cmp b a <=? 0))
      ∧ Forall (fun c => cmp a b <= 0 -> cmp b c <= 0 -> cmp a c <= 0) keys) keys) keys.

Definition sortedBy (cmp : string -> string -> Z) : Params -> Prop :=
  Sorted (fun e1 e2 : string * ParamValue => cmp e1.1 e2.1 <= 0).

Definition lowerHexChar (c : ascii) : bool :=
  let n := N_of_ascii c in
  ((48 <=? n) && (n <=? 57) || (97 <=? n) && (n <=? 102))%N.

(** The sign parameters of the first [listFiles] request that
    [listFolders] issues for the root folder. *)
Definition listFoldersSignParams (ts : string) : Params :=
  [("pageSize", PString "60"); ("pageNum", PString "1"); ("mediaType", PString "0");
   ("folderId", PString "-11"); ("iconOption", PString "5");
   ("orderBy", PString "lastOpTime"); ("descending", PString "true");
   ("Timestamp", PString ts); ("AppKey", PString "600100422")]%string.

End Signing.

Example signText_locale :
  Signing.signText Signing.rootCollate (Signing.listFoldersSignParams "1700000000000")
  = "AppKey=600100422&descending=true&folderId=-11&iconOption=5&mediaType=0&orderBy=lastOpTime&pageNum=1&pageSize=60&Timestamp=1700000000000"%string.
Proof. vm_compute. reflexivity. Qed.

Example signText_ordinal :
  Signing.signText Signing.ordinalCompare (Signing.listFoldersSignParams "1700000000000")
  = "AppKey=600100422&Timestamp=1700000000000&descending=true&folderId=-11&iconOption=5&mediaType=0&orderBy=lastOpTime&pageNum=1&pageSize=60"%string.
Proof. vm_compute. reflexivity. Qed.

(** ** Properties of the canonical signature *)

Module SigningFacts.
Import Signing.

Section Comparator.
Variable cmp : string -> string -> Z.

Lemma insertEntry_perm e l : insertEntry cmp e l ≡ₚ e :: l.
Proof.
  induction l as [|y l IH]; simpl; [done|].
  destruct (cmp e.1 y.1 <=? 0); [done|].
  rewrite IH. apply Permutation_swap.
Qed.

Lemma sortEntries_perm l : sortEntries cmp l ≡ₚ l.
Proof.
  induction l as [|e l IH]; simpl; [done|].
  by rewrite insertEntry_perm, IH.
Qed.

Lemma consistent_no_tie keys a b :
  ConsistentOn cmp keys -> a ∈ keys -> b ∈ keys -> a ≠ b ->
  (cmp a b <=? 0) = negb (cmp b a <=? 0).
Proof.
  unfold ConsistentOn. rewrite Forall_forall. intros H Ha Hb Hne.
  specialize (H a Ha). rewrite Forall_forall in H.
  destruct (H b Hb) as [H1 _]. auto.
Qed.

Lemma consistent_trans keys a b c :
  ConsistentOn cmp keys -> a ∈ keys -> b ∈ keys -> c ∈ keys ->
  cmp a b <= 0 -> cmp b c <= 0 -> cmp a c <= 0.
Proof.
  unfold ConsistentOn. rewrite Forall_forall. intros H Ha Hb Hc.
  specialize (H a Ha). rewrite Forall_forall in H.
  destruct (H b Hb) as [_ H2]. rewrite Forall_forall in H2. auto.
Qed.

Lemma insertEntry_comm keys x y l :
  ConsistentOn cmp keys ->
  x.1 ∈ keys -> y.1 ∈ keys -> Forall (fun e => e.1 ∈ keys) l ->
  x.1 ≠ y.1 ->
  insertEntry cmp x (insertEntry cmp y l) = insertEntry cmp y (insertEntry cmp x l).
Proof.
  intros Hc Hx Hy Hl Hne.
  pose proof (consistent_no_tie keys _ _ Hc Hx Hy Hne) as Hxy.
  induction Hl as [|z l Hz Hl IH]; simpl.
  - rewrite Hxy. by destruct (cmp y.1 x.1 <=? 0).
  - destruct (cmp y.1 z.1 <=? 0) eqn:Hyz, (cmp x.1 z.1 <=? 0) eqn:Hxz;
      simpl; rewrite ?Hyz, ?Hxz, ?Hxy.
    + by destruct (cmp y.1 x.1 <=? 0).
    + destruct (cmp y.1 x.1 <=? 0) eqn:Hyx; simpl; [done|].
      exfalso. apply Z.leb_le in Hyz. rewrite Z.leb_gt in Hxz.
      assert (cmp x.1 y.1 <= 0) as Hle by (apply Z.leb_le; by rewrite Hxy).
      pose proof (consistent_trans keys _ _ _ Hc Hx Hy Hz Hle Hyz). lia.
    + destruct (cmp y.1 x.1 <=? 0) eqn:Hyx; simpl; [|done].
      exfalso. apply Z.leb_le in Hxz, Hyx. rewrite Z.leb_gt in Hyz.
      pose proof (consistent_trans keys _ _ _ Hc Hy Hx Hz Hyx Hxz). lia.
    + by rewrite IH.
Qed.

Lemma insertEntry_keys (keys : list string) e l :
  e.1 ∈ keys -> Forall (fun e => e.1 ∈ keys) l ->
  Forall (fun e => e.1 ∈ keys) (insertEntry cmp e l).
Proof. intros He Hl. rewrite insertEntry_perm. by constructor. Qed.

Lemma sortEntries_keys (keys : list string) l :
  Forall (fun e => e.1 ∈ keys) l -> Forall (fun e => e.1 ∈ keys) (sortEntries cmp l).
Proof. intros Hl. by rewrite sortEntries_perm. Qed.

Lemma sortEntries_reorder keys l1 l2 :
  ConsistentOn cmp keys ->
  Forall (fun e => e.1 ∈ keys) l1 -> NoDup (map fst l1) ->
  l1 ≡ₚ l2 -> sortEntries cmp l1 = sortEntries cmp l2.
Proof.
  intros Hc Hk Hnd Hp. induction Hp as [|e l l' Hp IH|a b l|l l' l'' Hp1 IH1 Hp2 IH2].
  - done.
  - simpl. inversion Hk; subst. inversion Hnd; subst. f_equal. auto.
  - simpl. inversion Hk as [|? ? Hb Hk']; subst. inversion Hk' as [|? ? Ha Hl]; subst.
    simpl in Hnd. inversion Hnd as [|? ? Hnot _]; subst.
    apply (insertEntry_comm keys); auto using sortEntries_keys.
    intros Heq. apply Hnot. rewrite Heq. left.
  - rewrite IH1 by done. apply IH2.
    + by rewrite <- Hp1.
    + by rewrite <- Hp1.
Qed.

Lemma insertEntry_sorted keys e l :
  ConsistentOn cmp keys ->
  e.1 ∈ keys -> Forall (fun y => y.1 ∈ keys ∧ y.1 ≠ e.1) l ->
  sortedBy cmp l -> sortedBy cmp (insertEntry cmp e l).
Proof.
  intros Hc He Hl Hs. unfold sortedBy in *.
  induction Hs as [|y l Hs IH Hhd]; simpl.
  - repeat constructor.
  - inversion Hl as [|? ? [Hy Hne] Hl']; subst.
    destruct (cmp e.1 y.1 <=? 0) eqn:Hey.
    + constructor; [by constructor|]. constructor. by apply Z.leb_le.
    + constructor; [by apply IH|].
      assert (cmp y.1 e.1 <= 0) as Hye.
      { pose proof (consistent_no_tie keys _ _ Hc He Hy (not_eq_sym Hne)) as Hn.
        rewrite Hey in Hn. apply Z.leb_le. by destruct (cmp y.1 e.1 <=? 0). }
      destruct Hhd as [|z l' Hyz]; simpl.
      * by constructor.
      * destruct (cmp e.1 z.1 <=? 0); by constructor.
Qed.

Lemma sortEntries_sorted keys l :
  ConsistentOn cmp keys ->
  Forall (fun e => e.1 ∈ keys) l -> NoDup (map fst l) ->
  sortedBy cmp (sortEntries cmp l).
Proof.
  intros Hc Hk Hnd. induction l as [|e l IH]; simpl.
  - constructor.
  - inversion Hk; subst. simpl in Hnd. inversion Hnd as [|? ? Hnot Hnd']; subst.
    apply (insertEntry_sorted keys); auto.
    rewrite sortEntries_perm. rewrite Forall_forall in *. intros y Hy. split; [auto|].
    intros Heq. apply Hnot. rewrite <- Heq. apply list_elem_of_fmap. by exists y.
Qed.
End Comparator.

Lemma insertEntry_ext cmp1 cmp2 e l :
  Forall (fun y => (cmp1 e.1 y.1 <=? 0) = (cmp2 e.1 y.1 <=? 0)) l ->
  insertEntry cmp1 e l = insertEntry cmp2 e l.
Proof.
  induction 1 as [|y l Hy Hl IH]; simpl; [done|].
  rewrite Hy, IH. done.
Qed.

Lemma sortEntries_ext cmp1 cmp2 (keys : list string) l :
  (forall a b, a ∈ keys -> b ∈ keys -> (cmp1 a b <=? 0) = (cmp2 a b <=? 0)) ->
  Forall (fun e => e.1 ∈ keys) l ->
  sortEntries cmp1 l = sortEntries cmp2 l.
Proof.
  intros Hagree. induction 1 as [|e l He Hl IH]; simpl; [done|].
  rewrite IH. apply insertEntry_ext.
  apply (sortEntries_keys cmp2) in Hl. rewrite Forall_forall in *. auto.
Qed.

Lemma filter_present_keys (params : Params) :
  Forall (fun e => e.1 ∈ map fst params) (List.filter isPresent params).
Proof.
  rewrite Forall_forall. intros e He. apply list_elem_of_In, filter_In in He.
  destruct He as [He _]. apply list_elem_of_fmap. exists e. split; [done|].
  by apply list_elem_of_In.
Qed.

Lemma filter_present_NoDup (params : Params) :
  NoDup (map fst params) -> NoDup (map fst (List.filter isPresent params)).
Proof.
  induction params as [|e l IH]; simpl; [done|].
  intros Hnd. inversion Hnd as [|? ? Hnot Hnd']; subst.
  destruct (isPresent e); simpl; [|auto].
  constructor; [|auto]. intros Hin. apply Hnot.
  apply list_elem_of_fmap in Hin as (y & -> & Hy). apply list_elem_of_fmap. exists y.
  split; [done|]. apply list_elem_of_In. apply list_elem_of_In, filter_In in Hy. tauto.
Qed.

Lemma filter_present_perm (l1 l2 : Params) :
  l1 ≡ₚ l2 -> List.filter isPresent l1 ≡ₚ List.filter isPresent l2.
Proof.
  induction 1 as [|e l l' Hp IH|a b l|l l' l'' Hp1 IH1 Hp2 IH2]; simpl.
  - done.
  - destruct (isPresent e); by rewrite IH.
  - destruct (isPresent a), (isPresent b); try done. apply Permutation_swap.
  - by rewrite IH1.
Qed.

(** The digest text is 32 lower-case hexadecimal digits. *)
Lemma hexDigit_lower n : 0 <= n < 16 -> lowerHexChar (MD5.hexDigit n) = true.
Proof.
  intros Hn.
  assert (n = 0 ∨ n = 1 ∨ n = 2 ∨ n = 3 ∨ n = 4 ∨ n = 5 ∨ n = 6 ∨ n = 7 ∨ n = 8
          ∨ n = 9 ∨ n = 10 ∨ n = 11 ∨ n = 12 ∨ n = 13 ∨ n = 14 ∨ n = 15) as H by lia.
  repeat (destruct H as [->|H]; [reflexivity|]). by subst.
Qed.

Lemma hex_lower bytes :
  Forall (fun b => 0 <= b < 256) bytes ->
  Forall (fun c => lowerHexChar c = true) (list_ascii_of_string (MD5.hex bytes)).
Proof.
  intros Hb. unfold MD5.hex. rewrite list_ascii_of_string_of_list_ascii.
  induction Hb as [|b l Hb Hl IH]; simpl; [constructor|].
  constructor; [|constructor; [|done]]; apply hexDigit_lower.
  - split; [apply Z.div_pos; lia | apply Z.div_lt_upper_bound; lia].
  - apply Z.mod_pos_bound. lia.
Qed.

Lemma littleEndian_range w x : Forall (fun b => 0 <= b < 256) (MD5.littleEndian w x).
Proof.
  unfold MD5.littleEndian. apply Forall_fmap, Forall_true. intros k. simpl.
  change 255 with (Z.ones 8). rewrite Z.land_ones by lia.
  change (2 ^ 8) with 256. apply Z.mod_pos_bound. lia.
Qed.

Lemma md5Hex_lower text :
  Forall (fun c => lowerHexChar c = true) (list_ascii_of_string (md5Hex text)).
Proof.
  unfold md5Hex, MD5.digest. apply hex_lower.
  rewrite !Forall_app. repeat split; apply littleEndian_range.
Qed.

End SigningFacts.

(** ** The open-API signature (claim C3) *)

Module SigningClaims.
Import Signing SigningFacts.

#[local] Instance ConsistentOn_dec cmp keys : Decision (ConsistentOn cmp keys).
Proof. unfold ConsistentOn. apply _. Defined.

(** C3, as stated, fails on the code: the entries are sorted with
    [localeCompare], not by ordinal comparison.  For the sign parameters
    of the first folder listing, the host collation puts [Timestamp]
    after the lower-case keys, ordinal comparison puts it before them,
    and the two digests differ. *)
Lemma md5Signature_not_ordinal :
  md5Signature rootCollate (listFoldersSignParams "1700000000000")
  <> specSignature (listFoldersSignParams "1700000000000").
Proof. vm_compute. discriminate. Qed.

(** C3 (amended): the signature is the lower-case hexadecimal MD5 digest
    of the [key=value] pairs joined with [&], taken over the entries
    that are neither null nor undefined, sorted by key under the host's
    [localeCompare]; when that comparator is consistent on the keys of
    the map (no tie between distinct keys, antisymmetric, transitive)
    the signature does not depend on the order of the entries, and
    where it agrees with ordinal comparison on those keys the signature
    is the one the specification describes. *)
Theorem md5Signature_sorted_by_localeCompare
    (localeCompare : string -> string -> Z) (params reordered : Params) :
  NoDup (map fst params) ->
  ConsistentOn localeCompare (map fst params) ->
  params ≡ₚ reordered ->
  (exists sorted : Params,
      sorted ≡ₚ List.filter isPresent params
      ∧ sortedBy localeCompare sorted
      ∧ md5Signature localeCompare params
        = md5Hex (JsString.join "&" (map pairText sorted)))
  ∧ Forall (fun c => lowerHexChar c = true)
      (list_ascii_of_string (md5Signature localeCompare params))
  ∧ md5Signature localeCompare reordered = md5Signature localeCompare params
  ∧ ((forall a b, a ∈ map fst params -> b ∈ map fst params ->
        (localeCompare a b <=? 0) = (ordinalCompare a b <=? 0)) ->
     md5Signature localeCompare params = specSignature params).
Proof.
  intros Hnd Hc Hp. repeat split.
  - exists (sortEntries localeCompare (List.filter isPresent params)).
    split; [apply sortEntries_perm|]. split; [|done].
    apply (sortEntries_sorted _ (map fst params)); auto using filter_present_keys,
      filter_present_NoDup.
  - apply md5Hex_lower.
  - unfold md5Signature, signText. do 3 f_equal. symmetry.
    apply (sortEntries_reorder _ (map fst params)); auto using filter_present_keys,
      filter_present_NoDup, filter_present_perm.
  - intros Hagree. unfold md5Signature, specSignature, signText. do 3 f_equal.
    apply (sortEntries_ext _ _ (map fst params)); auto using filter_present_keys.
Qed.

Lemma md5Signature_sorted_by_localeCompare_witness :
  md5Signature rootCollate (reverse (listFoldersSignParams "1700000000000"))
  = md5Signature rootCollate (listFoldersSignParams "1700000000000").
Proof.
  refine (proj1 (proj2 (proj2
    (md5Signature_sorted_by_localeCompare rootCollate
       (listFoldersSignParams "1700000000000")
       (reverse (listFoldersSignParams "1700000000000")) _ _ _)))).
  - apply (bool_decide_unpack _). vm_compute. exact I.
  - apply (bool_decide_unpack _). vm_compute. exact I.
  - symmetry. apply reverse_Permutation.
Defined.

End SigningClaims.

(** ** JavaScript values as the scripts use them *)

Module Js.

(** The result of [JSON.parse]: a tree. *)
#[warnings="-register-all"] Inductive Json : Type :=
| JNull
| JBool (b : bool)
| JNum (n : Z)
| JStr (s : string)
| JArr (items : list Json)
| JObj (fields : list (string * Json)).

(** A value read from a property or passed as an argument; [None] is
    [undefined]. *)
Definition Value : Type := option Json.

Definition truthy (v : Value) : bool :=
  match v with
  | None | Some JNull | Some (JBool false) | Some (JNum 0) | Some (JStr EmptyString) => false
  | Some _ => true
  end.

(** [v === undefined || v === null]. *)
Definition nullish (v : Value) : bool :=
  match v with
  | None | Some JNull => true
  | Some _ => false
  end.

(** [a ?? b]. *)
Definition coalesce (a b : Value) : Value := if nullish a then b else a.

(** [typeof v === "object"] for a truthy [v]: an array or an object. *)
Definition isObjectLike (v : Value) : bool :=
  match v with
  | Some (JArr _) | Some (JObj _) => true
  | _ => false
  end.

Definition isArray (v : Value) : bool :=
  match v with
  | Some (JArr _) => true
  | _ => false
  end.

Fixpoint lookupField (k : string) (fields : list (string * Json)) : Value :=
  match fields with
  | [] => None
  | (k', v) :: rest => if String.eqb k k' then Some v else lookupField k rest
  end.

(** [v.k] on a value that is not null or undefined. *)
Definition getProp (v : Value) (k : string) : Value :=
  match v with
  | Some (JObj fields) => lookupField k fields
  | _ => None
  end.

(** [String(j)]. *)
Fixpoint toStr (j : Json) : string :=
  match j with
  | JNull => "null"
  | JBool true => "true"
  | JBool false => "false"
  | JNum n => JsString.ofZ n
  | JStr s => s
  | JArr items =>
      JsString.join ","
        (map (fun x => match x with JNull => EmptyString | _ => toStr x end) items)
  | JObj _ => "[object Object]"
  end.

Definition String_ (v : Value) : string :=
  match v with
  | None => "undefined"
  | Some j => toStr j
  end.

(** [String(v || "")]. *)
Definition stringOr (v : Value) : string :=
  if truthy v then String_ v else EmptyString.

(** [firstString(...values)]. *)
Fixpoint firstString (values : list Value) : string :=
  match values with
  | [] => EmptyString
  | v :: rest =>
      let text := JsString.trim (stringOr v) in
      if String.eqb text EmptyString then firstString rest else text
  end.

(** Decimal integer literals, the part of [Number(text)] the model
    covers; [None] is [NaN]. *)
Fixpoint digitsValue (s : string) (acc : Z) : option Z :=
  match s with
  | EmptyString => Some acc
  | String c rest =>
      let n := Z.of_N (N_of_ascii c) in
      if (48 <=? n) && (n <=? 57) then digitsValue rest (10 * acc + (n - 48)) else None
  end.

Definition numberOfText (s : string) : option Z :=
  match JsString.trim s with
  | EmptyString => Some 0
  | String "-"%char (String c rest) => Z.opp <$> digitsValue (String c rest) 0
  | String "+"%char (String c rest) => digitsValue (String c rest) 0
  | String "-"%char EmptyString | String "+"%char EmptyString => None
  | t => digitsValue t 0
  end.

(** [Number(v)]. *)
Definition Number_ (v : Value) : option Z :=
  match v with
  | None => None
  | Some JNull => Some 0
  | Some (JBool b) => Some (if b then 1 else 0)
  | Some (JNum n) => Some n
  | Some j => numberOfText (toStr j)
  end.

End Js.

Example toStr_samples :
  (Js.toStr (Js.JArr [Js.JNum 1; Js.JNull; Js.JStr "a"]), Js.toStr (Js.JObj []),
   Js.String_ (Some (Js.JNum 0)), Js.stringOr (Some (Js.JNum 0)))
  = ("1,,a", "[object Object]", "0", "")%string.
Proof. vm_compute. reflexivity. Qed.

Example number_samples :
  (Js.Number_ (Some (Js.JStr " 120 ")), Js.Number_ (Some (Js.JStr "x")),
   Js.Number_ (Some (Js.JArr [])), Js.Number_ (Some (Js.JObj [])))
  = (Some 120, None, Some 0, None).
Proof. vm_compute. reflexivity. Qed.

(** ** The cloud client script *)

Module Cloud.
Import Js.
#[local] Open Scope string_scope.
#[local] Open Scope Z_scope.
#[local] Open Scope list_scope.

Definition WEB_URL : string := "https://cloud.189.cn".
Definition API_URL : string := "https://api.cloud.189.cn".
Definition UPLOAD_URL : string := "https://upload.cloud.189.cn".
Definition APP_KEY : string := "600100422".
Definition ROOT_FOLDER_ID : string := "-11".
Definition DEFAULT_SLICE_SIZE : Z := 10 * 1024 * 1024.

Definition quoteMark : string := String (ascii_of_nat 34) EmptyString.

Fixpoint escapeLineBreaks (s : string) : string :=
  match s with
  | EmptyString => EmptyString
  | String c rest =>
      if (N_of_ascii c =? 13)%N then "\r" +:+ escapeLineBreaks rest
      else if (N_of_ascii c =? 10)%N then "\n" +:+ escapeLineBreaks rest
      else String c (escapeLineBreaks rest)
  end.

Definition shortText (value : string) : string :=
  let text := escapeLineBreaks value in
  if (JsString.unitLength text <=? 320)%nat then text
  else JsString.sliceUnits 320 text +:+ "...".

(** *** The world the script acts on *)

(** A thrown value: the [name] and [message] of the error object. *)
Record Exn : Type := { exnName : string; exnMessage : string }.

(** [new Error(message)]. *)
Definition Error (message : string) : Exn :=
  {| exnName := "Error"; exnMessage := message |}.

(** The body of a response as the connection carries it: the chunks
    that arrive, the error that breaks the connection if one does, and
    the length the response declares ([Content-Length]) if it declares
    one. *)
Record BodyStream : Type := {
  chunks : list (list Byte.byte);
  failure : option Exn;
  declaredLength : option Z
}.

(** What [resp.body] hands over: the bytes that arrive, no more of them
    than the response declares. *)
Definition received (stream : BodyStream) : list Byte.byte :=
  match declaredLength stream with
  | Some n => take (Z.to_nat n) (concat (chunks stream))
  | None => concat (chunks stream)
  end.

(** How [resp.body] ends: with the error of the connection, with
    [TypeError: terminated] when the connection closes before the
    declared length has arrived, and cleanly otherwise. *)
Definition streamError (stream : BodyStream) : option Exn :=
  match failure stream with
  | Some err => Some err
  | None =>
      match declaredLength stream with
      | Some n =>
          if Z.of_nat (length (concat (chunks stream))) <? n
          then Some {| exnName := "TypeError"; exnMessage := "terminated" |}
          else None
      | None => None
      end
  end.

Record Response : Type := {
  status : Z;
  finalUrl : string;
  text : string;
  body : option BodyStream
}.

Definition ok (r : Response) : bool := (200 <=? status r) && (status r <=? 299).

Inductive FetchResult : Type :=
| FetchFailed (message : string)
| Fetched (r : Response).

Inductive Request : Type :=
| OpenApiRequest (cookie sessionKey endpoint method : string)
    (query form : list (string * string)) (timestamp signature : string)
| ApiSignedRequest (cookie accessToken endpoint : string)
    (query : list (string * string)) (timestamp signature : string)
| JsonGetRequest (cookie url : string)
| UploadRequest (cookie sessionKey uri : string) (form : list (string * string))
    (pkId : string)
| PutRequest (url : string) (headers : list (string * string)) (content : list Byte.byte)
| DownloadRequest (cookie url : string)
| TextRequest (cookie url : string) (extraHeaders : list (string * string)).

Record World : Type := {
  sent : list Request;
  disk : gmap string (list Byte.byte);
  dirs : gset string
}.

Definition Result (A : Type) : Type := (Exn + A)%type.
Definition M (A : Type) : Type := World -> Result A * World.

Definition ret {A} (a : A) : M A := fun w => (inr a, w).
Definition throw {A} (message : string) : M A := fun w => (inl (Error message), w).
Definition bind {A B} (m : M A) (k : A -> M B) : M B :=
  fun w => match m w with
           | (inl e, w') => (inl e, w')
           | (inr a, w') => k a w'
           end.
Definition lift {A} (r : Result A) : M A := fun w => (r, w).
(** [try { ... } catch (err) { ... }] around [m]. *)
Definition attempt {A} (m : M A) : M (Result A) :=
  fun w => let '(r, w') := m w in (inr r, w').

Declare Scope cloud_scope.
Delimit Scope cloud_scope with cloud.
Module Notations.
Notation "x <- m ;; k" := (bind m (fun x => k))
  (at level 100, m at next level, right associativity) : cloud_scope.
End Notations.
Import Notations.
#[local] Open Scope cloud_scope.

(** [{ ...base, k: v }]: an existing key keeps its place. *)
Fixpoint assign {V} (obj : list (string * V)) (k : string) (v : V) : list (string * V) :=
  match obj with
  | [] => [(k, v)]
  | (k', v') :: rest =>
      if String.eqb k k' then (k, v) :: rest else (k', v') :: assign rest k v
  end.

Definition spread {V} (base extra : list (string * V)) : list (string * V) :=
  foldl (fun obj e => assign obj e.1 e.2) base extra.

Definition asParams (obj : list (string * string)) : Signing.Params :=
  map (fun e => (e.1, Signing.PString e.2)) obj.

Record Credentials : Type := {
  cookie : string;
  sessionKey : string;
  accessToken : string
}.

Definition ensureSuccessPayload (payload : Value) (action : string) : Result unit :=
  if negb (truthy payload) || negb (isObjectLike payload) || isArray payload
  then inl (Error (action +:+ " 返回格式异常"))
  else
    let codeRaw :=
      coalesce (coalesce (coalesce (getProp payload "res_code") (getProp payload "resCode"))
                  (getProp payload "code")) (getProp payload "errorCode") in
    let code := JsString.trim (if nullish codeRaw then EmptyString else String_ codeRaw) in
    if negb (String.eqb code EmptyString)
       && negb (bool_decide (code ∈ ["0"; "SUCCESS"; "success"]))
    then
      let msg := firstString
        [getProp payload "msg"; getProp payload "message"; getProp payload "res_message";
         getProp payload "resMessage"; getProp payload "errorMsg";
         getProp payload "errorMessage"; getProp payload "desc";
         getProp payload "description"] in
      inl (Error (action +:+ " 失败 code=" +:+ code
                  +:+ (if String.eqb msg EmptyString then EmptyString else " msg=" +:+ msg)))
    else inr tt.

(** The result code as the specification words it: the first of the
    four fields that is present, that is neither undefined nor null. *)
Definition firstPresentCode (payload : Value) : Value :=
  head (List.filter (fun v => negb (nullish (Some v)))
          (omap (getProp payload) ["res_code"; "resCode"; "code"; "errorCode"])).

Definition normalizeSeparators : string -> string :=
  fix go (s : string) : string :=
    match s with
    | EmptyString => EmptyString
    | String c rest =>
        if (N_of_ascii c =? 47)%N || (N_of_ascii c =? 92)%N then
          match rest with
          | String c' _ =>
              if (N_of_ascii c' =? 47)%N || (N_of_ascii c' =? 92)%N then go rest
              else String "_"%char (go rest)
          | EmptyString => String "_"%char EmptyString
          end
        else String c (go rest)
    end.

Definition normalizeFolderName (value : Value) : string :=
  normalizeSeparators (JsString.trim (stringOr value)).

(** [/] or [\]. *)
Definition isSeparator (ch : ascii) : bool :=
  (N_of_ascii ch =? 47)%N || (N_of_ascii ch =? 92)%N.

(** A segment the path loops do not skip: [if (!folderName) continue]. *)
Definition isNamed (part : Value) : bool :=
  negb (String.eqb (normalizeFolderName part) EmptyString).

Record Folder : Type := { id : string; name : string }.

Record Attempt : Type := {
  attemptOk : bool;
  attemptEndpoint : string;
  attemptMethod : string;
  attemptError : option string
}.

Record TraceEntry : Type := {
  step : string;
  parent_folder_id : string;
  folder_name : string;
  created : option bool;
  found : option bool;
  attempts : option (list Attempt)
}.

Record Candidate : Type := {
  candEndpoint : string;
  candMethod : string;
  candForm : list (string * string)
}.

Record FindResult : Type := {
  findOk : bool;
  findFolderId : string;
  findTrace : list TraceEntry;
  reason : option string;
  missing_name : option string
}.

Definition findByName (folderName : string) (folders : list Folder) : option Folder :=
  List.find (fun item => String.eqb (name item) folderName) folders.

Definition folderOfItem (item : Json) : option Folder :=
  if negb (truthy (Some item)) || negb (isObjectLike (Some item)) then None
  else
    let id := firstString [getProp (Some item) "id"; getProp (Some item) "folderId";
                           getProp (Some item) "fileId"] in
    let name := firstString [getProp (Some item) "name"; getProp (Some item) "folderName";
                             getProp (Some item) "fileName"] in
    if String.eqb id EmptyString || String.eqb name EmptyString then None
    else Some {| id := id; name := name |}.

(** [Math.max(1, Math.ceil(totalCount / 60))] for a positive count. *)
Definition pageCountOf (totalCount : Z) : Z := Z.max 1 ((totalCount + 59) / 60).

Record RsaKey : Type := { pubKey : string; pkId : string }.

Record UploadInfo : Type := {
  userFileId : string;
  uploadedSize : Z;
  chunkCount : Z;
  uploadFileId : string
}.

Definition lineFeed : string := String (ascii_of_nat 10) EmptyString.

(** [text.split(sep)] for a one-character separator. *)
Fixpoint splitOn (sep : ascii) (s : string) : list string :=
  match s with
  | EmptyString => [EmptyString]
  | String c rest =>
      if Ascii.eqb c sep then EmptyString :: splitOn sep rest
      else match splitOn sep rest with
           | [] => [String c EmptyString]
           | first :: others => String c first :: others
           end
  end.

(** [text.indexOf(ch)]; [None] is [-1]. *)
Fixpoint indexOf (ch : ascii) (s : string) : option nat :=
  match s with
  | EmptyString => None
  | String c rest => if Ascii.eqb c ch then Some O else S <$> indexOf ch rest
  end.

(** [buffer.toString("base64")]. *)
Module Base64.
Definition alphabet : string :=
  "ABCDEFGHIJKLMNOPQRSTUVWXYZabcdefghijklmnopqrstuvwxyz0123456789+/".

Definition digit (n : Z) : ascii :=
  match String.get (Z.to_nat n) alphabet with
  | Some c => c
  | None => "="%char
  end.

Fixpoint encodeList (fuel : nat) (bytes : list Z) : list ascii :=
  match fuel with
  | O => []
  | S fuel' =>
      match bytes with
      | [] => []
      | [a] =>
          [digit (a / 4); digit (a mod 4 * 16); "="%char; "="%char]
      | [a; b] =>
          [digit (a / 4); digit (a mod 4 * 16 + b / 16); digit (b mod 16 * 4); "="%char]
      | a :: b :: c :: rest =>
          digit (a / 4) :: digit (a mod 4 * 16 + b / 16)
            :: digit (b mod 16 * 4 + c / 64) :: digit (c mod 64) :: encodeList fuel' rest
      end
  end.

Definition encode (bytes : list Z) : string :=
  string_of_list_ascii (encodeList (S (length bytes)) bytes).
End Base64.

Section Client.
(** The network: the answer to a request, given the requests sent
    before it. *)
Variable server : list Request -> Request -> FetchResult.
(** [Date.now()], given the requests sent so far. *)
Variable nowMs : list Request -> Z.
Variable JSON_parse : string -> option Json.
Variable JSON_stringify : Json -> string.
Variable localeCompare : string -> string -> Z.

Definition fetch (r : Request) : M Response :=
  fun w =>
    let w' := {| sent := sent w ++ [r]; disk := disk w; dirs := dirs w |} in
    match server (sent w) r with
    | FetchFailed message =>
        (inl {| exnName := "TypeError"; exnMessage := message |}, w')
    | Fetched resp => (inr resp, w')
    end.

Definition now : M Z := fun w => (inr (nowMs (sent w)), w).

Definition parseJsonSafe (text : string) : Json :=
  default JNull (JSON_parse text).

Definition requestOpenApi (c : Credentials) (endpoint method : string)
    (query form : list (string * string)) : M Json :=
  t <- now ;;
  let ts := JsString.ofZ t in
  let upperMethod := JsString.toUpperCase method in
  let isGet := String.eqb upperMethod "GET" in
  let signParams :=
    spread (if isGet then query else spread query form)
           [("Timestamp", ts); ("AppKey", APP_KEY)] in
  let signature := Signing.md5Signature localeCompare (asParams signParams) in
  resp <- fetch (OpenApiRequest (cookie c) (sessionKey c) endpoint upperMethod query
                   (if isGet then [] else form) ts signature) ;;
  if negb (ok resp) then
    throw ("请求失败 status=" +:+ JsString.ofZ (status resp) +:+ " endpoint=" +:+ endpoint
           +:+ " body=" +:+ shortText (text resp))
  else
    let payload := parseJsonSafe (text resp) in
    if negb (truthy (Some payload)) then
      throw ("响应非 JSON endpoint=" +:+ endpoint +:+ " body=" +:+ shortText (text resp))
    else ret payload.

Fixpoint listFoldersPages (c : Credentials) (parentFolderId : string)
    (pagesLeft : nat) (pageNum : Z) (folders : list Folder) : M (list Folder) :=
  match pagesLeft with
  | O => ret folders
  | S pagesLeft' =>
      payload <- requestOpenApi c "/api/open/file/listFiles.action" "GET"
                   [("pageSize", "60"); ("pageNum", JsString.ofZ pageNum);
                    ("mediaType", "0"); ("folderId", parentFolderId);
                    ("iconOption", "5"); ("orderBy", "lastOpTime");
                    ("descending", "true")] [] ;;
      _ <- lift (ensureSuccessPayload (Some payload) "listFiles") ;;
      let fileListAO :=
        if truthy (getProp (Some payload) "fileListAO")
           && isObjectLike (getProp (Some payload) "fileListAO")
        then getProp (Some payload) "fileListAO" else Some (JObj []) in
      let folderList :=
        match getProp fileListAO "folderList" with
        | Some (JArr items) => items
        | _ => []
        end in
      let folders' := folders ++ omap folderOfItem folderList in
      let count := getProp fileListAO "count" in
      let totalCount := Number_ (if truthy count then count else Some (JNum 0)) in
      match folderList, totalCount with
      | [], _ => ret folders'
      | _ :: _, Some total =>
          if total <=? 0 then ret folders'
          else if pageCountOf total <=? pageNum then ret folders'
          else listFoldersPages c parentFolderId pagesLeft' (pageNum + 1) folders'
      | _ :: _, None =>
          listFoldersPages c parentFolderId pagesLeft' (pageNum + 1) folders'
      end
  end.

Definition listFolders (c : Credentials) (parentFolderId : string) : M (list Folder) :=
  listFoldersPages c parentFolderId 20 1 [].

Definition folderCandidates (parentFolderId folderName : string) : list Candidate :=
  let taskInfosJson :=
    JSON_stringify (JArr [JObj [("fileName", JStr folderName); ("isFolder", JNum 1)]]) in
  [ {| candEndpoint := "/api/open/file/createFolder.action"; candMethod := "POST";
       candForm := [("folderName", folderName); ("parentFolderId", parentFolderId)] |};
    {| candEndpoint := "/api/open/file/createFolder.action"; candMethod := "POST";
       candForm := [("name", folderName); ("parentFolderId", parentFolderId)] |};
    {| candEndpoint := "/api/open/file/createFolder.action"; candMethod := "POST";
       candForm := [("folderName", folderName); ("folderId", parentFolderId)] |};
    {| candEndpoint := "/api/open/batch/createBatchTask.action"; candMethod := "POST";
       candForm := [("type", "CREATE_FOLDER"); ("targetFolderId", parentFolderId);
                    ("taskInfos", taskInfosJson)] |};
    {| candEndpoint := "/api/open/batch/createBatchTask.action"; candMethod := "POST";
       candForm := [("type", "MKDIR"); ("targetFolderId", parentFolderId);
                    ("taskInfos", taskInfosJson)] |} ].

Definition tryCandidate (c : Credentials) (item : Candidate) : M unit :=
  payload <- requestOpenApi c (candEndpoint item) (candMethod item) [] (candForm item) ;;
  lift (ensureSuccessPayload (Some payload) ("createFolder:" +:+ candEndpoint item)).

(** [err && err.message ? err.message : String(err)]: an error without
    a message is printed as its name. *)
Definition errorText (err : Exn) : string :=
  if String.eqb (exnMessage err) EmptyString then exnName err else exnMessage err.

Definition attemptOf (item : Candidate) (outcome : Result unit) : Attempt :=
  match outcome with
  | inr _ => {| attemptOk := true; attemptEndpoint := candEndpoint item;
                attemptMethod := candMethod item; attemptError := None |}
  | inl err => {| attemptOk := false; attemptEndpoint := candEndpoint item;
                  attemptMethod := candMethod item;
                  attemptError := Some (shortText (errorText err)) |}
  end.

Fixpoint tryCandidates (c : Credentials) (candidates : list Candidate)
    (attempts : list Attempt) : M (list Attempt) :=
  match candidates with
  | [] => ret attempts
  | item :: rest =>
      outcome <- attempt (tryCandidate c item) ;;
      tryCandidates c rest (attempts ++ [attemptOf item outcome])
  end.

Definition createFolderCandidates (c : Credentials) (parentFolderId folderName : string)
    : M (list Attempt) :=
  tryCandidates c (folderCandidates parentFolderId folderName) [].

Definition cannotLocate (folderName : string) : string :=
  "无法创建或定位目录: " +:+ folderName.

Fixpoint ensureFolderLoop (c : Credentials) (parts : list Value)
    (parentFolderId : string) (trace : list TraceEntry) : M (string * list TraceEntry) :=
  match parts with
  | [] => ret (parentFolderId, trace)
  | rawPart :: rest =>
      let folderName := normalizeFolderName rawPart in
      if String.eqb folderName EmptyString then ensureFolderLoop c rest parentFolderId trace
      else
        folders <- listFolders c parentFolderId ;;
        match findByName folderName folders with
        | None =>
            attempts <- createFolderCandidates c parentFolderId folderName ;;
            refreshed <- listFolders c parentFolderId ;;
            let found := findByName folderName refreshed in
            let trace' := trace ++
              [{| step := "ensure_folder"; parent_folder_id := parentFolderId;
                  folder_name := folderName; created := Some (bool_decide (is_Some found));
                  found := None; attempts := Some attempts |}] in
            match found with
            | None => throw (cannotLocate folderName)
            | Some f =>
                if String.eqb (id f) EmptyString then throw (cannotLocate folderName)
                else ensureFolderLoop c rest (id f) trace'
            end
        | Some f =>
            let trace' := trace ++
              [{| step := "ensure_folder"; parent_folder_id := parentFolderId;
                  folder_name := folderName; created := Some false;
                  found := Some true; attempts := None |}] in
            if String.eqb (id f) EmptyString then throw (cannotLocate folderName)
            else ensureFolderLoop c rest (id f) trace'
        end
  end.

Definition ensureFolderPath (c : Credentials) (parts : list Value)
    : M (string * list TraceEntry) :=
  ensureFolderLoop c parts ROOT_FOLDER_ID [].

Fixpoint findFolderLoop (c : Credentials) (parts : list Value)
    (parentFolderId : string) (trace : list TraceEntry) : M FindResult :=
  match parts with
  | [] => ret {| findOk := true; findFolderId := parentFolderId; findTrace := trace;
                 reason := None; missing_name := None |}
  | rawPart :: rest =>
      let folderName := normalizeFolderName rawPart in
      if String.eqb folderName EmptyString then findFolderLoop c rest parentFolderId trace
      else
        folders <- listFolders c parentFolderId ;;
        let found := findByName folderName folders in
        let trace' := trace ++
          [{| step := "find_folder"; parent_folder_id := parentFolderId;
              folder_name := folderName; created := None;
              found := Some (bool_decide (is_Some found)); attempts := None |}] in
        match found with
        | Some f =>
            if String.eqb (id f) EmptyString then
              ret {| findOk := false; findFolderId := EmptyString; findTrace := trace';
                     reason := Some "folder_not_found"; missing_name := Some folderName |}
            else findFolderLoop c rest (id f) trace'
        | None =>
            ret {| findOk := false; findFolderId := EmptyString; findTrace := trace';
                   reason := Some "folder_not_found"; missing_name := Some folderName |}
        end
  end.

Definition findFolderPath (c : Credentials) (parts : list Value) : M FindResult :=
  findFolderLoop c parts ROOT_FOLDER_ID [].

(** *** Chunked upload *)

Variable encodeURIComponent : string -> string.
(** [None] when the host raises [URIError]. *)
Variable decodeURIComponent : string -> option string.
Variable pathResolve : string -> string.
Variable pathDirname : string -> string.
Variable pathBasename : string -> string.

(** [a && a.k]. *)
Definition andProp (a : Value) (k : string) : Value :=
  if truthy a then getProp a k else a.

(** The three upload endpoints take their form inside an encrypted
    envelope (a random seed, AES-128-ECB of the form, HMAC-SHA1 of the
    signing string, RSA of the seed).  The envelope is left out: the
    request is recorded by the form it carries. *)
Definition uploadRequest (c : Credentials) (rsa : RsaKey) (uri : string)
    (form : list (string * string)) : M Json :=
  resp <- fetch (UploadRequest (cookie c) (sessionKey c) uri form (pkId rsa)) ;;
  if negb (ok resp) then
    throw ("上传接口失败 status=" +:+ JsString.ofZ (status resp) +:+ " uri=" +:+ uri
           +:+ " body=" +:+ shortText (text resp))
  else
    let payload := parseJsonSafe (text resp) in
    if negb (truthy (Some payload)) then
      throw ("上传接口返回非 JSON uri=" +:+ uri +:+ " body=" +:+ shortText (text resp))
    else if negb (String.eqb (JsString.trim (stringOr (getProp (Some payload) "code")))
                    "SUCCESS") then
      throw ("上传接口业务失败 uri=" +:+ uri +:+ " msg="
             +:+ firstString [getProp (Some payload) "msg";
                              getProp (Some payload) "message";
                              Some (JStr (JSON_stringify payload))])
    else ret payload.

(** [headers[key] = value] on the plain object [{}], for a string
    [value]: the name [__proto__] is the prototype accessor of the
    object, and assigning a string through it adds no property. *)
Definition setHeader (headers : list (string * string)) (key value : string)
    : list (string * string) :=
  if String.eqb key "__proto__" then headers else assign headers key value.

Definition parseRequestHeaderPairs (rawHeader : Value) : Result (list (string * string)) :=
  match decodeURIComponent (stringOr rawHeader) with
  | None => inl {| exnName := "URIError"; exnMessage := "URI malformed" |}
  | Some text =>
      inr (foldl (fun headers pair =>
                    match indexOf "=" pair with
                    | Some (S idx) =>
                        setHeader headers (substring 0 (S idx) pair)
                          (substring (S (S idx)) (String.length pair) pair)
                    | _ => headers
                    end)
                 [] (splitOn "&" text))
  end.

Definition readSync (content : list Byte.byte) (size offset : Z) : list Byte.byte :=
  take (Z.to_nat size) (drop (Z.to_nat offset) content).

Definition md5Of (bytes : list Byte.byte) : list Z :=
  MD5.digest (map (fun b => Z.of_N (Byte.to_N b)) bytes).

Definition partOffset (chunkSize i : Z) : Z := (i - 1) * chunkSize.
Definition partSize (fileSize chunkSize i : Z) : Z :=
  Z.min chunkSize (fileSize - partOffset chunkSize i).
Definition partBytes (content : list Byte.byte) (chunkSize i : Z) : list Byte.byte :=
  readSync content (partSize (Z.of_nat (length content)) chunkSize i)
    (partOffset chunkSize i).
Definition partHexUpper (content : list Byte.byte) (chunkSize i : Z) : string :=
  JsString.toUpperCase (MD5.hex (md5Of (partBytes content chunkSize i))).

Definition urlsForm (uploadFileId : string) (chunk : list Byte.byte) (i : Z)
    : list (string * string) :=
  [("partInfo", JsString.ofZ i +:+ "-" +:+ Base64.encode (md5Of chunk));
   ("uploadFileId", uploadFileId)].

(** One turn of the part loop. *)
Definition uploadPart (c : Credentials) (rsa : RsaKey) (uploadFileId : string)
    (content : list Byte.byte) (chunkSize i : Z) : M unit :=
  let chunkBuffer := partBytes content chunkSize i in
  urlPayload <- uploadRequest c rsa "/person/getMultiUploadUrls"
                  (urlsForm uploadFileId chunkBuffer i) ;;
  let uploadUrls :=
    if truthy (getProp (Some urlPayload) "uploadUrls")
       && isObjectLike (getProp (Some urlPayload) "uploadUrls")
    then getProp (Some urlPayload) "uploadUrls" else Some (JObj []) in
  let uploadData := getProp uploadUrls ("partNumber_" +:+ JsString.ofZ i) in
  let requestURL :=
    if truthy uploadData && truthy (getProp uploadData "requestURL")
    then String_ (getProp uploadData "requestURL") else EmptyString in
  if String.eqb requestURL EmptyString then
    throw ("上传分片 URL 缺失 part=" +:+ JsString.ofZ i)
  else
    putHeaders <- lift (parseRequestHeaderPairs (getProp uploadData "requestHeader")) ;;
    putResp <- fetch (PutRequest requestURL putHeaders chunkBuffer) ;;
    if negb (ok putResp) then
      throw ("分片上传失败 part=" +:+ JsString.ofZ i +:+ " status="
             +:+ JsString.ofZ (status putResp) +:+ " body=" +:+ shortText (text putResp))
    else ret tt.

(** [for (let i = ...; i <= chunkCount; i += 1)], with [remaining]
    the number of turns left; the state is the list of part digests
    and the bytes fed to the whole-file hasher. *)
Fixpoint uploadParts (c : Credentials) (rsa : RsaKey) (uploadFileId : string)
    (content : list Byte.byte) (chunkSize : Z) (remaining : nat) (i : Z)
    (md5PartHexUpper : list string) (hashed : list Byte.byte)
    : M (list string * list Byte.byte) :=
  match remaining with
  | O => ret (md5PartHexUpper, hashed)
  | S remaining' =>
      _ <- uploadPart c rsa uploadFileId content chunkSize i ;;
      uploadParts c rsa uploadFileId content chunkSize remaining' (i + 1)
        (md5PartHexUpper ++ [partHexUpper content chunkSize i])
        (hashed ++ partBytes content chunkSize i)
  end.

Definition chunkSizeOf (sliceSize : option Z) : Z :=
  Z.max (1024 * 1024)
    (match sliceSize with
     | None | Some 0 => DEFAULT_SLICE_SIZE
     | Some n => n
     end).

(** [Math.max(1, Math.ceil(fileSize / chunkSize))]. *)
Definition chunkCountOf (fileSize chunkSize : Z) : Z :=
  Z.max 1 ((fileSize + chunkSize - 1) / chunkSize).

Definition sliceMd5Of (fileSize chunkSize : Z) (fileMd5 : string)
    (md5PartHexUpper : list string) : string :=
  if fileSize <=? chunkSize then fileMd5
  else Signing.md5Hex (JsString.join lineFeed md5PartHexUpper).

Definition commitForm (uploadFileId fileMd5 sliceMd5 : string) : list (string * string) :=
  [("uploadFileId", uploadFileId); ("fileMd5", fileMd5); ("sliceMd5", sliceMd5);
   ("lazyCheck", "1"); ("opertype", "3")].

Definition uploadFileSlices (c : Credentials) (rsa : RsaKey) (localFilePath : string)
    (parentFolderId remoteName : string) (sliceSize : option Z) : M UploadInfo :=
  fun w =>
    match disk w !! localFilePath with
    | None =>
        if bool_decide (localFilePath ∈ dirs w) then throw "待上传文件无效" w
        else throw ("ENOENT: no such file or directory, stat '" +:+ localFilePath +:+ "'") w
    | Some content =>
        let fileSize := Z.of_nat (length content) in
        let chunkSize := chunkSizeOf sliceSize in
        let chunkCount := chunkCountOf fileSize chunkSize in
        (initPayload <- uploadRequest c rsa "/person/initMultiUpload"
           [("parentFolderId",
             if String.eqb parentFolderId EmptyString then ROOT_FOLDER_ID else parentFolderId);
            ("fileName",
             encodeURIComponent
               (if String.eqb remoteName EmptyString then pathBasename localFilePath
                else remoteName));
            ("fileSize", JsString.ofZ fileSize);
            ("sliceSize", JsString.ofZ chunkSize);
            ("lazyCheck", "1")] ;;
         let uploadFileId :=
           firstString [andProp (getProp (Some initPayload) "data") "uploadFileId";
                        getProp (Some initPayload) "uploadFileId"] in
         if String.eqb uploadFileId EmptyString then throw "初始化上传缺少 uploadFileId"
         else
           parts <- uploadParts c rsa uploadFileId content chunkSize
                      (Z.to_nat chunkCount) 1 [] [] ;;
           let fileMd5 := MD5.hex (md5Of parts.2) in
           let sliceMd5 := sliceMd5Of fileSize chunkSize fileMd5 parts.1 in
           commitPayload <- uploadRequest c rsa "/person/commitMultiUploadFile"
                              (commitForm uploadFileId fileMd5 sliceMd5) ;;
           let userFileId :=
             firstString [andProp (getProp (Some commitPayload) "file") "userFileId";
                          andProp (getProp (Some commitPayload) "data") "userFileId";
                          getProp (Some commitPayload) "userFileId"] in
           ret {| userFileId := userFileId; uploadedSize := fileSize;
                  chunkCount := chunkCount; uploadFileId := uploadFileId |}) w
    end.

(** *** Signed API calls, RSA key, download *)

(** [new URL(url)] with [searchParams.set] for each pair, printed. *)
Variable urlWithSearchParams : string -> list (string * string) -> string.
(** The message of the [SyntaxError] that [JSON.parse] raises. *)
Variable syntaxErrorMessage : string -> string.

Definition appendQuery (url : string) (query : list (string * string)) : string :=
  urlWithSearchParams url
    (List.filter (fun e => negb (String.eqb e.2 EmptyString)) query).

Definition requestApiSigned (c : Credentials) (endpoint : string)
    (query : list (string * string)) : M Json :=
  t <- now ;;
  let ts := JsString.ofZ t in
  let signParams := spread query [("Timestamp", ts); ("AccessToken", accessToken c)] in
  let signature := Signing.md5Signature localeCompare (asParams signParams) in
  resp <- fetch (ApiSignedRequest (cookie c) (accessToken c) endpoint query ts signature) ;;
  if negb (ok resp) then
    throw ("请求失败 status=" +:+ JsString.ofZ (status resp) +:+ " endpoint=" +:+ endpoint
           +:+ " body=" +:+ shortText (text resp))
  else
    let payload := parseJsonSafe (text resp) in
    if negb (truthy (Some payload)) then
      throw ("响应非 JSON endpoint=" +:+ endpoint +:+ " body=" +:+ shortText (text resp))
    else ret payload.

Definition requestJsonGet (c : Credentials) (url action : string) : M Json :=
  resp <- fetch (JsonGetRequest (cookie c) url) ;;
  if negb (ok resp) then
    throw (action +:+ " 请求失败 status=" +:+ JsString.ofZ (status resp)
           +:+ " body=" +:+ shortText (text resp))
  else
    let payload := parseJsonSafe (text resp) in
    if negb (truthy (Some payload)) || negb (isObjectLike (Some payload))
       || isArray (Some payload) then
      throw (action +:+ " 返回格式异常 body=" +:+ shortText (text resp))
    else ret payload.

Inductive RsaSource : Type := cloud_unsigned | api_signed.

Definition rsaSourceName (s : RsaSource) : string :=
  match s with
  | cloud_unsigned => "cloud_unsigned"
  | api_signed => "api_signed"
  end.

Definition runRsaCandidate (c : Credentials) (s : RsaSource) : M Json :=
  match s with
  | cloud_unsigned =>
      t <- now ;;
      requestJsonGet c
        (appendQuery (WEB_URL +:+ "/api/security/generateRsaKey.action")
           [("noCache", JsString.ofZ t)])
        "generateRsaKey.cloud"
  | api_signed => requestApiSigned c "/security/generateRsaKey.action" []
  end.

Definition failedAttempt (key value message : string) : Json :=
  JObj [(key, JStr value); ("ok", JBool false); ("message", JStr message)].

Fixpoint tryRsaCandidates (c : Credentials) (candidates : list RsaSource)
    (attempts : list Json) : M RsaKey :=
  match candidates with
  | [] => throw ("RSA 公钥响应缺少 pubKey/pkId attempts=" +:+ JSON_stringify (JArr attempts))
  | s :: rest =>
      outcome <- attempt
        (payload <- runRsaCandidate c s ;;
         _ <- lift (ensureSuccessPayload (Some payload)
                      ("generateRsaKey." +:+ rsaSourceName s)) ;;
         ret payload) ;;
      match outcome with
      | inr payload =>
          let pubKey := firstString [getProp (Some payload) "pubKey";
                                     andProp (getProp (Some payload) "data") "pubKey"] in
          let pkId := firstString [getProp (Some payload) "pkId";
                                   andProp (getProp (Some payload) "data") "pkId"] in
          if negb (String.eqb pubKey EmptyString) && negb (String.eqb pkId EmptyString)
          then ret {| pubKey := pubKey; pkId := pkId |}
          else tryRsaCandidates c rest
                 (attempts ++ [failedAttempt "source" (rsaSourceName s)
                                 "响应缺少 pubKey/pkId"])
      | inl err =>
          tryRsaCandidates c rest
            (attempts ++ [failedAttempt "source" (rsaSourceName s)
                            (shortText (errorText err))])
      end
  end.

Definition getRsaKey (c : Credentials) : M RsaKey :=
  tryRsaCandidates c [cloud_unsigned; api_signed] [].

Definition extractDownloadUrl (payload : Json) : string :=
  if negb (truthy (Some payload)) || negb (isObjectLike (Some payload)) then EmptyString
  else
    let direct := firstString [getProp (Some payload) "fileDownloadUrl";
                               getProp (Some payload) "downloadUrl";
                               getProp (Some payload) "url"] in
    if negb (String.eqb direct EmptyString) then direct
    else
      let data :=
        if truthy (getProp (Some payload) "data")
           && isObjectLike (getProp (Some payload) "data")
        then getProp (Some payload) "data" else Some (JObj []) in
      firstString [getProp data "fileDownloadUrl"; getProp data "downloadUrl";
                   getProp data "url"].

Definition downloadUrlCandidates (c : Credentials) (fileId : string) : list (M Json) :=
  [ requestOpenApi c "/api/open/file/getFileDownloadUrl.action" "GET"
      [("fileId", fileId); ("dt", "1")] [];
    requestOpenApi c "/api/open/file/getFileDownloadUrl.action" "GET"
      [("fileId", fileId)] [];
    requestApiSigned c "/open/file/getFileDownloadUrl.action"
      [("fileId", fileId); ("dt", "1")];
    requestApiSigned c "/open/file/getFileDownloadUrl.action" [("fileId", fileId)] ].

Definition failedReason (reason : string) : Json :=
  JObj [("ok", JBool false); ("reason", JStr reason)].

Fixpoint tryDownloadCandidates (candidates : list (M Json)) (attempts : list Json)
    : M string :=
  match candidates with
  | [] => throw ("获取文件下载地址失败 attempts=" +:+ JSON_stringify (JArr attempts))
  | fn :: rest =>
      outcome <- attempt
        (payload <- fn ;;
         _ <- lift (ensureSuccessPayload (Some payload) "getFileDownloadUrl") ;;
         ret payload) ;;
      match outcome with
      | inr payload =>
          let url := extractDownloadUrl payload in
          if negb (String.eqb url EmptyString) then ret url
          else tryDownloadCandidates rest (attempts ++ [failedReason "missing_url"])
      | inl err =>
          tryDownloadCandidates rest
            (attempts ++ [failedReason (shortText (errorText err))])
      end
  end.

Definition getCloudFileDownloadUrl (c : Credentials) (fileId : string) : M string :=
  tryDownloadCandidates (downloadUrlCandidates c fileId) [].

Record DownloadInfo : Type := { local_file_path : string; file_size : Z }.

(** [fs.mkdirSync(dir, { recursive: true })]. *)
Definition mkdirSync (dir : string) : M unit :=
  fun w => (inr tt, {| sent := sent w; disk := disk w; dirs := {[dir]} ∪ dirs w |}).

(** [pipeline(stream, fs.createWriteStream(targetPath))]: the file is
    opened for writing, receives what the stream hands over, and the
    promise rejects with the error of the stream when it ends in one. *)
Definition pipeline (stream : BodyStream) (targetPath : string) : M unit :=
  fun w =>
    let w' := {| sent := sent w;
                 disk := <[targetPath := received stream]> (disk w);
                 dirs := dirs w |} in
    match streamError stream with
    | Some err => (inl err, w')
    | None => (inr tt, w')
    end.

Definition statSize (targetPath : string) : M Z :=
  fun w =>
    match disk w !! targetPath with
    | Some content => (inr (Z.of_nat (length content)), w)
    | None =>
        throw ("ENOENT: no such file or directory, stat '" +:+ targetPath +:+ "'") w
    end.

Definition downloadUrlToFile (c : Credentials) (downloadUrl localFilePath : string)
    : M DownloadInfo :=
  let targetPath := pathResolve (JsString.trim localFilePath) in
  if String.eqb targetPath EmptyString then throw "本地下载路径无效"
  else
    _ <- mkdirSync (pathDirname targetPath) ;;
    resp <- fetch (DownloadRequest (cookie c) downloadUrl) ;;
    match ok resp, body resp with
    | true, Some stream =>
        _ <- pipeline stream targetPath ;;
        size <- statSize targetPath ;;
        ret {| local_file_path := targetPath; file_size := size |}
    | _, _ =>
        throw ("下载失败 status=" +:+ JsString.ofZ (status resp)
               +:+ " body=" +:+ shortText (text resp))
    end.

(** *** The three actions and the process *)

Record CloudFile : Type := {
  file_id : string;
  file_name : string;
  size : Z;
  last_op_time : string
}.

Definition fileOfItem (item : Json) : option CloudFile :=
  if negb (truthy (Some item)) || negb (isObjectLike (Some item)) then None
  else
    let fileId := firstString [getProp (Some item) "id"; getProp (Some item) "fileId";
                               getProp (Some item) "fileID"] in
    let name := firstString [getProp (Some item) "name"; getProp (Some item) "fileName"] in
    if String.eqb fileId EmptyString || String.eqb name EmptyString then None
    else
      let sizeRaw :=
        if truthy (getProp (Some item) "size") then getProp (Some item) "size"
        else if truthy (getProp (Some item) "fileSize") then getProp (Some item) "fileSize"
        else Some (JNum 0) in
      Some {| file_id := fileId; file_name := name;
              size := match Number_ sizeRaw with Some n => Z.max 0 n | None => 0 end;
              last_op_time :=
                firstString [getProp (Some item) "lastOpTime";
                             getProp (Some item) "lastUpdateTime";
                             getProp (Some item) "modifyDate";
                             getProp (Some item) "createDate"] |}.

Fixpoint listFilesPages (c : Credentials) (parentFolderId : string)
    (pagesLeft : nat) (pageNum : Z) (files : list CloudFile) : M (list CloudFile) :=
  match pagesLeft with
  | O => ret files
  | S pagesLeft' =>
      payload <- requestOpenApi c "/api/open/file/listFiles.action" "GET"
                   [("pageSize", "60"); ("pageNum", JsString.ofZ pageNum);
                    ("mediaType", "0"); ("folderId", parentFolderId);
                    ("iconOption", "5"); ("orderBy", "lastOpTime");
                    ("descending", "true")] [] ;;
      _ <- lift (ensureSuccessPayload (Some payload) "listFiles") ;;
      let fileListAO :=
        if truthy (getProp (Some payload) "fileListAO")
           && isObjectLike (getProp (Some payload) "fileListAO")
        then getProp (Some payload) "fileListAO" else Some (JObj []) in
      let fileList :=
        match getProp fileListAO "fileList" with
        | Some (JArr items) => items
        | _ => []
        end in
      let files' := files ++ omap fileOfItem fileList in
      let count := getProp fileListAO "count" in
      let totalCount := Number_ (if truthy count then count else Some (JNum 0)) in
      match fileList, totalCount with
      | [], _ => ret files'
      | _ :: _, Some total =>
          if total <=? 0 then ret files'
          else if pageCountOf total <=? pageNum then ret files'
          else listFilesPages c parentFolderId pagesLeft' (pageNum + 1) files'
      | _ :: _, None => listFilesPages c parentFolderId pagesLeft' (pageNum + 1) files'
      end
  end.

Definition listFiles (c : Credentials) (parentFolderId : string) : M (list CloudFile) :=
  listFilesPages c parentFolderId 30 1 [].

Inductive ActionData : Type :=
| UploadData (folder_id cloud_path remote_name user_file_id : string)
    (file_size chunk_count : Z) (ensure_trace : list TraceEntry)
| VersionsData (exists_ : bool) (folder_id : string) (files : list CloudFile)
    (trace : list TraceEntry) (reason : option string)
| DownloadData (file_id download_url : string) (info : DownloadInfo).

Definition credentialsOf (payload : Value) : Credentials :=
  {| cookie := JsString.trim (stringOr (getProp payload "cookie"));
     sessionKey := JsString.trim (stringOr (getProp payload "session_key"));
     accessToken := JsString.trim (stringOr (getProp payload "access_token")) |}.

Definition normalizeRemoteFolderParts (value : Value) : list string :=
  match value with
  | Some (JArr items) =>
      List.filter (fun s => negb (String.eqb s EmptyString))
        (map (fun item => normalizeFolderName (Some item)) items)
  | _ => []
  end.

Definition folderParts (remoteFolderParts : list string) : list Value :=
  Some (JStr "FreedeckCloudSaves") :: map (fun s => Some (JStr s)) remoteFolderParts.

Definition isFileOnDisk (p : string) : M bool :=
  fun w => (inr (bool_decide (is_Some (disk w !! p))), w).

Definition runUpload (payload : Value) : M ActionData :=
  let c := credentialsOf payload in
  let localFilePath :=
    pathResolve (JsString.trim (stringOr (getProp payload "local_file_path"))) in
  let givenName := JsString.trim (stringOr (getProp payload "remote_name")) in
  let remoteName :=
    if String.eqb givenName EmptyString then pathBasename localFilePath else givenName in
  let remoteFolderParts := normalizeRemoteFolderParts (getProp payload "remote_folder_parts") in
  if String.eqb (cookie c) EmptyString then throw "缺少 cookie"
  else if String.eqb (accessToken c) EmptyString then throw "缺少 access_token"
  else if String.eqb (sessionKey c) EmptyString then throw "缺少 session_key"
  else
    present <- isFileOnDisk localFilePath ;;
    if String.eqb localFilePath EmptyString || negb present then throw "待上传文件不存在"
    else
      folderInfo <- ensureFolderPath c (folderParts remoteFolderParts) ;;
      rsa <- getRsaKey c ;;
      uploadInfo <- uploadFileSlices c rsa localFilePath folderInfo.1 remoteName None ;;
      ret (UploadData folderInfo.1
             ("/FreedeckCloudSaves/" +:+ JsString.join "/" remoteFolderParts
              +:+ (match remoteFolderParts with [] => EmptyString | _ => "/" end)
              +:+ remoteName)
             remoteName (userFileId uploadInfo) (uploadedSize uploadInfo)
             (chunkCount uploadInfo) folderInfo.2).

Definition endsWith (suffix s : string) : bool :=
  let n := String.length s in
  let k := String.length suffix in
  (k <=? n)%nat && String.eqb (substring (n - k) k s) suffix.

Definition runListVersions (payload : Value) : M ActionData :=
  let c := credentialsOf payload in
  let remoteFolderParts := normalizeRemoteFolderParts (getProp payload "remote_folder_parts") in
  if String.eqb (cookie c) EmptyString then throw "缺少 cookie"
  else if String.eqb (sessionKey c) EmptyString then throw "缺少 session_key"
  else
    folderResult <- findFolderPath c (folderParts remoteFolderParts) ;;
    if negb (findOk folderResult) then
      ret (VersionsData false EmptyString [] (findTrace folderResult)
             (Some (default "folder_not_found" (reason folderResult))))
    else
      files <- listFiles c (findFolderId folderResult) ;;
      ret (VersionsData true (findFolderId folderResult)
             (List.filter (fun item => endsWith ".7z" (JsString.toLowerCase (file_name item)))
                files)
             (findTrace folderResult) None).

Definition runDownloadFile (payload : Value) : M ActionData :=
  let c := credentialsOf payload in
  let fileId := JsString.trim (stringOr (getProp payload "file_id")) in
  let localFilePath := JsString.trim (stringOr (getProp payload "local_file_path")) in
  if String.eqb (cookie c) EmptyString then throw "缺少 cookie"
  else if String.eqb (accessToken c) EmptyString then throw "缺少 access_token"
  else if String.eqb (sessionKey c) EmptyString then throw "缺少 session_key"
  else if String.eqb fileId EmptyString then throw "缺少 file_id"
  else if String.eqb localFilePath EmptyString then throw "缺少 local_file_path"
  else
    downloadUrl <- getCloudFileDownloadUrl c fileId ;;
    fileInfo <- downloadUrlToFile c downloadUrl localFilePath ;;
    ret (DownloadData fileId downloadUrl fileInfo).

Record Diagnostics : Type := { error_type : string; message : string }.

(** What [process.stdout.write(JSON.stringify(...))] is given. *)
Inductive Emitted : Type :=
| EmitOk (data : ActionData)
| EmitFailure (error : string) (diagnostics : Diagnostics).

Record Process : Type := { stdout : list Emitted; exitCode : Z }.

Definition readStdinJson (stdin : string) : M Json :=
  match JSON_parse stdin with
  | Some input => ret input
  | None =>
      fun w => (inl {| exnName := "SyntaxError"; exnMessage := syntaxErrorMessage stdin |}, w)
  end.

Definition dispatch (stdin : string) : M ActionData :=
  input <- readStdinJson stdin ;;
  let payload := if truthy (Some input) then Some input else Some (JObj []) in
  let action :=
    JsString.toLowerCase
      (JsString.trim (if truthy (getProp payload "action")
                      then String_ (getProp payload "action") else "upload")) in
  if String.eqb action "upload" then runUpload payload
  else if String.eqb action "list_versions" then runListVersions payload
  else if String.eqb action "download_file" then runDownloadFile payload
  else throw ("不支持的 action: " +:+ action).

(** The top-level [async] function of the script, run to completion. *)
Definition main (stdin : string) (w : World) : Process * World :=
  match dispatch stdin w with
  | (inr data, w') => ({| stdout := [EmitOk data]; exitCode := 0 |}, w')
  | (inl err, w') =>
      let diagnostics :=
        {| error_type := if String.eqb (exnName err) EmptyString then "Error" else exnName err;
           message := shortText (if String.eqb (exnMessage err) EmptyString
                                 then exnName err else exnMessage err) |} in
      ({| stdout := [EmitFailure (message diagnostics) diagnostics]; exitCode := 1 |}, w')
  end.

(** *** Facts: result codes and folder names *)

Definition presentOf (v : Value) : option Json :=
  if nullish v then None else v.

Lemma presentOf_coalesce a b :
  presentOf (coalesce a b) = match presentOf a with Some j => Some j | None => presentOf b end.
Proof. unfold coalesce, presentOf. by destruct a as [[]|]. Qed.

Lemma firstPresentCode_spec payload :
  firstPresentCode payload
  = presentOf (coalesce (coalesce (coalesce (getProp payload "res_code")
                                     (getProp payload "resCode"))
                           (getProp payload "code")) (getProp payload "errorCode")).
Proof.
  rewrite !presentOf_coalesce. unfold firstPresentCode, presentOf. simpl.
  destruct (getProp payload "res_code") as [[]|], (getProp payload "resCode") as [[]|],
    (getProp payload "code") as [[]|], (getProp payload "errorCode") as [[]|]; reflexivity.
Qed.

(** The text of the result code: empty when no field is present. *)
Definition resultCodeText (payload : Value) : string :=
  JsString.trim (match firstPresentCode payload with
                 | Some j => toStr j
                 | None => EmptyString
                 end).

Lemma ensureSuccessPayload_code fields action :
  ensureSuccessPayload (Some (JObj fields)) action
  = let code := resultCodeText (Some (JObj fields)) in
    if negb (String.eqb code EmptyString)
       && negb (bool_decide (code ∈ ["0"; "SUCCESS"; "success"]))
    then inl (Error (action +:+ " 失败 code=" +:+ code
                     +:+ (let msg := firstString
                            [lookupField "msg" fields; lookupField "message" fields;
                             lookupField "res_message" fields;
                             lookupField "resMessage" fields;
                             lookupField "errorMsg" fields;
                             lookupField "errorMessage" fields;
                             lookupField "desc" fields;
                             lookupField "description" fields] in
                          if String.eqb msg EmptyString then EmptyString
                          else " msg=" +:+ msg)))
    else inr tt.
Proof.
  unfold ensureSuccessPayload, resultCodeText. rewrite firstPresentCode_spec.
  cbn [truthy isObjectLike isArray negb orb].
  set (codeRaw := coalesce _ _). unfold presentOf.
  destruct (nullish codeRaw) eqn:Hn; [reflexivity|].
  destruct codeRaw as [j|]; [reflexivity|discriminate].
Qed.

Lemma trimStart_blank s :
  JsString.trimStart s = EmptyString ->
  Forall (fun ch => JsString.isWhiteSpace ch = true) (list_ascii_of_string s).
Proof.
  induction s as [|ch s IH]; simpl; [constructor|].
  destruct (JsString.isWhiteSpace ch) eqn:Hc; [|discriminate].
  intros H. constructor; auto.
Qed.

Lemma trimEnd_empty s :
  JsString.trimEnd s = EmptyString ->
  Forall (fun ch => JsString.isWhiteSpace ch = true) (list_ascii_of_string s).
Proof.
  induction s as [|ch s IH]; simpl; [constructor|].
  destruct (JsString.trimEnd s) eqn:Hs; [|discriminate].
  destruct (JsString.isWhiteSpace ch) eqn:Hc; [|discriminate].
  intros _. constructor; auto.
Qed.

Lemma trimStart_not_blank s ch rest :
  JsString.trimStart s = String ch rest -> JsString.isWhiteSpace ch = false.
Proof.
  induction s as [|x s IH]; simpl; [discriminate|].
  destruct (JsString.isWhiteSpace x) eqn:Hx; [auto|].
  intros H. by inversion H; subst.
Qed.

Lemma trim_blank_iff s :
  JsString.trim s = EmptyString
  <-> Forall (fun ch => JsString.isWhiteSpace ch = true) (list_ascii_of_string s).
Proof.
  unfold JsString.trim. split.
  - intros H. destruct (JsString.trimStart s) as [|ch rest] eqn:Hs.
    + by apply trimStart_blank.
    + apply trimStart_not_blank in Hs. apply trimEnd_empty in H.
      inversion H; subst. congruence.
  - induction s as [|ch s IH]; simpl; [done|].
    intros H. inversion H as [|? ? Hc Hrest]; subst. rewrite Hc. auto.
Qed.

Lemma normalizeSeparators_empty s :
  normalizeSeparators s = EmptyString <-> s = EmptyString.
Proof.
  split; [|by intros ->].
  induction s as [|ch s IH]; [done|]. simpl.
  destruct ((N_of_ascii ch =? 47)%N || (N_of_ascii ch =? 92)%N); [|discriminate].
  destruct s as [|ch' s']; [discriminate|].
  destruct ((N_of_ascii ch' =? 47)%N || (N_of_ascii ch' =? 92)%N); [|discriminate].
  intros H. apply IH in H. discriminate.
Qed.

Lemma normalizeFolderName_empty_iff value :
  normalizeFolderName value = EmptyString
  <-> JsString.trim (stringOr value) = EmptyString.
Proof. unfold normalizeFolderName. apply normalizeSeparators_empty. Qed.

(** The normalized name holds no path separator. *)
Lemma normalizeSeparators_no_separator s :
  Forall (fun ch => (N_of_ascii ch =? 47)%N || (N_of_ascii ch =? 92)%N = false)
    (list_ascii_of_string (normalizeSeparators s)).
Proof.
  induction s as [|ch s IH]; [constructor|]. simpl.
  destruct ((N_of_ascii ch =? 47)%N || (N_of_ascii ch =? 92)%N) eqn:Hc.
  - destruct s as [|ch' s']; [by repeat constructor|].
    destruct ((N_of_ascii ch' =? 47)%N || (N_of_ascii ch' =? 92)%N) eqn:Hc'; [done|].
    by constructor.
  - by constructor.
Qed.

Lemma ensureFolderLoop_skips c parts parentFolderId trace w :
  Forall (fun part => normalizeFolderName part = EmptyString) parts ->
  ensureFolderLoop c parts parentFolderId trace w = (inr (parentFolderId, trace), w).
Proof.
  induction 1 as [|part parts Hp _ IH]; simpl; [done|]. by rewrite Hp.
Qed.

Lemma findFolderLoop_skips c parts parentFolderId trace w :
  Forall (fun part => normalizeFolderName part = EmptyString) parts ->
  findFolderLoop c parts parentFolderId trace w
  = (inr {| findOk := true; findFolderId := parentFolderId; findTrace := trace;
            reason := None; missing_name := None |}, w).
Proof.
  induction 1 as [|part parts Hp _ IH]; simpl; [done|]. by rewrite Hp.
Qed.

(** C9: for a JSON object, [ensureSuccessPayload] looks at the first
    of [res_code], [resCode], [code], [errorCode] that is present
    (neither undefined nor null).  Without one, or when its text trims
    to the empty string, the payload is a success; an error is raised
    exactly when the trimmed text is not empty and is none of [0],
    [SUCCESS], [success].  An object with none of the four fields is
    therefore always a success. *)
Theorem ensureSuccessPayload_result_code (fields : list (string * Json)) (action : string) :
  let payload := Some (JObj fields) in
  let code := resultCodeText payload in
  (firstPresentCode payload = None -> ensureSuccessPayload payload action = inr tt)
  ∧ (code = EmptyString -> ensureSuccessPayload payload action = inr tt)
  ∧ (code ∈ ["0"; "SUCCESS"; "success"] -> ensureSuccessPayload payload action = inr tt)
  ∧ (forall err, ensureSuccessPayload payload action = inl err ->
       firstPresentCode payload <> None
       ∧ code <> EmptyString ∧ code ∉ ["0"; "SUCCESS"; "success"])
  ∧ (code <> EmptyString -> code ∉ ["0"; "SUCCESS"; "success"] ->
     exists err, ensureSuccessPayload payload action = inl err)
  ∧ (Forall (fun k => lookupField k fields = None)
       ["res_code"; "resCode"; "code"; "errorCode"] ->
     ensureSuccessPayload payload action = inr tt).
Proof.
  intros payload code. unfold payload. rewrite ensureSuccessPayload_code.
  fold payload. fold code. cbv zeta.
  assert (firstPresentCode payload = None -> code = EmptyString) as Hnone.
  { intros H. unfold code, resultCodeText. by rewrite H. }
  assert (Forall (fun k => lookupField k fields = None)
            ["res_code"; "resCode"; "code"; "errorCode"] ->
          code = EmptyString) as Habsent.
  { rewrite !Forall_cons. intros (H1 & H2 & H3 & H4 & _). apply Hnone.
    unfold firstPresentCode, payload, getProp. simpl. by rewrite H1, H2, H3, H4. }
  destruct (String.eqb code EmptyString) eqn:Hempty.
  - apply String.eqb_eq in Hempty. cbn [negb andb]. repeat split; done.
  - apply String.eqb_neq in Hempty. cbn [negb andb].
    case_bool_decide as Hin; cbn [negb]; repeat split; try done;
      try (intros H; by apply Hnone in H);
      try (intros H; by apply Habsent in H).
    + intros Hfp. by apply Hnone in Hfp.
    + intros _ _. by eexists.
Qed.

(** *** Facts: folder creation and path resolution *)

Definition requestShape (r : Request)
    : option (string * string * list (string * string) * list (string * string)) :=
  match r with
  | OpenApiRequest _ _ endpoint method query form _ _ => Some (endpoint, method, query, form)
  | _ => None
  end.

Definition candidateShape (item : Candidate)
    : option (string * string * list (string * string) * list (string * string)) :=
  let method := JsString.toUpperCase (candMethod item) in
  Some (candEndpoint item, method, [],
        if String.eqb method "GET" then [] else candForm item).

Lemma requestOpenApi_sent c endpoint method query form w :
  exists r,
    sent (requestOpenApi c endpoint method query form w).2 = sent w ++ [r]
    ∧ requestShape r
      = Some (endpoint, JsString.toUpperCase method, query,
              if String.eqb (JsString.toUpperCase method) "GET" then [] else form)
    ∧ disk (requestOpenApi c endpoint method query form w).2 = disk w
    ∧ dirs (requestOpenApi c endpoint method query form w).2 = dirs w.
Proof.
  unfold requestOpenApi, bind, now, fetch, throw, ret. cbv beta zeta iota.
  eexists. split.
  { destruct (server _ _) as [m|resp]; [reflexivity|]. cbv beta zeta iota.
    destruct (negb (ok resp)); [reflexivity|].
    destruct (negb (truthy (Some (parseJsonSafe (text resp))))); reflexivity. }
  split; [reflexivity|].
  destruct (server _ _) as [m|resp]; [done|]. cbv beta zeta iota.
  destruct (negb (ok resp)); [done|].
  by destruct (negb (truthy (Some (parseJsonSafe (text resp))))).
Qed.

Lemma folderOfItem_id item f : folderOfItem item = Some f -> id f <> EmptyString.
Proof.
  unfold folderOfItem. destruct (_ || _); [done|].
  destruct (String.eqb (firstString _) EmptyString) eqn:Hid; [done|].
  destruct (String.eqb (firstString [getProp (Some item) "name"; _; _]) EmptyString);
    [done|].
  simpl. intros [= <-]. simpl. by apply String.eqb_neq.
Qed.













(** A segment made only of separators is not skipped: it becomes the
    folder name [_]. *)
Lemma normalizeSeparators_only_separators s :
  s <> EmptyString ->
  Forall (fun ch => (N_of_ascii ch =? 47)%N || (N_of_ascii ch =? 92)%N = true)
    (list_ascii_of_string s) ->
  normalizeSeparators s = "_".
Proof.
  induction s as [|ch s IH]; [done|]. intros _ Hall.
  inversion Hall as [|? ? Hch Hrest]; subst. cbn [normalizeSeparators]. rewrite Hch.
  destruct s as [|ch' s']; [done|]. inversion Hrest as [|? ? Hch' _]; subst.
  rewrite Hch'. by apply IH.
Qed.

(** *** Facts: the part loop *)

(** Part numbers [start, start + 1, ...], [n] of them. *)
Fixpoint partNumbersFrom (start : Z) (n : nat) : list Z :=
  match n with
  | O => []
  | S n' => start :: partNumbersFrom (start + 1) n'
  end.

Definition partNumbers (chunkCount : Z) : list Z :=
  partNumbersFrom 1 (Z.to_nat chunkCount).

(** [n] is the ceiling of [fileSize / chunkSize]. *)
Definition isCeiling (n fileSize chunkSize : Z) : Prop :=
  (n - 1) * chunkSize < fileSize <= n * chunkSize.

Definition putContent (r : Request) : option (list Byte.byte) :=
  match r with
  | PutRequest _ _ content => Some content
  | _ => None
  end.

Definition uploadForm (uri : string) (r : Request) : option (list (string * string)) :=
  match r with
  | UploadRequest _ _ uri' form _ => if String.eqb uri uri' then Some form else None
  | _ => None
  end.

Lemma chunkSizeOf_floor sliceSize : 1024 * 1024 <= chunkSizeOf sliceSize.
Proof. unfold chunkSizeOf. lia. Qed.

Lemma chunkCountOf_ceiling fileSize chunkSize :
  0 < fileSize -> 0 < chunkSize ->
  isCeiling (chunkCountOf fileSize chunkSize) fileSize chunkSize.
Proof.
  intros HS HC. unfold isCeiling, chunkCountOf.
  pose proof (Z.div_mod (fileSize + chunkSize - 1) chunkSize) as Hdm.
  pose proof (Z.mod_pos_bound (fileSize + chunkSize - 1) chunkSize HC) as Hm.
  assert (1 <= (fileSize + chunkSize - 1) / chunkSize) as Hq
    by (apply Z.div_le_lower_bound; lia).
  rewrite Z.max_r by lia. nia.
Qed.

Lemma chunkCountOf_covers fileSize chunkSize :
  0 <= fileSize -> 0 < chunkSize ->
  1 <= chunkCountOf fileSize chunkSize
  ∧ (chunkCountOf fileSize chunkSize - 1) * chunkSize <= fileSize
    <= chunkCountOf fileSize chunkSize * chunkSize.
Proof.
  intros HS HC. destruct (Z.eq_dec fileSize 0) as [->|Hne].
  - unfold chunkCountOf. rewrite Z.div_small by lia. rewrite Z.max_l by lia. lia.
  - pose proof (chunkCountOf_ceiling fileSize chunkSize) as Hc. unfold isCeiling in Hc.
    unfold chunkCountOf in *. lia.
Qed.

Lemma partNumbersFrom_length start n : length (partNumbersFrom start n) = n.
Proof. revert start. induction n as [|n IH]; intros start; simpl; [done|]. by rewrite IH. Qed.

Lemma partNumbersFrom_lookup start n k :
  (k < n)%nat -> partNumbersFrom start n !! k = Some (start + Z.of_nat k).
Proof.
  revert start k. induction n as [|n IH]; intros start k Hk; [lia|].
  destruct k as [|k]; simpl.
  - f_equal. lia.
  - rewrite IH by lia. f_equal. lia.
Qed.

Lemma partNumbersFrom_elem start n i :
  i ∈ partNumbersFrom start n <-> start <= i < start + Z.of_nat n.
Proof.
  revert start. induction n as [|n IH]; intros start; simpl.
  - rewrite elem_of_nil. lia.
  - rewrite elem_of_cons, IH. lia.
Qed.

Lemma partBytes_length (content : list Byte.byte) chunkSize i :
  0 < chunkSize -> 1 <= i ->
  (i - 1) * chunkSize <= Z.of_nat (length content) ->
  Z.of_nat (length (partBytes content chunkSize i))
  = partSize (Z.of_nat (length content)) chunkSize i.
Proof.
  intros HC Hi Hoff. unfold partBytes, readSync, partSize, partOffset.
  assert (0 <= (i - 1) * chunkSize) by nia.
  rewrite length_take, length_drop. lia.
Qed.

(** The parts from number [k + 1] on, glued together, are the file
    from offset [k * chunkSize] on. *)
Lemma partBytes_concat (content : list Byte.byte) chunkSize n k :
  0 < chunkSize -> 0 <= k ->
  Z.of_nat (length content) <= (k + Z.of_nat n) * chunkSize ->
  concat (map (partBytes content chunkSize) (partNumbersFrom (k + 1) n))
  = drop (Z.to_nat (k * chunkSize)) content.
Proof.
  intros HC. revert k. induction n as [|n IH]; intros k Hk Hlen.
  - simpl. symmetry. apply drop_ge. lia.
  - cbn [partNumbersFrom map concat]. rewrite IH by lia.
    unfold partBytes, readSync, partSize, partOffset.
    replace (k + 1 - 1) with k by lia.
    assert (0 <= k * chunkSize) as Hpos by nia.
    assert ((k + 1) * chunkSize = k * chunkSize + chunkSize) as Hnext by ring.
    rewrite Hnext. clear Hnext.
    set (offset := k * chunkSize) in *.
    destruct (Z_le_gt_dec (Z.of_nat (length content)) offset) as [Hpast|Hin].
    + rewrite !drop_ge by lia. by rewrite take_nil.
    + destruct (Z_le_gt_dec chunkSize (Z.of_nat (length content) - offset))
        as [Hfull|Hlast].
      * rewrite Z.min_l by lia.
        transitivity (take (Z.to_nat chunkSize) (drop (Z.to_nat offset) content)
                      ++ drop (Z.to_nat chunkSize) (drop (Z.to_nat offset) content));
          [|apply take_drop].
        f_equal. rewrite drop_drop. f_equal. lia.
      * rewrite Z.min_r by lia.
        rewrite (drop_ge content (Z.to_nat (offset + chunkSize))) by lia.
        rewrite app_nil_r. apply take_ge. rewrite length_drop. lia.
Qed.

Lemma partBytes_cover (content : list Byte.byte) chunkSize :
  0 < chunkSize ->
  concat (map (partBytes content chunkSize)
            (partNumbers (chunkCountOf (Z.of_nat (length content)) chunkSize)))
  = content.
Proof.
  intros HC. unfold partNumbers.
  pose proof (chunkCountOf_covers (Z.of_nat (length content)) chunkSize) as Hc.
  rewrite (partBytes_concat content chunkSize _ 0) by lia. done.
Qed.

Definition commitUri : string := "/person/commitMultiUploadFile".

Definition afterSending (w : World) (new : list Request) : World :=
  {| sent := sent w ++ new; disk := disk w; dirs := dirs w |}.

Lemma afterSending_app w new1 new2 :
  afterSending (afterSending w new1) new2 = afterSending w (new1 ++ new2).
Proof. unfold afterSending. cbn [sent disk dirs]. by rewrite app_assoc. Qed.

Lemma afterSending_nil w : afterSending w [] = w.
Proof. unfold afterSending. rewrite app_nil_r. by destruct w. Qed.

Lemma fetch_world r w : (fetch r w).2 = afterSending w [r].
Proof. unfold fetch. by destruct (server (sent w) r). Qed.

Lemma uploadRequest_world c rsa uri form w :
  (uploadRequest c rsa uri form w).2
  = afterSending w [UploadRequest (cookie c) (sessionKey c) uri form (pkId rsa)].
Proof.
  unfold uploadRequest, bind.
  pose proof (fetch_world (UploadRequest (cookie c) (sessionKey c) uri form (pkId rsa)) w)
    as Hw.
  destruct (fetch _ w) as [[e|resp] w1]; cbn [snd] in Hw; subst w1; [done|].
  unfold throw, ret. by repeat case_match.
Qed.

Definition notCommit (r : Request) : Prop := uploadForm commitUri r = None.

Lemma uploadPart_run c rsa uploadFileId content chunkSize i w res w' :
  uploadPart c rsa uploadFileId content chunkSize i w = (res, w') ->
  exists new,
    w' = afterSending w new
    ∧ Forall notCommit new
    ∧ (res = inr tt ->
       exists url headers,
         new = [UploadRequest (cookie c) (sessionKey c) "/person/getMultiUploadUrls"
                  (urlsForm uploadFileId (partBytes content chunkSize i) i) (pkId rsa);
                PutRequest url headers (partBytes content chunkSize i)]).
Proof.
  unfold uploadPart.
  set (first := UploadRequest (cookie c) (sessionKey c) "/person/getMultiUploadUrls"
                  (urlsForm uploadFileId (partBytes content chunkSize i) i) (pkId rsa)).
  assert (Forall notCommit [first]) as Hfirst by (by repeat constructor).
  unfold bind at 1.
  pose proof (uploadRequest_world c rsa "/person/getMultiUploadUrls"
                (urlsForm uploadFileId (partBytes content chunkSize i) i) w) as Hw.
  destruct (uploadRequest _ _ _ _ w) as [[e|urlPayload] w1]; cbn [snd] in Hw; subst w1.
  { intros [= <- <-]. by exists [first]. }
  cbv zeta. destruct (String.eqb _ EmptyString).
  { unfold throw. intros [= <- <-]. by exists [first]. }
  unfold bind at 1, lift.
  destruct (parseRequestHeaderPairs _) as [e|putHeaders].
  { intros [= <- <-]. by exists [first]. }
  unfold bind.
  match goal with
  | |- context [fetch ?r ?w0] => pose proof (fetch_world r w0) as Hf;
        destruct (fetch r w0) as [[e|putResp] w2]; cbn [snd] in Hf; subst w2;
        rewrite afterSending_app;
        assert (Forall notCommit ([first] ++ [r])) as Hboth by (by repeat constructor)
  end.
  - intros [= <- <-]. by eexists.
  - unfold throw, ret. destruct (negb (ok putResp)); intros [= <- <-].
    + by eexists.
    + eexists. split; [done|]. split; [done|]. intros _. by eexists _, _.
Qed.

Lemma uploadParts_run c rsa uploadFileId content chunkSize remaining i hexes hashed
    w res w' :
  uploadParts c rsa uploadFileId content chunkSize remaining i hexes hashed w = (res, w') ->
  exists new,
    w' = afterSending w new
    ∧ Forall notCommit new
    ∧ (forall state, res = inr state ->
         state.1 = hexes ++ map (partHexUpper content chunkSize)
                              (partNumbersFrom i remaining)
         ∧ state.2 = hashed ++ concat (map (partBytes content chunkSize)
                                         (partNumbersFrom i remaining))
         ∧ omap putContent new
           = map (partBytes content chunkSize) (partNumbersFrom i remaining)
         ∧ omap (uploadForm "/person/getMultiUploadUrls") new
           = map (fun k => urlsForm uploadFileId (partBytes content chunkSize k) k)
               (partNumbersFrom i remaining)).
Proof.
  revert i hexes hashed w.
  induction remaining as [|n IH]; intros i hexes hashed w.
  - cbn [uploadParts partNumbersFrom map concat]. unfold ret. intros [= <- <-].
    exists []. rewrite afterSending_nil. split; [done|]. split; [constructor|].
    intros state [= <-]. cbn [fst snd]. by rewrite !app_nil_r.
  - cbn [uploadParts]. unfold bind at 1.
    destruct (uploadPart c rsa uploadFileId content chunkSize i w) as [[e|[]] w1] eqn:Hpart;
      apply uploadPart_run in Hpart as (new1 & -> & Hnc1 & Hok1).
    + intros [= <- <-]. exists new1. split; [done|]. split; [done|]. by intros state [=].
    + intros Hrest. apply IH in Hrest as (new2 & -> & Hnc2 & Hok2).
      exists (new1 ++ new2). rewrite afterSending_app. split; [done|].
      split; [by apply Forall_app|].
      intros state Hstate. destruct (Hok2 state Hstate) as (Hh & Hb & Hp & Hu).
      destruct (Hok1 eq_refl) as (url & headers & ->).
      cbn [partNumbersFrom map concat]. rewrite Hh, Hb, <- !app_assoc.
      rewrite !omap_app, Hp, Hu. done.
Qed.

(** *** Facts: the upload (claims C1 and C2) *)

Fixpoint formValue (k : string) (form : list (string * string)) : option string :=
  match form with
  | [] => None
  | (k', v) :: rest => if String.eqb k k' then Some v else formValue k rest
  end.

(** The slice digest as the specification words it. *)
Definition sliceMd5Spec (content : list Byte.byte) (chunkSize : Z) : string :=
  let fileSize := Z.of_nat (length content) in
  if fileSize <=? chunkSize then MD5.hex (md5Of content)
  else Signing.md5Hex
         (JsString.join lineFeed
            (map (fun i => JsString.toUpperCase
                             (MD5.hex (md5Of (partBytes content chunkSize i))))
               (partNumbers (chunkCountOf fileSize chunkSize)))).

Definition commitRequest (c : Credentials) (rsa : RsaKey) (uploadFileId : string)
    (content : list Byte.byte) (chunkSize : Z) : Request :=
  UploadRequest (cookie c) (sessionKey c) commitUri
    (commitForm uploadFileId (MD5.hex (md5Of content)) (sliceMd5Spec content chunkSize))
    (pkId rsa).

Lemma uploadFileSlices_run c rsa localFilePath parentFolderId remoteName sliceSize
    w content res w' :
  disk w !! localFilePath = Some content ->
  uploadFileSlices c rsa localFilePath parentFolderId remoteName sliceSize w = (res, w') ->
  let chunkSize := chunkSizeOf sliceSize in
  let fileSize := Z.of_nat (length content) in
  let numbers := partNumbers (chunkCountOf fileSize chunkSize) in
  exists new,
    w' = afterSending w new
    ∧ Forall (fun r => notCommit r
                ∨ exists uploadFileId, r = commitRequest c rsa uploadFileId content chunkSize)
        new
    ∧ (forall info, res = inr info ->
         chunkCount info = chunkCountOf fileSize chunkSize
         ∧ uploadedSize info = fileSize
         ∧ omap putContent new = map (partBytes content chunkSize) numbers
         ∧ omap (uploadForm "/person/getMultiUploadUrls") new
           = map (fun k => urlsForm (uploadFileId info) (partBytes content chunkSize k) k)
               numbers
         ∧ exists earlier,
             new = earlier
                   ++ [commitRequest c rsa (uploadFileId info) content chunkSize]).
Proof.
  intros Hdisk. unfold uploadFileSlices. rewrite Hdisk. cbv zeta.
  set (chunkSize := chunkSizeOf sliceSize).
  set (fileSize := Z.of_nat (length content)).
  match goal with
  | |- context [uploadRequest c rsa "/person/initMultiUpload" ?form] =>
      set (initForm := form)
  end.
  set (init := UploadRequest (cookie c) (sessionKey c) "/person/initMultiUpload"
                 initForm (pkId rsa)).
  assert (notCommit init) as Hinit by reflexivity.
  unfold bind at 1.
  pose proof (uploadRequest_world c rsa "/person/initMultiUpload" initForm w) as Hw0.
  destruct (uploadRequest c rsa "/person/initMultiUpload" initForm w)
    as [[e|initPayload] w0]; cbn [snd] in Hw0; subst w0.
  { intros [= <- <-]. exists [init]. split; [done|]. split; [|done].
    constructor; [by left|constructor]. }
  set (uploadFileId := firstString _).
  destruct (String.eqb uploadFileId EmptyString).
  { unfold throw. intros [= <- <-]. exists [init]. split; [done|]. split; [|done].
    constructor; [by left|constructor]. }
  unfold bind at 1.
  destruct (uploadParts c rsa uploadFileId content chunkSize _ 1 [] [] _)
    as [[e|state] w1] eqn:Hparts;
    apply uploadParts_run in Hparts as (new1 & -> & Hnc1 & Hok1);
    rewrite afterSending_app.
  { intros [= <- <-]. exists ([init] ++ new1). split; [done|]. split; [|done].
    apply Forall_app. split; [constructor; [by left|constructor]|].
    eapply Forall_impl; [exact Hnc1|]. intros r Hr. by left. }
  destruct (Hok1 state eq_refl) as (Hhex & Hbytes & Hput & Hurls).
  rewrite app_nil_l in Hhex, Hbytes.
  assert (0 < chunkSize) as HC by (pose proof (chunkSizeOf_floor sliceSize); lia).
  assert (state.2 = content) as Hall.
  { rewrite Hbytes. by apply partBytes_cover. }
  assert (sliceMd5Of fileSize chunkSize (MD5.hex (md5Of state.2)) state.1
          = sliceMd5Spec content chunkSize) as Hslice.
  { unfold sliceMd5Of, sliceMd5Spec. fold fileSize. by rewrite Hall, Hhex. }
  rewrite Hslice, Hall. clear Hslice.
  change "/person/commitMultiUploadFile" with commitUri.
  unfold bind at 1.
  pose proof (uploadRequest_world c rsa commitUri
                (commitForm uploadFileId (MD5.hex (md5Of content))
                   (sliceMd5Spec content chunkSize))
                (afterSending w ([init] ++ new1))) as Hw2.
  fold (commitRequest c rsa uploadFileId content chunkSize) in Hw2.
  assert (Forall (fun r => notCommit r
            ∨ exists uploadFileId, r = commitRequest c rsa uploadFileId content chunkSize)
            (([init] ++ new1) ++ [commitRequest c rsa uploadFileId content chunkSize]))
    as Hall3.
  { apply Forall_app. split; [apply Forall_app; split|].
    - constructor; [by left|constructor].
    - eapply Forall_impl; [exact Hnc1|]. intros r Hr. by left.
    - constructor; [right; by exists uploadFileId|constructor]. }
  destruct (uploadRequest c rsa commitUri _ _) as [[e|commitPayload] w2];
    cbn [snd] in Hw2; subst w2; rewrite afterSending_app.
  - intros [= <- <-]. eexists. split; [reflexivity|]. split; [exact Hall3|]. done.
  - unfold ret. intros [= <- <-]. eexists. split; [reflexivity|].
    split; [exact Hall3|].
    intros info [= <-]. cbn [chunkCount uploadedSize Cloud.uploadFileId].
    split; [done|]. split; [done|].
    change (init :: new1 ++ [commitRequest c rsa uploadFileId content chunkSize])
      with ([init] ++ new1 ++ [commitRequest c rsa uploadFileId content chunkSize]).
    split; [by rewrite !omap_app, Hput, app_nil_r|].
    split; [by rewrite !omap_app, Hurls, app_nil_r|].
    exists ([init] ++ new1). by rewrite <- app_assoc.
Qed.

(** C1: whatever the server answers, every commit request an upload
    sends carries the whole-file MD5 as [fileMd5] and, as [sliceMd5],
    that same digest when the file fits in one chunk and otherwise the
    MD5 of the upper-case hexadecimal part digests, in part order 1..N,
    joined with a line feed; an upload that succeeds has sent such a
    commit as its last request. *)
Theorem uploadFileSlices_commit_sliceMd5
    c rsa localFilePath parentFolderId remoteName sliceSize w content res w' :
  disk w !! localFilePath = Some content ->
  uploadFileSlices c rsa localFilePath parentFolderId remoteName sliceSize w = (res, w') ->
  let chunkSize := chunkSizeOf sliceSize in
  let fileSize := Z.of_nat (length content) in
  let fileMd5 := MD5.hex (md5Of content) in
  let sliceMd5 :=
    if fileSize <=? chunkSize then fileMd5
    else Signing.md5Hex
           (JsString.join lineFeed
              (map (fun i => JsString.toUpperCase
                               (MD5.hex (md5Of (partBytes content chunkSize i))))
                 (partNumbers (chunkCountOf fileSize chunkSize)))) in
  exists new,
    sent w' = sent w ++ new
    ∧ (forall r form, r ∈ new -> uploadForm commitUri r = Some form ->
         formValue "fileMd5" form = Some fileMd5
         ∧ formValue "sliceMd5" form = Some sliceMd5)
    ∧ (forall info, res = inr info ->
         exists earlier form,
           new = earlier ++ [UploadRequest (cookie c) (sessionKey c) commitUri form
                               (pkId rsa)]
           ∧ formValue "sliceMd5" form = Some sliceMd5).
Proof.
  intros Hdisk Hrun chunkSize fileSize fileMd5 sliceMd5.
  destruct (uploadFileSlices_run _ _ _ _ _ _ _ _ _ _ Hdisk Hrun) as (new & -> & Hall & Hok).
  exists new. split; [done|]. split.
  - intros r form Hr Hform. rewrite Forall_forall in Hall.
    destruct (Hall r Hr) as [Hnot|[uploadFileId ->]].
    + unfold notCommit in Hnot. congruence.
    + cbn in Hform. injection Hform as <-. done.
  - intros info Hinfo. destruct (Hok info Hinfo) as (_ & _ & _ & _ & earlier & ->).
    by eexists earlier, _.
Qed.

(** C2 (amended): an upload that succeeds has sent
    [max 1 (ceil (S / C))] parts, which is [ceil (S / C)] for every
    non-empty file and one empty part for an empty file; the parts are
    numbered 1, 2, ..., in order; part [i] is the [min C (S - (i-1)*C)]
    bytes at offset [(i-1)*C]; each part ends where the next begins,
    the last one ends at [S], and the parts glued together are the
    file. *)
Theorem uploadFileSlices_parts_cover_file
    c rsa localFilePath parentFolderId remoteName sliceSize w info w' :
  uploadFileSlices c rsa localFilePath parentFolderId remoteName sliceSize w
  = (inr info, w') ->
  exists content new,
    disk w !! localFilePath = Some content
    ∧ sent w' = sent w ++ new
    ∧ let C := chunkSizeOf sliceSize in
      let S := Z.of_nat (length content) in
      let N := chunkCountOf S C in
      chunkCount info = N
      ∧ (0 < S -> isCeiling N S C)
      ∧ (S = 0 -> N = 1)
      ∧ length (partNumbers N) = Z.to_nat N
      ∧ (forall k, (k < Z.to_nat N)%nat -> partNumbers N !! k = Some (1 + Z.of_nat k))
      ∧ omap putContent new = map (partBytes content C) (partNumbers N)
      ∧ omap (uploadForm "/person/getMultiUploadUrls") new
        = map (fun i => urlsForm (uploadFileId info) (partBytes content C i) i)
            (partNumbers N)
      ∧ Forall (fun i =>
                  partBytes content C i
                  = take (Z.to_nat (Z.min C (S - (i - 1) * C)))
                      (drop (Z.to_nat ((i - 1) * C)) content)
                  ∧ Z.of_nat (length (partBytes content C i)) = Z.min C (S - (i - 1) * C)
                  ∧ (i - 1) * C + Z.of_nat (length (partBytes content C i))
                    = (if i <? N then i * C else S))
          (partNumbers N)
      ∧ concat (map (partBytes content C) (partNumbers N)) = content.
Proof.
  intros Hrun. destruct (disk w !! localFilePath) as [content|] eqn:Hdisk.
  2:{ exfalso. unfold uploadFileSlices in Hrun. rewrite Hdisk in Hrun.
      unfold throw in Hrun. by destruct (bool_decide _). }
  destruct (uploadFileSlices_run _ _ _ _ _ _ _ _ _ _ Hdisk Hrun)
    as (new & -> & _ & Hok).
  destruct (Hok info eq_refl) as (Hcount & _ & Hput & Hurls & _).
  exists content, new. split; [done|]. split; [done|].
  cbv zeta.
  set (C := chunkSizeOf sliceSize) in *. set (S := Z.of_nat (length content)) in *.
  set (N := chunkCountOf S C) in *.
  assert (0 < C) as HC by (pose proof (chunkSizeOf_floor sliceSize); unfold C; lia).
  assert (0 <= S) as HS by (unfold S; lia).
  destruct (chunkCountOf_covers S C HS HC) as (HN1 & HNlo & HNhi). fold N in HN1, HNlo, HNhi.
  split; [done|]. split; [intros HSpos; by apply chunkCountOf_ceiling|].
  split. { intros ->. unfold N, chunkCountOf. rewrite Z.div_small by lia. lia. }
  split; [apply partNumbersFrom_length|].
  split. { intros k Hk. by apply partNumbersFrom_lookup. }
  split; [done|]. split; [done|].
  split; [|by apply partBytes_cover].
  apply Forall_forall. intros i Hi. apply partNumbersFrom_elem in Hi.
  assert (1 <= i <= N) as Hrange by lia. clear Hi.
  assert ((i - 1) * C <= S) as Hoff by nia.
  pose proof (partBytes_length content C i HC (proj1 Hrange) Hoff) as Hlen.
  fold S in Hlen. unfold partSize, partOffset in Hlen.
  split; [reflexivity|]. split; [done|]. rewrite Hlen.
  destruct (i <? N) eqn:HiN.
  - apply Z.ltb_lt in HiN. rewrite Z.min_l by nia. lia.
  - apply Z.ltb_ge in HiN. assert (i = N) as -> by lia. rewrite Z.min_r by lia. lia.
Qed.

(** *** Facts: download and the process result *)



Lemma client_main_outcome stdin w :
  (exists data,
      dispatch stdin w = (inr data, (main stdin w).2)
      ∧ (main stdin w).1 = {| stdout := [EmitOk data]; exitCode := 0 |})
  ∨ (exists err diagnostics,
        dispatch stdin w = (inl err, (main stdin w).2)
        ∧ message diagnostics
          = shortText (if String.eqb (exnMessage err) EmptyString
                       then exnName err else exnMessage err)
        ∧ (main stdin w).1
          = {| stdout := [EmitFailure (message diagnostics) diagnostics]; exitCode := 1 |}).
Proof.
  unfold main. destruct (dispatch stdin w) as [[err|data] w1].
  - right. exists err.
    exists {| error_type := if String.eqb (exnName err) EmptyString then "Error"
                            else exnName err;
              message := shortText (if String.eqb (exnMessage err) EmptyString
                                    then exnName err else exnMessage err) |}.
    cbn [fst snd message]. done.
  - left. exists data. cbn [fst snd]. done.
Qed.

(** *** Further facts: text helpers *)

Lemma chars_app (a b : string) :
  list_ascii_of_string (a +:+ b) = list_ascii_of_string a ++ list_ascii_of_string b.
Proof.
  induction a as [|ch a IH]; [done|].
  change (String ch a +:+ b) with (String ch (a +:+ b)).
  cbn [list_ascii_of_string]. by rewrite IH.
Qed.

Lemma chars_length (s : string) : String.length s = length (list_ascii_of_string s).
Proof. induction s as [|ch s IH]; [done|]. cbn. by rewrite IH. Qed.

Lemma chars_substring_0 (n : nat) (s : string) :
  list_ascii_of_string (substring 0 n s) = take n (list_ascii_of_string s).
Proof.
  revert n. induction s as [|ch s IH]; intros [|n]; try done. cbn. by rewrite IH.
Qed.

Definition isLineBreak (ch : ascii) : bool :=
  (N_of_ascii ch =? 13)%N || (N_of_ascii ch =? 10)%N.

Lemma escapeLineBreaks_single_line s :
  Forall (fun ch => isLineBreak ch = false) (list_ascii_of_string (escapeLineBreaks s)).
Proof.
  induction s as [|ch s IH]; [constructor|]. cbn [escapeLineBreaks].
  destruct (N_of_ascii ch =? 13)%N eqn:Hcr.
  { rewrite chars_app. apply Forall_app. split; [by repeat constructor|done]. }
  destruct (N_of_ascii ch =? 10)%N eqn:Hlf.
  { rewrite chars_app. apply Forall_app. split; [by repeat constructor|done]. }
  cbn. constructor; [|done]. unfold isLineBreak. by rewrite Hcr, Hlf.
Qed.

Lemma unitLength_app (a b : string) :
  JsString.unitLength (a +:+ b) = (JsString.unitLength a + JsString.unitLength b)%nat.
Proof.
  induction a as [|ch a IH]; [done|].
  change (String ch a +:+ b) with (String ch (a +:+ b)).
  cbn [JsString.unitLength]. rewrite IH. lia.
Qed.

Lemma byte_of_N (n : N) : (n < 256)%N -> N_of_ascii (ascii_of_N n) = n.
Proof. apply N_ascii_embedding. Qed.

(** A byte of a sequence of several bytes is neither CR nor LF. *)
Lemma high_byte_no_break ch : (128 <= N_of_ascii ch)%N -> isLineBreak ch = false.
Proof.
  intros Hch. unfold isLineBreak. apply orb_false_iff.
  split; apply N.eqb_neq; lia.
Qed.

Lemma continuation_byte (n : N) :
  (128 <= n)%N -> (n < 192)%N ->
  JsString.unitsOf (ascii_of_N n) = 0%nat ∧ isLineBreak (ascii_of_N n) = false.
Proof.
  intros Hlow Hhigh.
  unfold JsString.unitsOf, JsString.isContinuation, isLineBreak.
  rewrite byte_of_N by lia.
  assert ((128 <=? n) = true)%N as -> by (apply N.leb_le; lia).
  assert ((n <? 192) = true)%N as -> by (apply N.ltb_lt; lia).
  assert ((n =? 13) = false)%N as -> by (apply N.eqb_neq; lia).
  assert ((n =? 10) = false)%N as -> by (apply N.eqb_neq; lia).
  done.
Qed.

Lemma highSurrogate_bytes c0 c1 c2 :
  JsString.unitLength (JsString.highSurrogate c0 c1 c2) = 1%nat
  ∧ Forall (fun ch => isLineBreak ch = false)
      (list_ascii_of_string (JsString.highSurrogate c0 c1 c2)).
Proof.
  unfold JsString.highSurrogate. cbv zeta.
  generalize ((N_of_ascii c0 mod 8) * 256 + (N_of_ascii c1 mod 64) * 4
              + (N_of_ascii c2 mod 64) / 16 - 64)%N as top.
  intros top.
  pose proof (N.mod_lt (top / 64) 16 ltac:(done)) as H2.
  pose proof (N.mod_lt top 64 ltac:(done)) as H3.
  revert H2 H3. generalize (top / 64 mod 16)%N as second, (top mod 64)%N as third.
  intros second third H2 H3.
  destruct (continuation_byte (160 + second) ltac:(lia) ltac:(lia)) as [Hu2 Hb2].
  destruct (continuation_byte (128 + third) ltac:(lia) ltac:(lia)) as [Hu3 Hb3].
  cbn [JsString.unitLength list_ascii_of_string]. rewrite Hu2, Hu3. split; [done|].
  by repeat constructor.
Qed.

Lemma unitLength_sliceUnits (n : nat) (s : string) :
  (JsString.unitLength (JsString.sliceUnits n s) <= n)%nat.
Proof.
  revert n. induction s as [|ch s IH]; intros n; [cbn; lia|].
  cbn [JsString.sliceUnits]. unfold JsString.unitsOf.
  destruct (JsString.isContinuation ch) eqn:Hcont.
  { cbn [JsString.unitLength]. unfold JsString.unitsOf. rewrite Hcont. apply IH. }
  destruct n as [|n]; [cbn; lia|].
  destruct (JsString.startsPair ch) eqn:Hpair.
  - destruct n as [|n].
    + destruct s as [|c1 [|c2 s]]; try (cbn; lia).
      by rewrite (proj1 (highSurrogate_bytes ch c1 c2)).
    + cbn [JsString.unitLength]. unfold JsString.unitsOf. rewrite Hcont, Hpair.
      specialize (IH n). lia.
  - cbn [JsString.unitLength]. unfold JsString.unitsOf. rewrite Hcont, Hpair.
    specialize (IH n). lia.
Qed.

Lemma sliceUnits_single_line (n : nat) (s : string) :
  Forall (fun ch => isLineBreak ch = false) (list_ascii_of_string s) ->
  Forall (fun ch => isLineBreak ch = false)
    (list_ascii_of_string (JsString.sliceUnits n s)).
Proof.
  revert n. induction s as [|ch s IH]; intros n Hs; [constructor|].
  cbn [list_ascii_of_string] in Hs. inversion Hs as [|? ? Hch Hrest]; subst.
  cbn [JsString.sliceUnits].
  destruct (JsString.isContinuation ch); [by constructor; [|apply IH]|].
  destruct n as [|n]; [constructor|].
  destruct (JsString.startsPair ch).
  - destruct n as [|n]; [|by constructor; [|apply IH]].
    destruct s as [|c1 [|c2 s]]; [constructor|constructor|apply highSurrogate_bytes].
  - by constructor; [|apply IH].
Qed.

(** [shortText] never returns more than 323 UTF-16 code units and
    never a carriage return or a line feed; a text of at most 320 code
    units without line breaks is returned as it is. *)
Theorem shortText_short_single_line (value : string) :
  (JsString.unitLength (shortText value) <= 323)%nat
  ∧ Forall (fun ch => isLineBreak ch = false) (list_ascii_of_string (shortText value))
  ∧ ((JsString.unitLength value <= 320)%nat ->
     Forall (fun ch => isLineBreak ch = false) (list_ascii_of_string value) ->
     shortText value = value).
Proof.
  pose proof (escapeLineBreaks_single_line value) as Hline.
  assert (Forall (fun ch => isLineBreak ch = false) (list_ascii_of_string value) ->
          escapeLineBreaks value = value) as Hsame.
  { clear. induction value as [|ch s IH]; [done|]. cbn.
    intros H. inversion H as [|? ? Hch Hrest]; subst. unfold isLineBreak in Hch.
    apply orb_false_iff in Hch as [-> ->]. by rewrite IH. }
  unfold shortText. cbv zeta.
  destruct (JsString.unitLength (escapeLineBreaks value) <=? 320)%nat eqn:Hlen.
  - apply Nat.leb_le in Hlen. split; [lia|]. split; [done|]. intros _ Hclean.
    by apply Hsame.
  - apply Nat.leb_gt in Hlen. split; [|split].
    + rewrite unitLength_app.
      pose proof (unitLength_sliceUnits 320 (escapeLineBreaks value)).
      change (JsString.unitLength "...") with 3%nat. lia.
    + rewrite chars_app. apply Forall_app. split.
      * by apply sliceUnits_single_line.
      * by repeat constructor.
    + intros Hshort Hclean. rewrite (Hsame Hclean) in Hlen. lia.
Qed.

Example shortText_counts_code_units :
  let text := JsString.join EmptyString (replicate 321 "目") in
  (JsString.unitLength text, String.length text,
   JsString.unitLength (shortText text), String.length (shortText text))
  = (321, 963, 323, 963)%nat.
Proof. vm_compute. reflexivity. Qed.

Lemma trimEnd_head ch rest :
  JsString.isWhiteSpace ch = false ->
  exists kept, JsString.trimEnd (String ch rest) = String ch kept.
Proof.
  intros Hch. cbn. destruct (JsString.trimEnd rest); [|by eexists].
  rewrite Hch. by eexists.
Qed.

Lemma trimEnd_cons ch s :
  JsString.trimEnd (String ch s)
  = match JsString.trimEnd s with
    | EmptyString => if JsString.isWhiteSpace ch then EmptyString else String ch EmptyString
    | kept => String ch kept
    end.
Proof. reflexivity. Qed.

Lemma trimEnd_idempotent s : JsString.trimEnd (JsString.trimEnd s) = JsString.trimEnd s.
Proof.
  induction s as [|ch s IH]; [done|]. rewrite trimEnd_cons.
  destruct (JsString.trimEnd s) as [|ch' kept] eqn:Hs.
  - destruct (JsString.isWhiteSpace ch) eqn:Hch; [done|].
    rewrite trimEnd_cons. cbn [JsString.trimEnd]. by rewrite Hch.
  - rewrite trimEnd_cons. by rewrite IH.
Qed.

(** A trimmed text is its own trim. *)
Lemma trim_idempotent s : JsString.trim (JsString.trim s) = JsString.trim s.
Proof.
  unfold JsString.trim. destruct (JsString.trimStart s) as [|ch rest] eqn:Hs; [done|].
  apply trimStart_not_blank in Hs.
  destruct (trimEnd_head ch rest Hs) as [kept Hk].
  assert (JsString.trimStart (JsString.trimEnd (String ch rest))
          = JsString.trimEnd (String ch rest)) as ->.
  { rewrite Hk. cbn. by rewrite Hs. }
  apply trimEnd_idempotent.
Qed.

Lemma firstString_trimmed (values : list Value) :
  JsString.trim (firstString values) = firstString values.
Proof.
  induction values as [|v values IH]; [done|]. cbn [firstString].
  destruct (String.eqb (JsString.trim (stringOr v)) EmptyString); [done|].
  apply trim_idempotent.
Qed.

(** [firstString] returns the trimmed text of the first value whose
    trimmed text is not empty; it returns the empty string exactly when
    every value is blank, and what it returns is trimmed. *)
Theorem firstString_first_usable (values : list Value) :
  firstString values
  = match List.find (fun v => negb (String.eqb (JsString.trim (stringOr v)) EmptyString))
            values with
    | Some v => JsString.trim (stringOr v)
    | None => EmptyString
    end
  ∧ (firstString values = EmptyString
     <-> Forall (fun v => JsString.trim (stringOr v) = EmptyString) values)
  ∧ JsString.trim (firstString values) = firstString values.
Proof.
  induction values as [|v values (IH1 & IH2 & IH3)]; [by repeat split|].
  cbn [firstString List.find].
  destruct (String.eqb (JsString.trim (stringOr v)) EmptyString) eqn:Hv; cbn [negb].
  - apply String.eqb_eq in Hv. split; [done|]. split; [|done].
    rewrite IH2, Forall_cons. tauto.
  - apply String.eqb_neq in Hv. split; [done|]. split; [|apply trim_idempotent].
    rewrite Forall_cons. tauto.
Qed.

Lemma normalizeSeparators_cons ch rest :
  normalizeSeparators (String ch rest)
  = if isSeparator ch then
      match rest with
      | String ch' _ =>
          if isSeparator ch' then normalizeSeparators rest
          else String "_"%char (normalizeSeparators rest)
      | EmptyString => String "_"%char EmptyString
      end
    else String ch (normalizeSeparators rest).
Proof. reflexivity. Qed.

Lemma normalizeSeparators_clean s :
  Forall (fun ch => isSeparator ch = false) (list_ascii_of_string s) ->
  normalizeSeparators s = s.
Proof.
  induction s as [|ch s IH]; [done|]. cbn [list_ascii_of_string].
  intros H. inversion H as [|? ? Hch Hrest]; subst.
  rewrite normalizeSeparators_cons, Hch. by rewrite IH.
Qed.

Lemma normalizeSeparators_head ch rest :
  JsString.isWhiteSpace ch = false ->
  exists ch' kept,
    normalizeSeparators (String ch rest) = String ch' kept
    ∧ JsString.isWhiteSpace ch' = false.
Proof.
  revert ch. induction rest as [|next rest IH]; intros ch Hch.
  - rewrite normalizeSeparators_cons. destruct (isSeparator ch); by eexists _, _.
  - rewrite normalizeSeparators_cons. destruct (isSeparator ch) eqn:Hsep; [|by eexists _, _].
    destruct (isSeparator next) eqn:Hnext; [|by eexists _, _].
    apply IH. unfold isSeparator in Hnext. unfold JsString.isWhiteSpace.
    apply orb_true_iff in Hnext as [H|H]; apply N.eqb_eq in H; by rewrite H.
Qed.

Lemma normalizeSeparators_trimEnd s :
  JsString.trimEnd s = s -> JsString.trimEnd (normalizeSeparators s) = normalizeSeparators s.
Proof.
  induction s as [|ch s IH]; [done|]. rewrite trimEnd_cons.
  destruct (JsString.trimEnd s) as [|c kept] eqn:Hs.
  - destruct (JsString.isWhiteSpace ch) eqn:Hch; [done|]. intros [= <-].
    rewrite normalizeSeparators_cons. destruct (isSeparator ch); [done|].
    cbn. by rewrite Hch.
  - intros [= Hrest]. specialize (IH Hrest).
    destruct s as [|c' s']; [discriminate Hrest|].
    assert (normalizeSeparators (String c' s') <> EmptyString) as Hne.
    { intros H. apply (proj1 (normalizeSeparators_empty _)) in H. discriminate H. }
    rewrite (normalizeSeparators_cons ch). destruct (isSeparator ch).
    + destruct (isSeparator c'); [exact IH|]. rewrite trimEnd_cons, IH.
      by destruct (normalizeSeparators (String c' s')).
    + rewrite trimEnd_cons, IH. by destruct (normalizeSeparators (String c' s')).
Qed.

Lemma trim_fixed s :
  JsString.trimStart (JsString.trim s) = JsString.trim s
  ∧ JsString.trimEnd (JsString.trim s) = JsString.trim s.
Proof.
  split; [|apply trimEnd_idempotent].
  unfold JsString.trim. destruct (JsString.trimStart s) as [|ch rest] eqn:Hs; [done|].
  apply trimStart_not_blank in Hs. destruct (trimEnd_head ch rest Hs) as [kept ->].
  cbn. by rewrite Hs.
Qed.

(** Normalizing a folder name a second time changes nothing: the names
    [runUpload] has normalized are the names [ensureFolderPath] looks
    for. *)
Theorem normalizeFolderName_idempotent (value : Value) :
  normalizeFolderName (Some (JStr (normalizeFolderName value)))
  = normalizeFolderName value.
Proof.
  unfold normalizeFolderName at 1.
  assert (stringOr (Some (JStr (normalizeFolderName value))) = normalizeFolderName value)
    as ->.
  { unfold stringOr. by destruct (normalizeFolderName value). }
  unfold normalizeFolderName. set (t := JsString.trim (stringOr value)).
  destruct (trim_fixed (stringOr value)) as [Hstart Hend]. fold t in Hstart, Hend.
  assert (JsString.trim (normalizeSeparators t) = normalizeSeparators t) as ->.
  { unfold JsString.trim.
    assert (JsString.trimStart (normalizeSeparators t) = normalizeSeparators t) as ->.
    { destruct t as [|ch rest]; [done|].
      assert (JsString.isWhiteSpace ch = false) as Hch.
      { cbn in Hstart. destruct (JsString.isWhiteSpace ch) eqn:Hws; [|done].
        exfalso. assert (String.length (JsString.trimStart rest) <= String.length rest)%nat.
        { clear. induction rest as [|c r IH]; [done|]. cbn.
          destruct (JsString.isWhiteSpace c); cbn; lia. }
        rewrite Hstart in H. cbn in H. lia. }
      destruct (normalizeSeparators_head ch rest Hch) as (ch' & kept & -> & Hch').
      cbn. by rewrite Hch'. }
    by apply normalizeSeparators_trimEnd. }
  apply normalizeSeparators_clean. apply normalizeSeparators_no_separator.
Qed.

(** *** Further facts: listing, read-only lookup *)

Definition listQuery (parentFolderId : string) (pageNum : Z) : list (string * string) :=
  [("pageSize", "60"); ("pageNum", JsString.ofZ pageNum); ("mediaType", "0");
   ("folderId", parentFolderId); ("iconOption", "5"); ("orderBy", "lastOpTime");
   ("descending", "true")].

(** A request for page [pageNum] of the children of a folder. *)
Definition isListing (parentFolderId : string) (pageNum : Z) (r : Request) : Prop :=
  requestShape r
  = Some ("/api/open/file/listFiles.action", "GET", listQuery parentFolderId pageNum, []).

Lemma requestOpenApi_world c endpoint method query form w :
  exists r,
    (requestOpenApi c endpoint method query form w).2 = afterSending w [r]
    ∧ requestShape r
      = Some (endpoint, JsString.toUpperCase method, query,
              if String.eqb (JsString.toUpperCase method) "GET" then [] else form).
Proof.
  destruct (requestOpenApi_sent c endpoint method query form w) as (r & Hs & Hr & Hd & Hdirs).
  exists r. split; [|done]. unfold afterSending.
  destruct (requestOpenApi c endpoint method query form w).2 as [s d ds].
  cbn [sent disk dirs] in *. by subst.
Qed.

Lemma folderOfItem_name item f : folderOfItem item = Some f -> name f <> EmptyString.
Proof.
  unfold folderOfItem. destruct (_ || _); [done|].
  destruct (String.eqb (firstString _) EmptyString); [done|].
  destruct (String.eqb (firstString [getProp (Some item) "name"; _; _]) EmptyString) eqn:Hn;
    [done|].
  cbn [orb]. intros [= <-]. cbn [name]. by apply String.eqb_neq.
Qed.

Lemma listFoldersPages_run c parentFolderId pagesLeft pageNum folders w res w' :
  listFoldersPages c parentFolderId pagesLeft pageNum folders w = (res, w') ->
  exists new,
    w' = afterSending w new
    ∧ (length new <= pagesLeft)%nat
    ∧ (pagesLeft <> O -> new <> [])
    ∧ Forall2 (fun k r => isListing parentFolderId (pageNum + Z.of_nat k) r)
        (seq 0 (length new)) new
    ∧ (forall result, res = inr result ->
         Forall (fun f => id f <> EmptyString ∧ name f <> EmptyString) folders ->
         Forall (fun f => id f <> EmptyString ∧ name f <> EmptyString) result).
Proof.
  revert pageNum folders w.
  induction pagesLeft as [|n IH]; intros pageNum folders w.
  - cbn [listFoldersPages]. unfold ret. intros [= <- <-]. exists [].
    rewrite afterSending_nil. split; [done|]. split; [done|]. split; [done|].
    split; [constructor|]. by intros result [= <-].
  - cbn [listFoldersPages]. unfold bind at 1.
    destruct (requestOpenApi_world c "/api/open/file/listFiles.action" "GET"
                (listQuery parentFolderId pageNum) [] w) as (r & Hw & Hr).
    change (JsString.toUpperCase "GET") with "GET" in Hr. cbn [String.eqb] in Hr.
    fold (listQuery parentFolderId pageNum).
    destruct (requestOpenApi c "/api/open/file/listFiles.action" "GET"
                (listQuery parentFolderId pageNum) [] w) as [[e|payload] w1];
      cbn [snd] in Hw; subst w1.
    { intros [= <- <-]. exists [r]. split; [done|]. split; [cbn; lia|]. split; [done|].
      split; [|done]. constructor; [|constructor].
      unfold isListing. by rewrite Z.add_0_r. }
    unfold bind at 1, lift.
    assert (Forall2 (fun k r0 => isListing parentFolderId (pageNum + Z.of_nat k) r0)
              (seq 0 1) [r]) as Hone.
    { constructor; [|constructor]. unfold isListing. by rewrite Z.add_0_r. }
    assert (forall res0 w0, (res0, w0) = (res, w') -> w0 = afterSending w [r] ->
              (forall result, res0 = inr result ->
                 Forall (fun f => id f <> EmptyString ∧ name f <> EmptyString) folders ->
                 Forall (fun f => id f <> EmptyString ∧ name f <> EmptyString) result) ->
              exists new,
                w' = afterSending w new ∧ (length new <= S n)%nat ∧ (S n <> O -> new <> [])
                ∧ Forall2 (fun k r0 => isListing parentFolderId (pageNum + Z.of_nat k) r0)
                    (seq 0 (length new)) new
                ∧ (forall result, res = inr result ->
                     Forall (fun f => id f <> EmptyString ∧ name f <> EmptyString) folders ->
                     Forall (fun f => id f <> EmptyString ∧ name f <> EmptyString) result))
      as Hstop.
    { intros res0 w0 [= <- <-] -> Hres. exists [r]. split; [done|]. split; [cbn; lia|].
      split; [done|]. by split. }
    destruct (ensureSuccessPayload (Some payload) "listFiles") as [e|[]].
    { intros Heq. by apply (Hstop _ _ Heq). }
    cbv zeta.
    match goal with
    | |- context [folders ++ omap folderOfItem ?l] => set (folderList := l)
    end.
    assert (Forall (fun f => id f <> EmptyString ∧ name f <> EmptyString) folders ->
            Forall (fun f => id f <> EmptyString ∧ name f <> EmptyString)
              (folders ++ omap folderOfItem folderList)) as Hnext.
    { intros Hf. apply Forall_app. split; [done|]. apply Forall_forall. intros f Hin.
      apply list_elem_of_omap in Hin as (item & _ & Hitem).
      split; [by eapply folderOfItem_id|by eapply folderOfItem_name]. }
    assert (forall w0,
              listFoldersPages c parentFolderId n (pageNum + 1)
                (folders ++ omap folderOfItem folderList) w0 = (res, w') ->
              w0 = afterSending w [r] ->
              exists new,
                w' = afterSending w new ∧ (length new <= S n)%nat ∧ (S n <> O -> new <> [])
                ∧ Forall2 (fun k r0 => isListing parentFolderId (pageNum + Z.of_nat k) r0)
                    (seq 0 (length new)) new
                ∧ (forall result, res = inr result ->
                     Forall (fun f => id f <> EmptyString ∧ name f <> EmptyString) folders ->
                     Forall (fun f => id f <> EmptyString ∧ name f <> EmptyString) result))
      as Hmore.
    { intros w0 Hrun ->. apply IH in Hrun as (new & -> & Hlen & _ & Hpages & Hres).
      exists (r :: new). rewrite afterSending_app. split; [done|].
      split; [cbn; lia|]. split; [done|]. split.
      - cbn [length seq]. constructor; [unfold isListing; by rewrite Z.add_0_r|].
        rewrite <- seq_shift. apply Forall2_fmap_l.
        eapply Forall2_impl; [exact Hpages|]. intros k r0 Hk. unfold compose.
        replace (pageNum + Z.of_nat (S k)) with (pageNum + 1 + Z.of_nat k) by lia.
        exact Hk.
      - intros result Hresult Hf. apply (Hres result Hresult). by apply Hnext. }
    destruct folderList as [|item items] eqn:Hlist.
    { unfold ret. intros Heq. apply (Hstop _ _ Heq eq_refl).
      intros result [= <-] Hf. by apply Hnext. }
    destruct (Number_ _) as [total|]; [|by eauto].
    destruct (total <=? 0).
    { unfold ret. intros Heq. apply (Hstop _ _ Heq eq_refl).
      intros result [= <-] Hf. by apply Hnext. }
    destruct (pageCountOf total <=? pageNum); [|by eauto].
    unfold ret. intros Heq. apply (Hstop _ _ Heq eq_refl).
    intros result [= <-] Hf. by apply Hnext.
Qed.

Lemma listFolders_run c parentFolderId w res w' :
  listFolders c parentFolderId w = (res, w') ->
  exists new,
    w' = afterSending w new
    ∧ (1 <= length new <= 20)%nat
    ∧ Forall2 (fun k r => isListing parentFolderId (1 + Z.of_nat k) r)
        (seq 0 (length new)) new
    ∧ (forall folders, res = inr folders ->
         Forall (fun f => id f <> EmptyString ∧ name f <> EmptyString) folders).
Proof.
  unfold listFolders. intros Hrun.
  apply listFoldersPages_run in Hrun as (new & -> & Hlen & Hne & Hpages & Hres).
  exists new. split; [done|]. split.
  - destruct new; [by destruct Hne|cbn in *; lia].
  - split; [done|]. intros folders Hf. by apply (Hres folders Hf).
Qed.

(** [listFolders] sends between one and twenty listing requests, for
    pages 1, 2, ... of the folder in order, and nothing else; every folder
    it returns has a non-empty id and a non-empty name. *)
Theorem listFolders_pages c parentFolderId w res w' :
  listFolders c parentFolderId w = (res, w') ->
  exists new,
    w' = afterSending w new
    ∧ (1 <= length new <= 20)%nat
    ∧ Forall2 (fun k r => isListing parentFolderId (1 + Z.of_nat k) r)
        (seq 0 (length new)) new
    ∧ (forall folders, res = inr folders ->
         Forall (fun f => id f <> EmptyString ∧ name f <> EmptyString) folders).
Proof.
  unfold listFolders. intros Hrun.
  apply listFoldersPages_run in Hrun as (new & -> & Hlen & Hne & Hpages & Hres).
  exists new. split; [done|]. split.
  - destruct new; [by destruct Hne|cbn in *; lia].
  - split; [done|]. intros folders Hf. by apply (Hres folders Hf).
Qed.

Definition anyListing (r : Request) : Prop :=
  exists parentFolderId pageNum, isListing parentFolderId pageNum r.

Lemma findFolderLoop_run c parts parentFolderId trace w res w' :
  findFolderLoop c parts parentFolderId trace w = (res, w') ->
  exists new,
    w' = afterSending w new
    ∧ Forall anyListing new
    ∧ (forall result, res = inr result ->
         exists added,
           findTrace result = trace ++ added
           ∧ if findOk result then
               Forall (fun e => found e = Some true) added
               ∧ reason result = None ∧ missing_name result = None
               ∧ (parentFolderId <> EmptyString -> findFolderId result <> EmptyString)
             else
               new <> []
               ∧ findFolderId result = EmptyString
               ∧ reason result = Some "folder_not_found"
               ∧ exists front missing,
                   added = front ++ [missing]
                   ∧ Forall (fun e => found e = Some true) front
                   ∧ found missing = Some false
                   ∧ folder_name missing <> EmptyString
                   ∧ missing_name result = Some (folder_name missing)).
Proof.
  revert parentFolderId trace w.
  induction parts as [|rawPart rest IH]; intros parentFolderId trace w.
  - cbn [findFolderLoop]. unfold ret. intros [= <- <-]. exists [].
    rewrite afterSending_nil. split; [done|]. split; [constructor|].
    intros result [= <-]. exists []. cbn. by rewrite app_nil_r.
  - cbn [findFolderLoop]. cbv zeta.
    destruct (String.eqb (normalizeFolderName rawPart) EmptyString) eqn:Hname; [by apply IH|].
    apply String.eqb_neq in Hname. unfold bind at 1.
    destruct (listFolders c parentFolderId w) as [[e|folders] w1] eqn:Hlist;
      apply listFolders_run in Hlist as (new1 & -> & Hlen & Hpages & Hfolders).
    { intros [= <- <-]. exists new1. split; [done|]. split; [|done].
      apply Forall_forall. intros r Hr. apply list_elem_of_lookup in Hr as [k Hk].
      destruct (Forall2_lookup_r _ _ _ _ _ Hpages Hk) as (i & _ & Hi). by eexists _, _. }
    assert (Forall anyListing new1) as Hnew1.
    { apply Forall_forall. intros r Hr. apply list_elem_of_lookup in Hr as [k Hk].
      destruct (Forall2_lookup_r _ _ _ _ _ Hpages Hk) as (i & _ & Hi). by eexists _, _. }
    specialize (Hfolders folders eq_refl).
    destruct (findByName (normalizeFolderName rawPart) folders) as [f|] eqn:Hfind.
    + assert (String.eqb (id f) EmptyString = false) as Hid.
      { apply String.eqb_neq. apply find_some in Hfind as [Hin _].
        rewrite Forall_forall in Hfolders. by apply Hfolders, list_elem_of_In. }
      rewrite Hid. intros Hrest.
      apply IH in Hrest as (new2 & -> & Hnew2 & Hres).
      exists (new1 ++ new2). rewrite afterSending_app. split; [done|].
      split; [by apply Forall_app|].
      intros result Hresult. destruct (Hres result Hresult) as (added & Htrace & Hshape).
      eexists (_ :: added). rewrite Htrace, <- app_assoc. split; [done|].
      apply String.eqb_neq in Hid.
      destruct (findOk result).
      * destruct Hshape as (Hall & Hr & Hm & Hid'). split; [by constructor|]. auto.
      * destruct Hshape as (Hne & Hid' & Hr & front & missing & -> & Hfront & Hmiss).
        split; [by destruct new1|]. split; [done|]. split; [done|]. eexists (_ :: front), missing.
        split; [done|]. split; [by constructor|done].
    + unfold ret. intros [= <- <-]. exists new1. split; [done|]. split; [done|].
      intros result [= <-]. cbn [findTrace findOk findFolderId reason missing_name].
      eexists [_]. split; [done|]. split; [by destruct new1; cbn in Hlen; [lia|]|].
      split; [done|]. split; [done|].
      eexists [], _. split; [done|]. split; [constructor|]. by cbn.
Qed.

Lemma findFolderPath_run c parts w res w' :
  findFolderPath c parts w = (res, w') ->
  exists new,
    w' = afterSending w new
    ∧ Forall anyListing new
    ∧ (forall result, res = inr result ->
         if findOk result then
           findFolderId result <> EmptyString ∧ reason result = None
         else
           new <> [] ∧ findFolderId result = EmptyString
           ∧ reason result = Some "folder_not_found").
Proof.
  unfold findFolderPath. intros Hrun.
  apply findFolderLoop_run in Hrun as (new & -> & Hnew & Hres).
  exists new. split; [done|]. split; [done|].
  intros result Hresult. destruct (Hres result Hresult) as (added & Htrace & Hshape).
  destruct (findOk result).
  - destruct Hshape as (Hall & Hr & Hm & Hid). split; [|done]. by apply Hid.
  - by destruct Hshape as (Hne & Hid & Hr & _).
Qed.

(** [findFolderPath] only reads: every request it sends is a listing
    request.  When it reports a missing folder, the folder id is empty,
    the reason is [folder_not_found], and the last trace entry is the
    missing segment, the ones before it having been found; otherwise
    every segment it looked up was found. *)
Theorem findFolderPath_read_only c parts w res w' :
  findFolderPath c parts w = (res, w') ->
  exists new,
    w' = afterSending w new
    ∧ Forall anyListing new
    ∧ (forall result, res = inr result ->
         if findOk result then
           Forall (fun e => found e = Some true) (findTrace result)
           ∧ findFolderId result <> EmptyString
           ∧ reason result = None ∧ missing_name result = None
         else
           findFolderId result = EmptyString
           ∧ reason result = Some "folder_not_found"
           ∧ exists front missing,
               findTrace result = front ++ [missing]
               ∧ Forall (fun e => found e = Some true) front
               ∧ found missing = Some false
               ∧ missing_name result = Some (folder_name missing)
               ∧ folder_name missing <> EmptyString).
Proof.
  unfold findFolderPath. intros Hrun.
  apply findFolderLoop_run in Hrun as (new & -> & Hnew & Hres).
  exists new. split; [done|]. split; [done|].
  intros result Hresult. destruct (Hres result Hresult) as (added & Htrace & Hshape).
  rewrite app_nil_l in Htrace. rewrite Htrace. destruct (findOk result).
  - destruct Hshape as (Hall & Hr & Hm & Hid). split; [done|]. split; [|done].
    by apply Hid.
  - destruct Hshape as (_ & Hid & Hr & front & missing & -> & Hfront & Hfound & Hname & Hmiss).
    split; [done|]. split; [done|]. by exists front, missing.
Qed.

(** *** Further facts: listing files *)

(** What [listFiles] keeps of an item: an id, a name and a size that is
    not negative. *)
Definition usableFile (f : CloudFile) : Prop :=
  file_id f <> EmptyString ∧ file_name f <> EmptyString ∧ 0 <= size f.

Lemma fileOfItem_fields item f : fileOfItem item = Some f -> usableFile f.
Proof.
  unfold fileOfItem. destruct (_ || _); [done|].
  destruct (String.eqb (firstString [getProp (Some item) "id"; _; _]) EmptyString) eqn:Hid;
    [done|].
  destruct (String.eqb (firstString [getProp (Some item) "name"; _]) EmptyString) eqn:Hn;
    [done|].
  cbn [orb]. intros [= <-]. unfold usableFile. cbn [file_id file_name size].
  split; [by apply String.eqb_neq|]. split; [by apply String.eqb_neq|].
  destruct (Number_ _); lia.
Qed.

Lemma listFilesPages_run c parentFolderId pagesLeft pageNum files w res w' :
  listFilesPages c parentFolderId pagesLeft pageNum files w = (res, w') ->
  exists new,
    w' = afterSending w new
    ∧ (length new <= pagesLeft)%nat
    ∧ (pagesLeft <> O -> new <> [])
    ∧ Forall2 (fun k r => isListing parentFolderId (pageNum + Z.of_nat k) r)
        (seq 0 (length new)) new
    ∧ (forall result, res = inr result ->
         Forall (usableFile) files ->
         Forall (usableFile) result).
Proof.
  revert pageNum files w.
  induction pagesLeft as [|n IH]; intros pageNum files w.
  - cbn [listFilesPages]. unfold ret. intros [= <- <-]. exists [].
    rewrite afterSending_nil. split; [done|]. split; [done|]. split; [done|].
    split; [constructor|]. by intros result [= <-].
  - cbn [listFilesPages]. unfold bind at 1.
    destruct (requestOpenApi_world c "/api/open/file/listFiles.action" "GET"
                (listQuery parentFolderId pageNum) [] w) as (r & Hw & Hr).
    change (JsString.toUpperCase "GET") with "GET" in Hr. cbn [String.eqb] in Hr.
    fold (listQuery parentFolderId pageNum).
    destruct (requestOpenApi c "/api/open/file/listFiles.action" "GET"
                (listQuery parentFolderId pageNum) [] w) as [[e|payload] w1];
      cbn [snd] in Hw; subst w1.
    { intros [= <- <-]. exists [r]. split; [done|]. split; [cbn; lia|]. split; [done|].
      split; [|done]. constructor; [|constructor].
      unfold isListing. by rewrite Z.add_0_r. }
    unfold bind at 1, lift.
    assert (Forall2 (fun k r0 => isListing parentFolderId (pageNum + Z.of_nat k) r0)
              (seq 0 1) [r]) as Hone.
    { constructor; [|constructor]. unfold isListing. by rewrite Z.add_0_r. }
    assert (forall res0 w0, (res0, w0) = (res, w') -> w0 = afterSending w [r] ->
              (forall result, res0 = inr result ->
                 Forall (usableFile) files ->
                 Forall (usableFile) result) ->
              exists new,
                w' = afterSending w new ∧ (length new <= S n)%nat ∧ (S n <> O -> new <> [])
                ∧ Forall2 (fun k r0 => isListing parentFolderId (pageNum + Z.of_nat k) r0)
                    (seq 0 (length new)) new
                ∧ (forall result, res = inr result ->
                     Forall (usableFile) files ->
                     Forall (usableFile) result))
      as Hstop.
    { intros res0 w0 [= <- <-] -> Hres. exists [r]. split; [done|]. split; [cbn; lia|].
      split; [done|]. by split. }
    destruct (ensureSuccessPayload (Some payload) "listFiles") as [e|[]].
    { intros Heq. by apply (Hstop _ _ Heq). }
    cbv zeta.
    match goal with
    | |- context [files ++ omap fileOfItem ?l] => set (fileList := l)
    end.
    assert (Forall (usableFile) files ->
            Forall (usableFile)
              (files ++ omap fileOfItem fileList)) as Hnext.
    { intros Hf. apply Forall_app. split; [done|]. apply Forall_forall. intros f Hin.
      apply list_elem_of_omap in Hin as (item & _ & Hitem).
      by eapply fileOfItem_fields. }
    assert (forall w0,
              listFilesPages c parentFolderId n (pageNum + 1)
                (files ++ omap fileOfItem fileList) w0 = (res, w') ->
              w0 = afterSending w [r] ->
              exists new,
                w' = afterSending w new ∧ (length new <= S n)%nat ∧ (S n <> O -> new <> [])
                ∧ Forall2 (fun k r0 => isListing parentFolderId (pageNum + Z.of_nat k) r0)
                    (seq 0 (length new)) new
                ∧ (forall result, res = inr result ->
                     Forall (usableFile) files ->
                     Forall (usableFile) result))
      as Hmore.
    { intros w0 Hrun ->. apply IH in Hrun as (new & -> & Hlen & _ & Hpages & Hres).
      exists (r :: new). rewrite afterSending_app. split; [done|].
      split; [cbn; lia|]. split; [done|]. split.
      - cbn [length seq]. constructor; [unfold isListing; by rewrite Z.add_0_r|].
        rewrite <- seq_shift. apply Forall2_fmap_l.
        eapply Forall2_impl; [exact Hpages|]. intros k r0 Hk. unfold compose.
        replace (pageNum + Z.of_nat (S k)) with (pageNum + 1 + Z.of_nat k) by lia.
        exact Hk.
      - intros result Hresult Hf. apply (Hres result Hresult). by apply Hnext. }
    destruct fileList as [|item items] eqn:Hlist.
    { unfold ret. intros Heq. apply (Hstop _ _ Heq eq_refl).
      intros result [= <-] Hf. by apply Hnext. }
    destruct (Number_ _) as [total|]; [|by eauto].
    destruct (total <=? 0).
    { unfold ret. intros Heq. apply (Hstop _ _ Heq eq_refl).
      intros result [= <-] Hf. by apply Hnext. }
    destruct (pageCountOf total <=? pageNum); [|by eauto].
    unfold ret. intros Heq. apply (Hstop _ _ Heq eq_refl).
    intros result [= <-] Hf. by apply Hnext.
Qed.

Lemma listFiles_run c parentFolderId w res w' :
  listFiles c parentFolderId w = (res, w') ->
  exists new,
    w' = afterSending w new
    ∧ (1 <= length new <= 30)%nat
    ∧ Forall2 (fun k r => isListing parentFolderId (1 + Z.of_nat k) r)
        (seq 0 (length new)) new
    ∧ (forall files, res = inr files -> Forall usableFile files).
Proof.
  unfold listFiles. intros Hrun.
  apply listFilesPages_run in Hrun as (new & -> & Hlen & Hne & Hpages & Hres).
  exists new. split; [done|]. split.
  - destruct new; [by destruct Hne|cbn in *; lia].
  - split; [done|]. intros files Hf. by apply (Hres files Hf).
Qed.

(** [listFiles] sends between one and thirty listing requests, for
    pages 1, 2, ... of the folder in order, and nothing else; every file
    it returns has a non-empty id, a non-empty name and a size that is
    not negative. *)
Theorem listFiles_pages c parentFolderId w res w' :
  listFiles c parentFolderId w = (res, w') ->
  exists new,
    w' = afterSending w new
    ∧ (1 <= length new <= 30)%nat
    ∧ Forall2 (fun k r => isListing parentFolderId (1 + Z.of_nat k) r)
        (seq 0 (length new)) new
    ∧ (forall files, res = inr files -> Forall usableFile files).
Proof.
  unfold listFiles. intros Hrun.
  apply listFilesPages_run in Hrun as (new & -> & Hlen & Hne & Hpages & Hres).
  exists new. split; [done|]. split.
  - destruct new; [by destruct Hne|cbn in *; lia].
  - split; [done|]. intros files Hf. by apply (Hres files Hf).
Qed.

(** *** Further facts: the list_versions action *)

Lemma listing_pages parentFolderId pageNum (new : list Request) :
  Forall2 (fun k r => isListing parentFolderId (pageNum + Z.of_nat k) r)
    (seq 0 (length new)) new ->
  Forall anyListing new.
Proof.
  intros Hpages. apply Forall_forall. intros r Hr.
  apply list_elem_of_lookup in Hr as [k Hk].
  destruct (Forall2_lookup_r _ _ _ _ _ Hpages Hk) as (i & _ & Hi). by eexists _, _.
Qed.

(** [runListVersions] only reads: every request it sends is a listing
    request, whatever the payload.  It reports either a missing folder,
    with no files and the reason [folder_not_found], or a folder with a
    non-empty id, and then only files whose name ends in [.7z], upper or
    lower case. *)
Theorem runListVersions_read_only payload w res w' :
  runListVersions payload w = (res, w') ->
  exists new,
    w' = afterSending w new
    ∧ Forall anyListing new
    ∧ (forall data, res = inr data ->
         exists isThere folderId files trace why,
           data = VersionsData isThere folderId files trace why
           ∧ Forall (fun f => usableFile f
                              ∧ endsWith ".7z" (JsString.toLowerCase (file_name f)) = true)
               files
           ∧ if isThere then folderId <> EmptyString ∧ why = None ∧ new <> []
             else folderId = EmptyString ∧ files = []
                  ∧ why = Some "folder_not_found" ∧ new <> []).
Proof.
  unfold runListVersions. cbv zeta.
  destruct (String.eqb (cookie (credentialsOf payload)) EmptyString).
  { unfold throw. intros [= <- <-]. exists []. by rewrite afterSending_nil. }
  destruct (String.eqb (sessionKey (credentialsOf payload)) EmptyString).
  { unfold throw. intros [= <- <-]. exists []. by rewrite afterSending_nil. }
  unfold bind at 1.
  destruct (findFolderPath _ _ w) as [[e|found] w1] eqn:Hfind;
    apply findFolderPath_run in Hfind as (new1 & -> & Hnew1 & Hres).
  { intros [= <- <-]. by exists new1. }
  specialize (Hres found eq_refl).
  destruct (findOk found) eqn:Hok; cbn [negb].
  - destruct Hres as (Hid & Hreason).
    unfold bind at 1.
    destruct (listFiles _ _ _) as [[e|files] w2] eqn:Hlist;
      apply listFiles_run in Hlist as (new2 & -> & Hlen & Hpages & Hfiles).
    { intros [= <- <-]. exists (new1 ++ new2). rewrite afterSending_app.
      split; [done|]. split; [|done]. apply Forall_app. split; [done|].
      by eapply listing_pages. }
    unfold ret. intros [= <- <-]. exists (new1 ++ new2). rewrite afterSending_app.
    split; [done|]. split; [apply Forall_app; split; [done|by eapply listing_pages]|].
    intros data [= <-]. eexists _, _, _, _, _. split; [done|]. split.
    + apply Forall_forall. intros f Hf. apply list_elem_of_In, filter_In in Hf as [Hin Hend].
      split; [|done]. specialize (Hfiles files eq_refl).
      rewrite Forall_forall in Hfiles. by apply Hfiles, list_elem_of_In.
    + split; [done|]. split; [done|].
      destruct new2; [cbn in Hlen; lia|by destruct new1].
  - destruct Hres as (Hne & Hid & Hreason).
    unfold ret. intros [= <- <-]. exists new1. split; [done|]. split; [done|].
    intros data [= <-]. eexists _, _, _, _, _. split; [done|]. split; [constructor|].
    rewrite Hreason. by cbn [default].
Qed.

(** *** Further facts: the RSA key and the download address *)

Lemma requestJsonGet_world c url action w :
  (requestJsonGet c url action w).2 = afterSending w [JsonGetRequest (cookie c) url].
Proof.
  unfold requestJsonGet, bind. rewrite <- (fetch_world (JsonGetRequest (cookie c) url) w).
  destruct (fetch _ w) as [[e|resp] w1]; [done|]. cbn [snd].
  destruct (negb (ok resp)); [done|]. by destruct (_ || _).
Qed.

Definition apiSignature (c : Credentials) (query : list (string * string)) (ts : string)
    : string :=
  Signing.md5Signature localeCompare
    (asParams (spread query [("Timestamp", ts); ("AccessToken", accessToken c)])).

Definition isApiSigned (c : Credentials) (endpoint : string)
    (query : list (string * string)) (r : Request) : Prop :=
  exists ts,
    r = ApiSignedRequest (cookie c) (accessToken c) endpoint query ts
          (apiSignature c query ts).

Lemma requestApiSigned_world c endpoint query w :
  exists r,
    (requestApiSigned c endpoint query w).2 = afterSending w [r]
    ∧ isApiSigned c endpoint query r.
Proof.
  unfold requestApiSigned, bind at 1, now. cbv zeta. unfold bind.
  match goal with
  | |- context [fetch ?r w] => exists r; split; [rewrite <- (fetch_world r w)|by eexists]
  end.
  destruct (fetch _ w) as [[e|resp] w1]; [done|]. cbn [snd].
  destruct (negb (ok resp)); [done|]. by destruct (negb _).
Qed.

(** One request of [m], whatever comes of it, then the check of the
    payload: the [try] block of both candidate loops. *)
Lemma attempt_checked (m : M Json) action (P : Request -> Prop) w :
  (exists r, (m w).2 = afterSending w [r] ∧ P r) ->
  exists r outcome,
    attempt (payload <- m ;;
             _ <- lift (ensureSuccessPayload (Some payload) action) ;;
             ret payload) w
    = (inr outcome, afterSending w [r])
    ∧ P r.
Proof.
  intros (r & Hw & Hr). unfold attempt, bind, lift, ret.
  destruct (m w) as [[e|payload] w1]; cbn [snd] in Hw; subst w1.
  - by eexists _, _.
  - destruct (ensureSuccessPayload _ _) as [e|[]]; by eexists _, _.
Qed.

Definition isRsaRequest (c : Credentials) (s : RsaSource) (r : Request) : Prop :=
  match s with
  | cloud_unsigned =>
      exists t,
        r = JsonGetRequest (cookie c)
              (appendQuery (WEB_URL +:+ "/api/security/generateRsaKey.action")
                 [("noCache", JsString.ofZ t)])
  | api_signed => isApiSigned c "/security/generateRsaKey.action" [] r
  end.

Lemma runRsaCandidate_world c s w :
  exists r, (runRsaCandidate c s w).2 = afterSending w [r] ∧ isRsaRequest c s r.
Proof.
  destruct s; cbn [runRsaCandidate isRsaRequest].
  - unfold bind, now. rewrite requestJsonGet_world. by eexists _; split; [|eexists].
  - apply requestApiSigned_world.
Qed.

Lemma attempt_run {A} (m : M A) w : attempt m w = (inr (m w).1, (m w).2).
Proof. unfold attempt. by destruct (m w). Qed.

(** The body of the [try] block of [getRsaKey]: the request of a
    source, then the check of the payload. *)
Definition rsaChecked (c : Credentials) (s : RsaSource) : M Json :=
  payload <- runRsaCandidate c s ;;
  _ <- lift (ensureSuccessPayload (Some payload) ("generateRsaKey." +:+ rsaSourceName s)) ;;
  ret payload.

(** The key an answer gives: [pubKey] and [pkId], each read from the
    payload or from its [data], both non-empty. *)
Definition keyOf (outcome : Result Json) : option RsaKey :=
  match outcome with
  | inr payload =>
      let pubKey := firstString [getProp (Some payload) "pubKey";
                                 andProp (getProp (Some payload) "data") "pubKey"] in
      let pkId := firstString [getProp (Some payload) "pkId";
                               andProp (getProp (Some payload) "data") "pkId"] in
      if String.eqb pubKey EmptyString then None
      else if String.eqb pkId EmptyString then None
      else Some {| pubKey := pubKey; pkId := pkId |}
  | inl _ => None
  end.

Lemma rsaChecked_world c s w :
  exists r, (rsaChecked c s w).2 = afterSending w [r] ∧ isRsaRequest c s r.
Proof.
  destruct (attempt_checked (runRsaCandidate c s)
              ("generateRsaKey." +:+ rsaSourceName s) (isRsaRequest c s) w
              (runRsaCandidate_world c s w)) as (r & outcome & Hrun & Hr).
  change (attempt (rsaChecked c s) w = (inr outcome, afterSending w [r])) in Hrun.
  rewrite attempt_run in Hrun. injection Hrun as _ Hw. by exists r.
Qed.

Lemma tryRsaCandidates_run c candidates attempts w res w' :
  tryRsaCandidates c candidates attempts w = (res, w') ->
  exists new,
    w' = afterSending w new
    ∧ Forall2 (isRsaRequest c) (take (length new) candidates) new
    ∧ (length new <= length candidates)%nat
    ∧ (candidates <> [] -> new <> [])
    ∧ (forall key, res = inr key -> pubKey key <> EmptyString ∧ pkId key <> EmptyString)
    ∧ (forall err, res = inl err ->
         length new = length candidates
         ∧ exists failed,
             length failed = length candidates
             ∧ err = Error ("RSA 公钥响应缺少 pubKey/pkId attempts="
                            +:+ JSON_stringify (JArr (attempts ++ failed))))
    ∧ (forall key, res = inr key -> new <> [])
    ∧ (forall k s,
         candidates !! k = Some s -> (k < length new)%nat ->
         let found := keyOf (rsaChecked c s (afterSending w (take k new))).1 in
         if (S k =? length new)%nat then
           match res with inr key => found = Some key | inl _ => found = None end
         else found = None).
Proof.
  revert attempts w. induction candidates as [|s rest IH]; intros attempts w.
  - cbn [tryRsaCandidates]. unfold throw. intros [= <- <-]. exists [].
    rewrite afterSending_nil. split; [done|]. split; [constructor|]. split; [done|].
    split; [done|]. split; [done|]. split.
    { intros err [= <-]. split; [done|]. exists []. by rewrite app_nil_r. }
    split; [done|]. intros k s. by rewrite lookup_nil.
  - cbn [tryRsaCandidates]. unfold bind at 1.
    change (attempt _ w) with (attempt (rsaChecked c s) w). rewrite attempt_run.
    destruct (rsaChecked_world c s w) as (r & Hw & Hr).
    destruct (rsaChecked c s w) as [outcome w1] eqn:Hchecked.
    cbn [fst snd] in Hw |- *. subst w1.
    assert (forall attempts',
              keyOf outcome = None ->
              tryRsaCandidates c rest (attempts ++ [attempts']) (afterSending w [r])
              = (res, w') ->
              exists new,
                w' = afterSending w new
                ∧ Forall2 (isRsaRequest c) (take (length new) (s :: rest)) new
                ∧ (length new <= length (s :: rest))%nat
                ∧ (s :: rest <> [] -> new <> [])
                ∧ (forall key, res = inr key ->
                     pubKey key <> EmptyString ∧ pkId key <> EmptyString)
                ∧ (forall err, res = inl err ->
                     length new = length (s :: rest)
                     ∧ exists failed,
                         length failed = length (s :: rest)
                         ∧ err = Error ("RSA 公钥响应缺少 pubKey/pkId attempts="
                                        +:+ JSON_stringify (JArr (attempts ++ failed))))
                ∧ (forall key, res = inr key -> new <> [])
                ∧ (forall k s',
                     (s :: rest) !! k = Some s' -> (k < length new)%nat ->
                     let found :=
                       keyOf (rsaChecked c s' (afterSending w (take k new))).1 in
                     if (S k =? length new)%nat then
                       match res with inr key => found = Some key | inl _ => found = None end
                     else found = None))
      as Hmore.
    { intros attempts' Hnone Hrun.
      apply IH in Hrun as (new & -> & Hshape & Hlen & _ & Hkey & Herr & Hsome & Hstop).
      exists (r :: new). rewrite afterSending_app. split; [done|].
      split; [by constructor|]. split; [cbn; lia|]. split; [done|]. split; [done|].
      split.
      { intros err Hres. destruct (Herr err Hres) as (Hall & failed & Hfailed & ->).
        split; [cbn; lia|]. exists (attempts' :: failed). split; [cbn; lia|].
        by rewrite <- app_assoc. }
      split; [done|]. intros [|k] s' Hs' Hk; cbv zeta.
      - injection Hs' as <-. cbn [take]. rewrite afterSending_nil, Hchecked. cbn [fst].
        destruct new as [|r' new']; [|exact Hnone].
        cbn [length Nat.eqb]. destruct res as [err|key]; [exact Hnone|].
        by destruct (Hsome key eq_refl).
      - cbn [take length Nat.eqb].
        change (r :: take k new) with ([r] ++ take k new).
        rewrite <- afterSending_app. apply (Hstop k s' Hs'). cbn in Hk. lia. }
    destruct outcome as [e|payload]; [by apply Hmore|]. cbv zeta.
    destruct (String.eqb (firstString [getProp (Some payload) "pubKey"; _]) EmptyString)
      eqn:Hpub; cbn [negb andb].
    { apply Hmore. unfold keyOf. cbv zeta. by rewrite Hpub. }
    destruct (String.eqb (firstString [getProp (Some payload) "pkId"; _]) EmptyString)
      eqn:Hpk; cbn [negb andb].
    { apply Hmore. unfold keyOf. cbv zeta. by rewrite Hpub, Hpk. }
    unfold ret. intros [= <- <-]. exists [r]. split; [done|].
    split; [by repeat constructor|]. split; [cbn; lia|]. split; [done|].
    split.
    { intros key [= <-]. cbn [pubKey pkId]. split; by apply String.eqb_neq. }
    split; [done|]. split; [done|].
    intros [|k] s' Hs' Hk; [|cbn in Hk; lia]. injection Hs' as <-. cbv zeta.
    cbn [take length Nat.eqb]. rewrite afterSending_nil, Hchecked. cbn [fst].
    unfold keyOf. cbv zeta. by rewrite Hpub, Hpk.
Qed.

(** [getRsaKey] asks the web endpoint first and the signed API second,
    and the second only when the first gave no usable key: when the
    answer to the first request gives a key, that key is returned and
    one request has been sent; otherwise two requests are sent, and the
    key the second answer gives is returned, or the call fails when it
    gives none.  A key it returns has a non-empty [pubKey] and [pkId],
    and the error of a failure lists both failed attempts. *)
Theorem getRsaKey_two_sources c w res w' :
  getRsaKey c w = (res, w') ->
  exists new,
    w' = afterSending w new
    ∧ Forall2 (isRsaRequest c) (take (length new) [cloud_unsigned; api_signed]) new
    ∧ (1 <= length new <= 2)%nat
    ∧ (forall key, res = inr key -> pubKey key <> EmptyString ∧ pkId key <> EmptyString)
    ∧ (forall err, res = inl err ->
         length new = 2%nat
         ∧ exists first second,
             err = Error ("RSA 公钥响应缺少 pubKey/pkId attempts="
                          +:+ JSON_stringify (JArr [first; second])))
    ∧ match keyOf (rsaChecked c cloud_unsigned w).1 with
      | Some key => res = inr key ∧ length new = 1%nat
      | None =>
          length new = 2%nat
          ∧ match keyOf (rsaChecked c api_signed (afterSending w (take 1 new))).1 with
            | Some key => res = inr key
            | None => exists err, res = inl err
            end
      end.
Proof.
  unfold getRsaKey. intros Hrun.
  apply tryRsaCandidates_run in Hrun
    as (new & -> & Hshape & Hlen & Hne & Hkey & Herr & _ & Hstop).
  exists new. split; [done|]. split; [done|].
  assert (1 <= length new <= 2)%nat as Hcount.
  { specialize (Hne ltac:(done)). destruct new; [done|]. cbn in *. lia. }
  split; [done|]. split; [done|]. split.
  { intros err Hres. destruct (Herr err Hres) as (Hall & failed & Hfailed & ->).
    split; [done|]. destruct failed as [|first [|second [|]]]; try done. by eexists _, _. }
  pose proof (Hstop 0%nat cloud_unsigned eq_refl ltac:(lia)) as Hfirst.
  cbv zeta in Hfirst. cbn [take] in Hfirst. rewrite afterSending_nil in Hfirst.
  destruct new as [|r1 [|r2 [|r3 more]]]; cbn [length] in Hcount; try lia.
  - cbn [length Nat.eqb] in Hfirst. destruct res as [err|key].
    + destruct (Herr err eq_refl) as [Hall _]. cbn in Hall. lia.
    + by rewrite Hfirst.
  - cbn [length Nat.eqb] in Hfirst. rewrite Hfirst. split; [done|].
    pose proof (Hstop 1%nat api_signed eq_refl ltac:(cbn; lia)) as Hsecond.
    cbv zeta in Hsecond. cbn [length Nat.eqb] in Hsecond.
    destruct res as [err|key]; rewrite Hsecond; [by exists err|done].
Qed.

Definition downloadEndpoint : string := "/api/open/file/getFileDownloadUrl.action".

(** The four ways of asking for a download address, in the order they
    are tried. *)
Definition downloadRequestShapes (c : Credentials) (fileId : string)
    : list (Request -> Prop) :=
  [ fun r => requestShape r
             = Some (downloadEndpoint, "GET", [("fileId", fileId); ("dt", "1")], []);
    fun r => requestShape r = Some (downloadEndpoint, "GET", [("fileId", fileId)], []);
    isApiSigned c "/open/file/getFileDownloadUrl.action" [("fileId", fileId); ("dt", "1")];
    isApiSigned c "/open/file/getFileDownloadUrl.action" [("fileId", fileId)] ].

Definition sendsOne (fn : M Json) (P : Request -> Prop) : Prop :=
  forall w, exists r, (fn w).2 = afterSending w [r] ∧ P r.

Lemma downloadUrlCandidates_shapes c fileId :
  Forall2 sendsOne (downloadUrlCandidates c fileId) (downloadRequestShapes c fileId).
Proof.
  unfold downloadUrlCandidates, downloadRequestShapes.
  repeat constructor; intros w;
    first [apply requestApiSigned_world | apply requestOpenApi_world].
Qed.

Lemma extractDownloadUrl_trimmed payload :
  JsString.trim (extractDownloadUrl payload) = extractDownloadUrl payload.
Proof.
  unfold extractDownloadUrl. destruct (_ || _); [done|]. cbv zeta.
  destruct (negb _); apply firstString_trimmed.
Qed.

(** The body of the [try] block of [getCloudFileDownloadUrl]. *)
Definition addressChecked (fn : M Json) : M Json :=
  payload <- fn ;;
  _ <- lift (ensureSuccessPayload (Some payload) "getFileDownloadUrl") ;;
  ret payload.

(** The address an answer gives, empty when it gives none. *)
Definition addressOf (outcome : Result Json) : string :=
  match outcome with
  | inr payload => extractDownloadUrl payload
  | inl _ => EmptyString
  end.

Lemma addressChecked_world (fn : M Json) (P : Request -> Prop) w :
  (exists r, (fn w).2 = afterSending w [r] ∧ P r) ->
  exists r, (addressChecked fn w).2 = afterSending w [r] ∧ P r.
Proof.
  intros Hfn.
  destruct (attempt_checked fn "getFileDownloadUrl" P w Hfn) as (r & outcome & Hrun & Hr).
  change (attempt (addressChecked fn) w = (inr outcome, afterSending w [r])) in Hrun.
  rewrite attempt_run in Hrun. injection Hrun as _ Hw. by exists r.
Qed.

Lemma tryDownloadCandidates_run candidates shapes attempts w res w' :
  Forall2 sendsOne candidates shapes ->
  tryDownloadCandidates candidates attempts w = (res, w') ->
  exists new,
    w' = afterSending w new
    ∧ Forall2 (fun P r => P r) (take (length new) shapes) new
    ∧ (length new <= length candidates)%nat
    ∧ (candidates <> [] -> new <> [])
    ∧ (forall url, res = inr url -> url <> EmptyString ∧ JsString.trim url = url)
    ∧ (forall err, res = inl err ->
         length new = length candidates
         ∧ exists failed,
             length failed = length candidates
             ∧ err = Error ("获取文件下载地址失败 attempts="
                            +:+ JSON_stringify (JArr (attempts ++ failed))))
    ∧ (forall url, res = inr url -> new <> [])
    ∧ (forall k fn,
         candidates !! k = Some fn -> (k < length new)%nat ->
         let found := addressOf (addressChecked fn (afterSending w (take k new))).1 in
         if (S k =? length new)%nat then
           match res with inr url => found = url | inl _ => found = EmptyString end
         else found = EmptyString).
Proof.
  intros Hshapes. revert attempts w.
  induction Hshapes as [|fn P rest shapes Hfn Hrest IH]; intros attempts w.
  - cbn [tryDownloadCandidates]. unfold throw. intros [= <- <-]. exists [].
    rewrite afterSending_nil. split; [done|]. split; [constructor|]. split; [done|].
    split; [done|]. split; [done|]. split.
    { intros err [= <-]. split; [done|]. exists []. by rewrite app_nil_r. }
    split; [done|]. intros k fn. by rewrite lookup_nil.
  - cbn [tryDownloadCandidates]. unfold bind at 1.
    change (attempt _ w) with (attempt (addressChecked fn) w). rewrite attempt_run.
    destruct (addressChecked_world fn P w (Hfn w)) as (r & Hw & Hr).
    destruct (addressChecked fn w) as [outcome w1] eqn:Hchecked.
    cbn [fst snd] in Hw |- *. subst w1.
    assert (forall attempts',
              addressOf outcome = EmptyString ->
              tryDownloadCandidates rest (attempts ++ [attempts']) (afterSending w [r])
              = (res, w') ->
              exists new,
                w' = afterSending w new
                ∧ Forall2 (fun P r => P r) (take (length new) (P :: shapes)) new
                ∧ (length new <= length (fn :: rest))%nat
                ∧ (fn :: rest <> [] -> new <> [])
                ∧ (forall url, res = inr url ->
                     url <> EmptyString ∧ JsString.trim url = url)
                ∧ (forall err, res = inl err ->
                     length new = length (fn :: rest)
                     ∧ exists failed,
                         length failed = length (fn :: rest)
                         ∧ err = Error ("获取文件下载地址失败 attempts="
                                        +:+ JSON_stringify (JArr (attempts ++ failed))))
                ∧ (forall url, res = inr url -> new <> [])
                ∧ (forall k fn',
                     (fn :: rest) !! k = Some fn' -> (k < length new)%nat ->
                     let found :=
                       addressOf (addressChecked fn' (afterSending w (take k new))).1 in
                     if (S k =? length new)%nat then
                       match res with
                       | inr url => found = url
                       | inl _ => found = EmptyString
                       end
                     else found = EmptyString))
      as Hmore.
    { intros attempts' Hnone Hrun.
      apply IH in Hrun as (new & -> & Hshape & Hlen & _ & Hurl & Herr & Hsome & Hstop).
      exists (r :: new). rewrite afterSending_app. split; [done|].
      split; [by constructor|]. split; [cbn; lia|]. split; [done|]. split; [done|].
      split.
      { intros err Hres. destruct (Herr err Hres) as (Hall & failed & Hfailed & ->).
        split; [cbn; lia|]. exists (attempts' :: failed). split; [cbn; lia|].
        by rewrite <- app_assoc. }
      split; [done|]. intros [|k] fn' Hfn' Hk; cbv zeta.
      - injection Hfn' as <-. cbn [take]. rewrite afterSending_nil, Hchecked. cbn [fst].
        destruct new as [|r' new']; [|exact Hnone].
        cbn [length Nat.eqb]. destruct res as [err|url]; [exact Hnone|].
        by destruct (Hsome url eq_refl).
      - cbn [take length Nat.eqb].
        change (r :: take k new) with ([r] ++ take k new).
        rewrite <- afterSending_app. apply (Hstop k fn' Hfn'). cbn in Hk. lia. }
    destruct outcome as [e|payload]; [by apply Hmore|]. cbv zeta.
    destruct (String.eqb (extractDownloadUrl payload) EmptyString) eqn:Hurl;
      cbn [negb].
    { apply Hmore. cbn [addressOf]. by apply String.eqb_eq. }
    unfold ret. intros [= <- <-]. exists [r]. split; [done|].
    split; [by repeat constructor|]. split; [cbn; lia|]. split; [done|].
    split.
    { intros url [= <-].
      split; [by apply String.eqb_neq|apply extractDownloadUrl_trimmed]. }
    split; [done|]. split; [done|].
    intros [|k] fn' Hfn' Hk; [|cbn in Hk; lia]. injection Hfn' as <-. cbv zeta.
    cbn [take length Nat.eqb]. rewrite afterSending_nil, Hchecked. reflexivity.
Qed.

(** [getCloudFileDownloadUrl] tries its four request shapes in order,
    two through the open API and two through the signed API, and stops
    at the first usable address: it sends between one and four
    requests, the k-th of the k-th shape; the answer to every request
    but the last gave no address, and the answer to the last gave the
    address that is returned, so that an answer with an address ends
    the search; an address it returns is trimmed and not empty; and
    when it fails all four were tried, none gave an address, and the
    error lists the four failed attempts. *)
Theorem getCloudFileDownloadUrl_four_shapes c fileId w res w' :
  getCloudFileDownloadUrl c fileId w = (res, w') ->
  exists new,
    w' = afterSending w new
    ∧ Forall2 (fun P r => P r) (take (length new) (downloadRequestShapes c fileId)) new
    ∧ (1 <= length new <= 4)%nat
    ∧ (forall url, res = inr url -> url <> EmptyString ∧ JsString.trim url = url)
    ∧ (forall err, res = inl err ->
         length new = 4%nat
         ∧ exists failed,
             length failed = 4%nat
             ∧ err = Error ("获取文件下载地址失败 attempts="
                            +:+ JSON_stringify (JArr failed)))
    ∧ (forall k fn,
         downloadUrlCandidates c fileId !! k = Some fn -> (k < length new)%nat ->
         let found := addressOf (addressChecked fn (afterSending w (take k new))).1 in
         (found <> EmptyString -> S k = length new ∧ res = inr found)
         ∧ (S k = length new ->
            match res with inr url => found = url | inl _ => found = EmptyString end)).
Proof.
  unfold getCloudFileDownloadUrl. intros Hrun.
  apply (tryDownloadCandidates_run _ _ _ _ _ _ (downloadUrlCandidates_shapes c fileId))
    in Hrun as (new & -> & Hshape & Hlen & Hne & Hurl & Herr & _ & Hstop).
  exists new. split; [done|]. split; [done|]. split.
  { specialize (Hne ltac:(done)). destruct new; [done|]. cbn in *. lia. }
  split; [done|]. split.
  { intros err Hres. destruct (Herr err Hres) as (Hall & failed & Hfailed & ->).
    split; [done|]. by exists failed. }
  intros k fn Hfn Hk. specialize (Hstop k fn Hfn Hk). cbv zeta in Hstop |- *.
  destruct (Nat.eqb_spec (S k) (length new)) as [Hlast|Hmiddle].
  - split; [|done]. intros Hfound. split; [done|].
    destruct res as [err|url]; [done|by rewrite Hstop].
  - split; [by intros Hfound|done].
Qed.
(** *** Further facts: ensuring a folder path *)

Definition isCreateRequest (r : Request) : Prop :=
  exists endpoint form,
    requestShape r = Some (endpoint, "POST", [], form)
    ∧ (endpoint = "/api/open/file/createFolder.action"
       ∨ endpoint = "/api/open/batch/createBatchTask.action").

Lemma tryCandidates_world c candidates attempts w res w' :
  tryCandidates c candidates attempts w = (res, w') ->
  exists new created,
    w' = afterSending w new
    ∧ res = inr (attempts ++ created)
    ∧ length created = length candidates
    ∧ Forall2 (fun item r => requestShape r = candidateShape item) candidates new.
Proof.
  revert attempts w. induction candidates as [|item rest IH]; intros attempts w.
  - cbn [tryCandidates]. unfold ret. intros [= <- <-]. exists [], [].
    rewrite afterSending_nil, app_nil_r. by repeat split.
  - cbn [tryCandidates]. unfold bind at 1, attempt, tryCandidate, bind, lift.
    destruct (requestOpenApi_world c (candEndpoint item) (candMethod item) []
                (candForm item) w) as (r & Hw & Hr).
    assert (requestShape r = candidateShape item) as Hshape by (by rewrite Hr).
    destruct (requestOpenApi c _ _ _ _ w) as [[e|payload] w1]; cbn [snd] in Hw; subst w1.
    + intros Hrun. apply IH in Hrun as (new & created & -> & -> & Hlen & Hall).
      eexists (r :: new), (_ :: created). rewrite afterSending_app, <- app_assoc.
      split; [done|]. split; [done|]. split; [cbn; lia|]. by constructor.
    + intros Hrun. apply IH in Hrun as (new & created & -> & -> & Hlen & Hall).
      eexists (r :: new), (_ :: created). rewrite afterSending_app, <- app_assoc.
      split; [done|]. split; [done|]. split; [cbn; lia|]. by constructor.
Qed.

Lemma createFolderCandidates_world c parentFolderId folderName w res w' :
  createFolderCandidates c parentFolderId folderName w = (res, w') ->
  exists new created,
    w' = afterSending w new
    ∧ res = inr created
    ∧ length created = 5%nat
    ∧ length new = 5%nat
    ∧ Forall isCreateRequest new.
Proof.
  unfold createFolderCandidates. intros Hrun.
  apply tryCandidates_world in Hrun as (new & created & -> & -> & Hlen & Hall).
  exists new, created. split; [done|]. split; [done|]. split; [done|].
  split; [by rewrite <- (Forall2_length _ _ _ Hall)|].
  unfold folderCandidates in Hall. cbv zeta in Hall.
  repeat match goal with
         | H : Forall2 _ (_ :: _) _ |- _ =>
             apply Forall2_cons_inv_l in H as (? & ? & ? & H & ->)
         | H : Forall2 _ [] _ |- _ => apply Forall2_nil_inv_l in H as ->
         end.
  repeat constructor; eexists _, _; (split; [eassumption|]); auto.
Qed.

(** One entry of the trace of [ensureFolderPath]: the folder was there,
    or it was created with five recorded attempts. *)
Definition ensureEntry (e : TraceEntry) : Prop :=
  step e = "ensure_folder" ∧ folder_name e <> EmptyString
  ∧ match attempts e with
    | Some tried => length tried = 5%nat ∧ created e = Some true ∧ found e = None
    | None => created e = Some false ∧ found e = Some true
    end.

Lemma ensureFolderLoop_run c parts parentFolderId trace w res w' :
  ensureFolderLoop c parts parentFolderId trace w = (res, w') ->
  exists new,
    w' = afterSending w new
    ∧ Forall (fun r => anyListing r ∨ isCreateRequest r) new
    ∧ (List.filter isNamed parts <> [] -> new <> [])
    ∧ (forall folderId result, res = inr (folderId, result) ->
         (parentFolderId <> EmptyString -> folderId <> EmptyString)
         ∧ exists added,
             result = trace ++ added
             ∧ Forall ensureEntry added
             ∧ map folder_name added
               = map normalizeFolderName (List.filter isNamed parts)).
Proof.
  revert parentFolderId trace w.
  induction parts as [|rawPart rest IH]; intros parentFolderId trace w.
  - cbn [ensureFolderLoop]. unfold ret. intros [= <- <-]. exists [].
    rewrite afterSending_nil. split; [done|]. split; [constructor|]. split; [done|].
    intros folderId result [= <- <-]. split; [done|]. exists []. by rewrite app_nil_r.
  - cbn [ensureFolderLoop List.filter]. cbv zeta.
    destruct (String.eqb (normalizeFolderName rawPart) EmptyString) eqn:Hname.
    { assert (isNamed rawPart = false) as -> by (unfold isNamed; by rewrite Hname).
      by apply IH. }
    assert (isNamed rawPart = true) as -> by (unfold isNamed; by rewrite Hname).
    apply String.eqb_neq in Hname. unfold bind at 1.
    destruct (listFolders c parentFolderId w) as [[e|folders] w1] eqn:Hlist;
      apply listFolders_run in Hlist as (new1 & -> & Hlen1 & Hpages1 & Hfolders).
    { intros [= <- <-]. exists new1. split; [done|].
      split; [|split; [by destruct new1; cbn in Hlen1; [lia|]|done]].
      eapply Forall_impl; [by eapply listing_pages|]. by left. }
    assert (Forall (fun r => anyListing r ∨ isCreateRequest r) new1) as Hnew1.
    { eapply Forall_impl; [by eapply listing_pages|]. by left. }
    assert (new1 <> []) as Hne1 by (destruct new1; cbn in Hlen1; [lia|done]).
    specialize (Hfolders folders eq_refl).
    assert (forall entry newer (f : Folder) folderList,
              Forall (fun f => id f <> EmptyString ∧ name f <> EmptyString) folderList ->
              findByName (normalizeFolderName rawPart) folderList = Some f ->
              Forall (fun r => anyListing r ∨ isCreateRequest r) newer ->
              newer <> [] ->
              ensureEntry entry -> folder_name entry = normalizeFolderName rawPart ->
              (if String.eqb (id f) EmptyString then throw (cannotLocate (normalizeFolderName rawPart))
               else ensureFolderLoop c rest (id f) (trace ++ [entry]))
                (afterSending w newer) = (res, w') ->
              exists new,
                w' = afterSending w new
                ∧ Forall (fun r => anyListing r ∨ isCreateRequest r) new
                ∧ new <> []
                ∧ (forall folderId result, res = inr (folderId, result) ->
                     (parentFolderId <> EmptyString -> folderId <> EmptyString)
                     ∧ exists added,
                         result = trace ++ added
                         ∧ Forall ensureEntry added
                         ∧ map folder_name added
                           = map normalizeFolderName (rawPart :: List.filter isNamed rest)))
      as Hnext.
    { intros entry newer f folderList Hlist Hfind Hnewer Hne Hentry Hfolder.
      assert (String.eqb (id f) EmptyString = false) as Hid.
      { apply String.eqb_neq. apply find_some in Hfind as [Hin _].
        rewrite Forall_forall in Hlist. by apply Hlist, list_elem_of_In. }
      rewrite Hid. intros Hrun. apply String.eqb_neq in Hid.
      apply IH in Hrun as (new2 & -> & Hnew2 & _ & Hres).
      exists (newer ++ new2). rewrite afterSending_app. split; [done|].
      split; [by apply Forall_app|]. split; [by destruct newer|].
      intros folderId result Hresult.
      destruct (Hres folderId result Hresult) as (Hfid & added & -> & Hadded & Hnames).
      split; [by auto|]. exists (entry :: added). rewrite <- app_assoc.
      split; [done|]. split; [by constructor|]. cbn [map]. by rewrite Hfolder, Hnames. }
    destruct (findByName (normalizeFolderName rawPart) folders) as [f|] eqn:Hfind.
    + intros Hrun.
      eapply (Hnext _ new1 f folders) in Hrun as (new & Hw & Hall & Hne & Hres);
        [|done|done|done|done|by repeat split|done].
      exists new. split; [done|]. split; [done|]. split; [done|done].
    + unfold bind at 1.
      destruct (createFolderCandidates c parentFolderId _ _) as [tried w2] eqn:Hcreate.
      apply createFolderCandidates_world in Hcreate
        as (new2 & created & -> & -> & Hlen & Hlen2 & Hnew2).
      rewrite afterSending_app. unfold bind at 1.
      destruct (listFolders c parentFolderId _) as [[e|refreshed] w3] eqn:Hlist;
        apply listFolders_run in Hlist as (new3 & -> & Hlen3 & Hpages3 & Hrefreshed);
        rewrite afterSending_app.
      { intros [= <- <-]. eexists. split; [done|]. split; [|split; [by destruct new1|done]].
        apply Forall_app. split; [apply Forall_app; split; [done|]|].
        - eapply Forall_impl; [exact Hnew2|]. by right.
        - eapply Forall_impl; [by eapply listing_pages|]. by left. }
      assert (Forall (fun r => anyListing r ∨ isCreateRequest r) ((new1 ++ new2) ++ new3))
        as Hall.
      { apply Forall_app. split; [apply Forall_app; split; [done|]|].
        - eapply Forall_impl; [exact Hnew2|]. by right.
        - eapply Forall_impl; [by eapply listing_pages|]. by left. }
      specialize (Hrefreshed refreshed eq_refl).
      destruct (findByName (normalizeFolderName rawPart) refreshed) as [f|] eqn:Hfound.
      * intros Hrun.
        eapply (Hnext _ ((new1 ++ new2) ++ new3) f refreshed) in Hrun
          as (new & Hw & Hall' & Hne & Hres);
          [|done|done|done|by destruct new1|by repeat split|done].
        exists new. split; [done|]. split; [done|]. split; [done|done].
      * unfold throw. intros [= <- <-]. eexists. split; [done|]. split; [done|].
        split; [by destruct new1|done].
Qed.

(** [ensureFolderPath] sends nothing but listing requests and folder
    creation requests to the two creation endpoints.  When it returns,
    the folder id is not empty and the trace has one entry for each
    segment that does not normalize to the empty string, in order, under
    its normalized name: the folder was found, or it was created and
    the entry records five attempts. *)
Theorem ensureFolderPath_trace c parts w res w' :
  ensureFolderPath c parts w = (res, w') ->
  exists new,
    w' = afterSending w new
    ∧ Forall (fun r => anyListing r ∨ isCreateRequest r) new
    ∧ (forall folderId result, res = inr (folderId, result) ->
         folderId <> EmptyString
         ∧ Forall ensureEntry result
         ∧ map folder_name result = map normalizeFolderName (List.filter isNamed parts)).
Proof.
  unfold ensureFolderPath. intros Hrun.
  apply ensureFolderLoop_run in Hrun as (new & -> & Hnew & _ & Hres).
  exists new. split; [done|]. split; [done|].
  intros folderId result Hresult.
  destruct (Hres folderId result Hresult) as (Hid & added & -> & Hadded & Hnames).
  split; [by apply Hid|]. by rewrite app_nil_l.
Qed.

(** *** Further facts: no commit before every part is stored *)

(** An upload commits last, and only after every part: the requests
    before the commit never include a commit; when there is no commit
    the upload failed; when there is one, it is the last request, it
    follows the PUT of every part of the file in order, and it is the
    only thing that can still fail.  A file that is not on disk is
    rejected with no request sent. *)
Theorem uploadFileSlices_commits_last
    c rsa localFilePath parentFolderId remoteName sliceSize w res w' :
  uploadFileSlices c rsa localFilePath parentFolderId remoteName sliceSize w = (res, w') ->
  exists earlier final,
    w' = afterSending w (earlier ++ final)
    ∧ Forall notCommit earlier
    ∧ (disk w !! localFilePath = None -> earlier = [] ∧ final = [])
    ∧ match final with
      | [] => exists err, res = inl err
      | [commit] =>
          exists content uploadFileId,
            disk w !! localFilePath = Some content
            ∧ commit = commitRequest c rsa uploadFileId content (chunkSizeOf sliceSize)
            ∧ omap putContent earlier
              = map (partBytes content (chunkSizeOf sliceSize))
                  (partNumbers (chunkCountOf (Z.of_nat (length content))
                                  (chunkSizeOf sliceSize)))
            ∧ omap (uploadForm "/person/getMultiUploadUrls") earlier
              = map (fun k => urlsForm uploadFileId
                                (partBytes content (chunkSizeOf sliceSize) k) k)
                  (partNumbers (chunkCountOf (Z.of_nat (length content))
                                  (chunkSizeOf sliceSize)))
      | _ => False
      end.
Proof.
  unfold uploadFileSlices.
  destruct (disk w !! localFilePath) as [content|] eqn:Hdisk.
  2:{ destruct (bool_decide _); unfold throw; intros [= <- <-]; exists [], [];
        rewrite afterSending_nil; (split; [done|]); (split; [constructor|]);
        (split; [done|]); by eexists. }
  cbv zeta.
  set (chunkSize := chunkSizeOf sliceSize).
  set (fileSize := Z.of_nat (length content)).
  match goal with
  | |- context [uploadRequest c rsa "/person/initMultiUpload" ?form] =>
      set (initForm := form)
  end.
  set (init := UploadRequest (cookie c) (sessionKey c) "/person/initMultiUpload"
                 initForm (pkId rsa)).
  assert (notCommit init) as Hinit by reflexivity.
  unfold bind at 1.
  pose proof (uploadRequest_world c rsa "/person/initMultiUpload" initForm w) as Hw0.
  destruct (uploadRequest c rsa "/person/initMultiUpload" initForm w)
    as [[e|initPayload] w0]; cbn [snd] in Hw0; subst w0.
  { intros [= <- <-]. exists [init], []. split; [done|]. split; [by constructor|].
    split; [done|]. by eexists. }
  set (uploadFileId := firstString _).
  destruct (String.eqb uploadFileId EmptyString).
  { unfold throw. intros [= <- <-]. exists [init], []. split; [done|].
    split; [by constructor|]. split; [done|]. by eexists. }
  unfold bind at 1.
  destruct (uploadParts c rsa uploadFileId content chunkSize _ 1 [] [] _)
    as [[e|state] w1] eqn:Hparts;
    apply uploadParts_run in Hparts as (new1 & -> & Hnc1 & Hok1);
    rewrite afterSending_app.
  { intros [= <- <-]. exists ([init] ++ new1), []. rewrite app_nil_r. split; [done|].
    split; [by constructor|]. split; [done|]. by eexists. }
  destruct (Hok1 state eq_refl) as (Hhex & Hbytes & Hput & Hurls).
  rewrite app_nil_l in Hhex, Hbytes.
  assert (0 < chunkSize) as HC by (pose proof (chunkSizeOf_floor sliceSize); lia).
  assert (state.2 = content) as Hall.
  { rewrite Hbytes. by apply partBytes_cover. }
  assert (sliceMd5Of fileSize chunkSize (MD5.hex (md5Of state.2)) state.1
          = sliceMd5Spec content chunkSize) as Hslice.
  { unfold sliceMd5Of, sliceMd5Spec. fold fileSize. by rewrite Hall, Hhex. }
  rewrite Hslice, Hall. clear Hslice.
  change "/person/commitMultiUploadFile" with commitUri.
  unfold bind at 1.
  pose proof (uploadRequest_world c rsa commitUri
                (commitForm uploadFileId (MD5.hex (md5Of content))
                   (sliceMd5Spec content chunkSize))
                (afterSending w ([init] ++ new1))) as Hw2.
  fold (commitRequest c rsa uploadFileId content chunkSize) in Hw2.
  assert (exists earlier final,
            afterSending w (([init] ++ new1)
                            ++ [commitRequest c rsa uploadFileId content chunkSize])
            = afterSending w (earlier ++ final)
            ∧ Forall notCommit earlier
            ∧ (Some content = None -> earlier = [] ∧ final = [])
            ∧ match final with
              | [] => exists err, res = inl err
              | [commit] =>
                  exists content0 uploadFileId0,
                    Some content = Some content0
                    ∧ commit = commitRequest c rsa uploadFileId0 content0 chunkSize
                    ∧ omap putContent earlier
                      = map (partBytes content0 chunkSize)
                          (partNumbers (chunkCountOf (Z.of_nat (length content0))
                                          chunkSize))
                    ∧ omap (uploadForm "/person/getMultiUploadUrls") earlier
                      = map (fun k => urlsForm uploadFileId0
                                        (partBytes content0 chunkSize k) k)
                          (partNumbers (chunkCountOf (Z.of_nat (length content0))
                                          chunkSize))
              | _ => False
              end) as Hdone.
  { exists ([init] ++ new1), [commitRequest c rsa uploadFileId content chunkSize].
    split; [done|]. split; [by constructor|]. split; [done|].
    exists content, uploadFileId. split; [done|]. split; [done|].
    rewrite !omap_app, Hput, Hurls. by split. }
  destruct (uploadRequest c rsa commitUri _ _) as [[e|commitPayload] w2];
    cbn [snd] in Hw2; subst w2; rewrite afterSending_app.
  - by intros [= <- <-].
  - unfold ret. by intros [= <- <-].
Qed.

(** *** Further facts: the actions check their input first *)

Lemma getRsaKey_world c w res w' :
  getRsaKey c w = (res, w') -> exists new, w' = afterSending w new.
Proof.
  unfold getRsaKey. intros Hrun.
  apply tryRsaCandidates_run in Hrun as (new & -> & _). by exists new.
Qed.

Lemma getCloudFileDownloadUrl_world c fileId w res w' :
  getCloudFileDownloadUrl c fileId w = (res, w') ->
  exists new,
    w' = afterSending w new ∧ new <> []
    ∧ (forall url, res = inr url -> url <> EmptyString).
Proof.
  unfold getCloudFileDownloadUrl. intros Hrun.
  apply (tryDownloadCandidates_run _ _ _ _ _ _ (downloadUrlCandidates_shapes c fileId))
    in Hrun as (new & -> & _ & _ & Hne & Hurl & _).
  exists new. split; [done|]. split; [by apply Hne|].
  intros url Hres. by destruct (Hurl url Hres).
Qed.

Lemma downloadUrlToFile_sent c downloadUrl localFilePath w res w' :
  downloadUrlToFile c downloadUrl localFilePath w = (res, w') ->
  exists new, sent w' = sent w ++ new.
Proof.
  unfold downloadUrlToFile. cbv zeta.
  destruct (String.eqb _ EmptyString).
  { unfold throw. intros [= <- <-]. exists []. by rewrite app_nil_r. }
  unfold bind at 1, mkdirSync. unfold bind at 1.
  match goal with |- context [fetch ?r ?w0] => pose proof (fetch_world r w0) as Hw end.
  destruct (fetch _ _) as [[e|resp] w1]; cbn [snd] in Hw; subst w1.
  { intros [= <- <-]. by eexists. }
  destruct (ok resp), (body resp) as [stream|];
    try (unfold throw; intros [= <- <-]; by eexists).
  unfold bind at 1, pipeline. destruct (streamError stream).
  { intros [= <- <-]. by eexists. }
  unfold bind, statSize, ret, throw. cbn [disk sent].
  destruct (_ !! _); intros [= <- <-]; by eexists.
Qed.

Lemma uploadFileSlices_world c rsa localFilePath parentFolderId remoteName sliceSize
    w content res w' :
  disk w !! localFilePath = Some content ->
  uploadFileSlices c rsa localFilePath parentFolderId remoteName sliceSize w = (res, w') ->
  exists new,
    w' = afterSending w new
    ∧ (forall info, res = inr info ->
         uploadedSize info = Z.of_nat (length content)
         ∧ chunkCount info
           = chunkCountOf (Z.of_nat (length content)) (chunkSizeOf sliceSize)).
Proof.
  intros Hdisk Hrun.
  destruct (uploadFileSlices_run _ _ _ _ _ _ _ _ _ _ Hdisk Hrun) as (new & -> & _ & Hok).
  exists new. split; [done|]. intros info Hres.
  by destruct (Hok info Hres) as (-> & -> & _).
Qed.

Lemma savesFolder_named : isNamed (Some (JStr "FreedeckCloudSaves")) = true.
Proof. vm_compute. reflexivity. Qed.

Lemma ensureFolderPath_saves c remoteFolderParts w res w' :
  ensureFolderPath c (folderParts remoteFolderParts) w = (res, w') ->
  exists new,
    w' = afterSending w new ∧ new <> []
    ∧ (forall folderId trace, res = inr (folderId, trace) ->
         folderId <> EmptyString ∧ Forall ensureEntry trace).
Proof.
  unfold ensureFolderPath. intros Hrun.
  apply ensureFolderLoop_run in Hrun as (new & -> & _ & Hne & Hres).
  exists new. split; [done|]. split.
  { apply Hne. unfold folderParts. cbn [List.filter]. by rewrite savesFolder_named. }
  intros folderId trace Hresult.
  destruct (Hres folderId trace Hresult) as (Hid & added & -> & Hadded & _).
  split; [by apply Hid|]. by rewrite app_nil_l.
Qed.

Definition missing (field : string) : Exn := Error ("缺少 " +:+ field).

(** [runDownloadFile] checks its five inputs before anything else: when
    one of them is blank it throws, naming the field, with nothing sent
    and nothing written; otherwise it sends at least one request, and
    the data it returns carries the file id asked for and a download
    address that is not empty. *)
Theorem runDownloadFile_checks_input payload w res w' :
  runDownloadFile payload w = (res, w') ->
  let c := credentialsOf payload in
  let fileId := JsString.trim (stringOr (getProp payload "file_id")) in
  let localFilePath := JsString.trim (stringOr (getProp payload "local_file_path")) in
  if String.eqb (cookie c) EmptyString || String.eqb (accessToken c) EmptyString
     || String.eqb (sessionKey c) EmptyString || String.eqb fileId EmptyString
     || String.eqb localFilePath EmptyString
  then
    w' = w
    ∧ exists field,
        res = inl (missing field)
        ∧ field ∈ ["cookie"; "access_token"; "session_key"; "file_id"; "local_file_path"]
  else
    exists new,
      sent w' = sent w ++ new ∧ new <> []
      ∧ (forall data, res = inr data ->
           exists url info, data = DownloadData fileId url info ∧ url <> EmptyString).
Proof.
  unfold runDownloadFile. cbv zeta.
  destruct (String.eqb (cookie _) _).
  { unfold throw. intros [= <- <-]. split; [done|]. exists "cookie". split; [done|].
    by repeat constructor. }
  destruct (String.eqb (accessToken _) _).
  { unfold throw. intros [= <- <-]. split; [done|]. exists "access_token".
    split; [done|]. by repeat constructor. }
  destruct (String.eqb (sessionKey _) _).
  { unfold throw. intros [= <- <-]. split; [done|]. exists "session_key".
    split; [done|]. by repeat constructor. }
  destruct (String.eqb (JsString.trim (stringOr (getProp payload "file_id"))) _).
  { unfold throw. intros [= <- <-]. split; [done|]. exists "file_id".
    split; [done|]. by repeat constructor. }
  destruct (String.eqb (JsString.trim (stringOr (getProp payload "local_file_path"))) _).
  { unfold throw. intros [= <- <-]. split; [done|]. exists "local_file_path".
    split; [done|]. by repeat constructor. }
  cbn [orb]. unfold bind at 1.
  destruct (getCloudFileDownloadUrl _ _ w) as [[e|url] w1] eqn:Hurl;
    apply getCloudFileDownloadUrl_world in Hurl as (new1 & -> & Hne & Hok).
  { intros [= <- <-]. by exists new1. }
  unfold bind at 1.
  destruct (downloadUrlToFile _ _ _ _) as [[e|info] w2] eqn:Hfile;
    apply downloadUrlToFile_sent in Hfile as (new2 & Hsent); cbn [afterSending sent] in Hsent.
  { intros [= <- <-]. exists (new1 ++ new2). rewrite Hsent, app_assoc.
    split; [done|]. split; [by destruct new1|done]. }
  unfold ret. intros [= <- <-]. exists (new1 ++ new2). rewrite Hsent, app_assoc.
  split; [done|]. split; [by destruct new1|]. intros data [= <-].
  eexists _, _. split; [done|]. by apply Hok.
Qed.

(** [runUpload] checks the credentials and the file before anything
    else: when a credential is blank or the file is not on disk it
    throws with nothing sent; otherwise it sends at least one request,
    never touches the disk, and the data it returns names a folder id
    that is not empty, the size of the file and the number of parts
    that size gives. *)
Theorem runUpload_checks_input payload w res w' :
  runUpload payload w = (res, w') ->
  let c := credentialsOf payload in
  let localFilePath :=
    pathResolve (JsString.trim (stringOr (getProp payload "local_file_path"))) in
  if String.eqb (cookie c) EmptyString || String.eqb (accessToken c) EmptyString
     || String.eqb (sessionKey c) EmptyString || String.eqb localFilePath EmptyString
     || negb (bool_decide (is_Some (disk w !! localFilePath)))
  then
    w' = w
    ∧ exists message,
        res = inl (Error message)
        ∧ message ∈ ["缺少 cookie"; "缺少 access_token"; "缺少 session_key";
                     "待上传文件不存在"]
  else
    exists new content,
      w' = afterSending w new ∧ new <> []
      ∧ disk w !! localFilePath = Some content
      ∧ (forall data, res = inr data ->
           exists folderId cloudPath remoteName userFile trace,
             data = UploadData folderId cloudPath remoteName userFile
                      (Z.of_nat (length content))
                      (chunkCountOf (Z.of_nat (length content)) (chunkSizeOf None)) trace
             ∧ folderId <> EmptyString
             ∧ Forall ensureEntry trace).
Proof.
  unfold runUpload. cbv zeta.
  destruct (String.eqb (cookie _) _).
  { unfold throw. intros [= <- <-]. split; [done|]. eexists. split; [done|]. by repeat constructor. }
  destruct (String.eqb (accessToken _) _).
  { unfold throw. intros [= <- <-]. split; [done|]. eexists. split; [done|]. by repeat constructor. }
  destruct (String.eqb (sessionKey _) _).
  { unfold throw. intros [= <- <-]. split; [done|]. eexists. split; [done|]. by repeat constructor. }
  cbn [orb]. unfold bind at 1, isFileOnDisk.
  set (localFilePath :=
         pathResolve (JsString.trim (stringOr (getProp payload "local_file_path")))).
  destruct (String.eqb localFilePath EmptyString); cbn [orb].
  { unfold throw. intros [= <- <-]. split; [done|]. eexists. split; [done|]. by repeat constructor. }
  destruct (bool_decide (is_Some (disk w !! localFilePath))) eqn:Hdisk; cbn [negb].
  2:{ unfold throw. intros [= <- <-]. split; [done|]. eexists. split; [done|].
      by repeat constructor. }
  apply bool_decide_eq_true in Hdisk as [content Hdisk].
  unfold bind at 1.
  destruct (ensureFolderPath _ _ w) as [[e|folderInfo] w1] eqn:Hensure;
    apply ensureFolderPath_saves in Hensure as (new1 & -> & Hne & Hfolder).
  { intros [= <- <-]. by exists new1, content. }
  destruct folderInfo as [folderId trace].
  destruct (Hfolder folderId trace eq_refl) as (Hid & Hadded).
  unfold bind at 1.
  destruct (getRsaKey _ _) as [[e|rsa] w2] eqn:Hrsa;
    apply getRsaKey_world in Hrsa as (new2 & ->); rewrite afterSending_app.
  { intros [= <- <-]. exists (new1 ++ new2), content. split; [done|].
    split; [by destruct new1|done]. }
  unfold bind at 1. cbn [fst snd].
  destruct (uploadFileSlices _ _ _ _ _ _ _) as [[e|info] w3] eqn:Hupload;
    eapply uploadFileSlices_world in Hupload as (new3 & -> & Hinfo); try exact Hdisk;
    rewrite afterSending_app.
  { intros [= <- <-]. exists ((new1 ++ new2) ++ new3), content. split; [done|].
    split; [by destruct new1|done]. }
  unfold ret. intros [= <- <-]. exists ((new1 ++ new2) ++ new3), content.
  split; [done|]. split; [by destruct new1|]. split; [done|].
  intros data [= <-]. destruct (Hinfo info eq_refl) as (-> & ->).
  by eexists _, _, _, _, _.
Qed.

(** The action a payload asks for: [upload] when it names none. *)
Definition actionOf (input : Json) : string :=
  let payload := if truthy (Some input) then Some input else Some (JObj []) in
  JsString.toLowerCase
    (JsString.trim (if truthy (getProp payload "action")
                    then String_ (getProp payload "action") else "upload")).

(** Input that is not JSON, or that asks for an action other than the
    three known ones, ends the process with one failure object, exit
    status 1 and nothing sent or written; the failure of an unknown
    action names it. *)
Theorem main_rejects_unknown_input stdin w :
  match JSON_parse stdin with
  | None =>
      exists text,
        main stdin w
        = ({| stdout := [EmitFailure text {| error_type := "SyntaxError"; message := text |}];
              exitCode := 1 |}, w)
  | Some input =>
      actionOf input ∉ ["upload"; "list_versions"; "download_file"] ->
      main stdin w
      = ({| stdout :=
              [EmitFailure (shortText ("不支持的 action: " +:+ actionOf input))
                 {| error_type := "Error";
                    message := shortText ("不支持的 action: " +:+ actionOf input) |}];
            exitCode := 1 |}, w)
  end.
Proof.
  unfold main, dispatch, readStdinJson, bind at 1.
  destruct (JSON_parse stdin) as [input|].
  - intros Hnot. unfold ret. cbv zeta. fold (actionOf input).
    destruct (String.eqb (actionOf input) "upload") eqn:H1.
    { apply String.eqb_eq in H1. rewrite H1 in Hnot. destruct Hnot. by repeat constructor. }
    destruct (String.eqb (actionOf input) "list_versions") eqn:H2.
    { apply String.eqb_eq in H2. rewrite H2 in Hnot. destruct Hnot. by repeat constructor. }
    destruct (String.eqb (actionOf input) "download_file") eqn:H3.
    { apply String.eqb_eq in H3. rewrite H3 in Hnot. destruct Hnot. by repeat constructor. }
    unfold throw. cbv beta iota zeta. done.
  - by eexists.
Qed.

(** *** Further facts: what an open-API request signs *)

Lemma formValue_assign k k' v (obj : list (string * string)) :
  formValue k (assign obj k' v)
  = if String.eqb k k' then Some v else formValue k obj.
Proof.
  induction obj as [|[k0 v0] rest IH]; cbn [assign formValue].
  - by destruct (String.eqb k k').
  - destruct (String.eqb k' k0) eqn:Hk'; cbn [formValue].
    + apply String.eqb_eq in Hk' as <-. by destruct (String.eqb k k').
    + rewrite IH. destruct (String.eqb k k0) eqn:Hk0; [|done].
      apply String.eqb_eq in Hk0 as ->. destruct (String.eqb k0 k') eqn:Hkk; [|done].
      apply String.eqb_eq in Hkk as ->. by rewrite String.eqb_refl in Hk'.
Qed.

(** In [{ ...base, ...extra }] a key of [extra] wins, and its last
    occurrence there. *)
Lemma formValue_spread k (base extra : list (string * string)) :
  formValue k (spread base extra)
  = match formValue k (rev extra) with
    | Some v => Some v
    | None => formValue k base
    end.
Proof.
  unfold spread. revert base. induction extra as [|[k' v'] extra IH] using rev_ind; intros base.
  - done.
  - rewrite foldl_app, rev_app_distr. cbn [foldl rev app fst snd formValue].
    rewrite formValue_assign. destruct (String.eqb k k'); [done|]. apply IH.
Qed.

(** The parameters [requestOpenApi] signs. *)
Definition openApiSigned (method : string) (query form : list (string * string))
    (ts : string) : list (string * string) :=
  spread (if String.eqb (JsString.toUpperCase method) "GET" then query
          else spread query form)
    [("Timestamp", ts); ("AppKey", APP_KEY)].

(** [requestOpenApi] sends one request, whose signature is taken over
    parameters in which [Timestamp] is the time stamp the request
    carries, read before sending, and [AppKey] the application key,
    whatever the query and the form say under those names; every other
    name has the value of the form if the form has it and the method is
    not GET, and the value of the query otherwise. *)
Theorem requestOpenApi_signed_parameters c endpoint method query form w :
  let ts := JsString.ofZ (nowMs (sent w)) in
  let isGet := String.eqb (JsString.toUpperCase method) "GET" in
  let signed := openApiSigned method query form ts in
  (requestOpenApi c endpoint method query form w).2
  = afterSending w
      [OpenApiRequest (cookie c) (sessionKey c) endpoint (JsString.toUpperCase method) query
         (if isGet then [] else form) ts
         (Signing.md5Signature localeCompare (asParams signed))]
  ∧ formValue "Timestamp" signed = Some ts
  ∧ formValue "AppKey" signed = Some APP_KEY
  ∧ (forall k, k <> "Timestamp" -> k <> "AppKey" ->
       formValue k signed
       = match (if isGet then None else formValue k (rev form)) with
         | Some v => Some v
         | None => formValue k query
         end).
Proof.
  cbv zeta. split; [|split; [|split]].
  - unfold requestOpenApi, bind at 1, now. cbv zeta. unfold bind. fold (openApiSigned method query form (JsString.ofZ (nowMs (sent w)))).
    match goal with |- context [fetch ?r w] => rewrite <- (fetch_world r w) end.
    destruct (fetch _ w) as [[e|resp] w1]; [done|]. cbn [snd].
    destruct (negb (ok resp)); [done|]. by destruct (negb _).
  - unfold openApiSigned. by rewrite formValue_spread.
  - unfold openApiSigned. by rewrite formValue_spread.
  - intros k Hts Hkey. unfold openApiSigned. rewrite formValue_spread.
    cbn [rev app formValue].
    apply String.eqb_neq in Hts, Hkey. rewrite Hts, Hkey.
    destruct (String.eqb (JsString.toUpperCase method) "GET"); [done|].
    by rewrite formValue_spread.
Qed.

(** *** Further facts: the headers of a part upload *)

Definition headerText (e : string * string) : string := e.1 +:+ "=" +:+ e.2.

(** A header the server can hand out in [requestHeader]: a name that is
    not empty and has no [=] and no [&], and a value without [&]. *)
Definition plainHeader (e : string * string) : Prop :=
  e.1 <> EmptyString ∧ indexOf "=" e.1 = None ∧ indexOf "&" e.1 = None
  ∧ indexOf "&" e.2 = None.

Definition headerStep (headers : list (string * string)) (pair : string)
    : list (string * string) :=
  match indexOf "=" pair with
  | Some (S idx) =>
      setHeader headers (substring 0 (S idx) pair)
        (substring (S (S idx)) (String.length pair) pair)
  | _ => headers
  end.

Lemma indexOf_cons ch c s :
  indexOf ch (String c s) = if Ascii.eqb c ch then Some O else S <$> indexOf ch s.
Proof. done. Qed.

Lemma indexOf_app_none ch a b :
  indexOf ch a = None ->
  indexOf ch (a +:+ b)
  = match indexOf ch b with
    | Some n => Some (String.length a + n)%nat
    | None => None
    end.
Proof.
  induction a as [|c a IH]; intros Ha.
  - change (EmptyString +:+ b) with b. by destruct (indexOf ch b).
  - rewrite indexOf_cons in Ha. change (String c a +:+ b) with (String c (a +:+ b)).
    rewrite indexOf_cons.
    destruct (Ascii.eqb c ch); [done|].
    destruct (indexOf ch a) eqn:Hrest; [done|]. rewrite IH by done.
    cbn [String.length]. by destruct (indexOf ch b).
Qed.

Lemma splitOn_none sep s : indexOf sep s = None -> splitOn sep s = [s].
Proof.
  induction s as [|c s IH]; [done|]. rewrite indexOf_cons. cbn [splitOn].
  destruct (Ascii.eqb c sep); [done|].
  destruct (indexOf sep s); [done|]. intros _. by rewrite IH.
Qed.

Lemma splitOn_app sep a b :
  indexOf sep a = None -> splitOn sep (a +:+ String sep b) = a :: splitOn sep b.
Proof.
  induction a as [|c a IH]; intros Ha.
  - change (EmptyString +:+ String sep b) with (String sep b).
    cbn [splitOn]. by rewrite Ascii.eqb_refl.
  - rewrite indexOf_cons in Ha.
    change (String c a +:+ String sep b) with (String c (a +:+ String sep b)).
    cbn [splitOn].
    destruct (Ascii.eqb c sep); [done|].
    destruct (indexOf sep a); [done|]. by rewrite IH.
Qed.

Lemma splitOn_join (items : list string) :
  items <> [] ->
  Forall (fun s => indexOf "&" s = None) items ->
  splitOn "&" (JsString.join "&" items) = items.
Proof.
  induction items as [|x [|y rest] IH]; [done| |]; intros _ Hall.
  - apply splitOn_none. by inversion Hall.
  - inversion Hall as [|? ? Hx Hrest]; subst.
    change (JsString.join "&" (x :: y :: rest))
      with (x +:+ String "&" (JsString.join "&" (y :: rest))).
    rewrite splitOn_app by done. by rewrite IH.
Qed.

Lemma substring_all (n : nat) (s : string) :
  (String.length s <= n)%nat -> substring 0 n s = s.
Proof.
  revert n. induction s as [|c s IH]; intros [|n] Hn; cbn in *; try done; [lia|].
  rewrite IH; [done|lia].
Qed.

Lemma substring_front (k rest : string) :
  substring 0 (String.length k) (k +:+ rest) = k.
Proof.
  induction k as [|c k IH].
  - change (EmptyString +:+ rest) with rest. cbn [String.length]. by destruct rest.
  - change (String c k +:+ rest) with (String c (k +:+ rest)).
    cbn [String.length substring]. by rewrite IH.
Qed.

Lemma substring_back (k rest : string) (c : ascii) (n : nat) :
  (String.length rest <= n)%nat ->
  substring (S (String.length k)) n (k +:+ String c rest) = rest.
Proof.
  intros Hn. induction k as [|c' k IH].
  - change (EmptyString +:+ String c rest) with (String c rest).
    cbn [String.length substring]. by apply substring_all.
  - change (String c' k +:+ String c rest) with (String c' (k +:+ String c rest)).
    cbn [String.length substring]. exact IH.
Qed.

Lemma length_append (a b : string) :
  String.length (a +:+ b) = (String.length a + String.length b)%nat.
Proof.
  induction a as [|c a IH]; [done|].
  change (String c a +:+ b) with (String c (a +:+ b)). cbn [String.length Nat.add].
  by rewrite IH.
Qed.

Lemma headerStep_plain headers e :
  plainHeader e -> headerStep headers (headerText e) = setHeader headers e.1 e.2.
Proof.
  destruct e as [k v]. intros (Hk & Heq & _ & _). cbn [fst snd] in *.
  unfold headerStep, headerText. cbn [fst snd].
  change (k +:+ "=" +:+ v) with (k +:+ String "=" v).
  rewrite indexOf_app_none by done. rewrite indexOf_cons, Ascii.eqb_refl.
  rewrite Nat.add_0_r. destruct k as [|c k]; [done|]. cbn [String.length].
  change (S (String.length k)) with (String.length (String c k)).
  rewrite substring_front, substring_back; [done|].
  rewrite length_append. cbn. lia.
Qed.

Lemma headerText_no_separator e : plainHeader e -> indexOf "&" (headerText e) = None.
Proof.
  destruct e as [k v]. intros (_ & _ & Hk & Hv). cbn [fst snd] in *.
  unfold headerText. cbn [fst snd].
  change (k +:+ "=" +:+ v) with (k +:+ String "=" v).
  rewrite indexOf_app_none by done. rewrite indexOf_cons.
  change (Ascii.eqb "=" "&") with false. cbv iota. by rewrite Hv.
Qed.

Lemma formValue_setHeader k key value (headers : list (string * string)) :
  formValue k (setHeader headers key value)
  = if String.eqb key "__proto__" then formValue k headers
    else if String.eqb k key then Some value else formValue k headers.
Proof.
  unfold setHeader. destruct (String.eqb key "__proto__"); [done|].
  apply formValue_assign.
Qed.

Lemma setHeader_names key value (headers : list (string * string)) :
  key <> EmptyString ->
  Forall (fun e => e.1 <> EmptyString ∧ e.1 <> "__proto__") headers ->
  Forall (fun e => e.1 <> EmptyString ∧ e.1 <> "__proto__") (setHeader headers key value).
Proof.
  intros Hkey Hall. unfold setHeader.
  destruct (String.eqb key "__proto__") eqn:Hproto; [done|].
  apply String.eqb_neq in Hproto.
  induction Hall as [|[k' v'] rest Hhead Hrest IH]; cbn [assign].
  - by repeat constructor.
  - destruct (String.eqb key k'); by constructor.
Qed.

Lemma headers_read (pairs acc : list (string * string)) :
  Forall plainHeader pairs ->
  Forall (fun e => e.1 <> EmptyString ∧ e.1 <> "__proto__") acc ->
  (forall k,
     formValue k (foldl headerStep acc (map headerText pairs))
     = if String.eqb k "__proto__" then formValue k acc
       else match formValue k (rev pairs) with
            | Some v => Some v
            | None => formValue k acc
            end)
  ∧ Forall (fun e => e.1 <> EmptyString ∧ e.1 <> "__proto__")
      (foldl headerStep acc (map headerText pairs)).
Proof.
  intros Hplain. revert acc.
  induction Hplain as [|[key value] pairs Hpair Hpairs IH]; intros acc Hacc.
  - split; [|done]. intros k. cbn. by destruct (String.eqb k "__proto__").
  - cbn [map foldl]. rewrite headerStep_plain by done. cbn [fst snd].
    destruct (IH (setHeader acc key value)) as [Hvalues Hnames].
    { apply setHeader_names; [by destruct Hpair|done]. }
    split; [|done]. intros k. rewrite Hvalues, formValue_setHeader.
    cbn [rev]. clear.
    assert (formValue k (rev pairs ++ [(key, value)])
            = match formValue k (rev pairs) with
              | Some v => Some v
              | None => if String.eqb k key then Some value else None
              end) as ->.
    { induction (rev pairs) as [|[k0 v0] l IHl]; cbn [app formValue]; [done|].
      by destruct (String.eqb k k0). }
    destruct (String.eqb k "__proto__") eqn:Hk.
    + apply String.eqb_eq in Hk as ->.
      destruct (String.eqb key "__proto__") eqn:Hkey; [done|].
      by rewrite String.eqb_sym, Hkey.
    + destruct (formValue k (rev pairs)); [done|].
      destruct (String.eqb key "__proto__") eqn:Hkey; [|by destruct (String.eqb k key)].
      apply String.eqb_eq in Hkey as ->. by rewrite Hk.
Qed.

(** [parseRequestHeaderPairs] reads back the headers of a
    [name=value&name=value] text: each name has the value of its last
    occurrence, a value may itself contain [=], no header it returns
    has an empty name, and the name [__proto__], which on a plain
    object is no property, gives no header. *)
Theorem parseRequestHeaderPairs_reads_pairs rawHeader pairs :
  decodeURIComponent (stringOr rawHeader)
  = Some (JsString.join "&" (map headerText pairs)) ->
  Forall plainHeader pairs ->
  exists headers,
    parseRequestHeaderPairs rawHeader = inr headers
    ∧ (forall k,
         formValue k headers
         = if String.eqb k "__proto__" then None else formValue k (rev pairs))
    ∧ Forall (fun e => e.1 <> EmptyString ∧ e.1 <> "__proto__") headers.
Proof.
  intros Htext Hplain. unfold parseRequestHeaderPairs. rewrite Htext.
  change (foldl _ [] (splitOn "&" (JsString.join "&" (map headerText pairs))))
    with (foldl headerStep [] (splitOn "&" (JsString.join "&" (map headerText pairs)))).
  eexists. split; [done|].
  assert (foldl headerStep [] (splitOn "&" (JsString.join "&" (map headerText pairs)))
          = foldl headerStep [] (map headerText pairs)) as ->.
  { destruct pairs as [|e pairs]; [done|].
    rewrite splitOn_join; [done|done|].
    apply Forall_fmap. eapply Forall_impl; [exact Hplain|].
    intros e' He'. by apply headerText_no_separator. }
  destruct (headers_read pairs [] Hplain (Forall_nil_2 _)) as [Hvalues Hnames].
  split; [|done]. intros k. rewrite Hvalues. cbn [formValue].
  destruct (String.eqb k "__proto__"); [done|]. by destruct (formValue k (rev pairs)).
Qed.

(** *** Facts: blank segments and separators in a folder path *)

Lemma normalizeSeparators_run run rest :
  run <> EmptyString ->
  Forall (fun ch => isSeparator ch = true) (list_ascii_of_string run) ->
  (forall ch tail, rest = String ch tail -> isSeparator ch = false) ->
  normalizeSeparators (run +:+ rest) = String "_" (normalizeSeparators rest).
Proof.
  intros Hrun Hall Hrest. induction run as [|ch run IH]; [done|].
  inversion Hall as [|? ? Hch Hmore]; subst.
  change (String ch run +:+ rest) with (String ch (run +:+ rest)).
  rewrite normalizeSeparators_cons, Hch.
  destruct run as [|ch' run'].
  - change (EmptyString +:+ rest) with rest.
    destruct rest as [|c tail]; [done|]. by rewrite (Hrest c tail eq_refl).
  - change (String ch' run' +:+ rest) with (String ch' (run' +:+ rest)).
    inversion Hmore as [|? ? Hch' _]; subst. rewrite Hch'.
    change (String ch' (run' +:+ rest)) with (String ch' run' +:+ rest).
    by apply IH.
Qed.

Lemma normalizeSeparators_prefix clean s :
  Forall (fun ch => isSeparator ch = false) (list_ascii_of_string clean) ->
  normalizeSeparators (clean +:+ s) = clean +:+ normalizeSeparators s.
Proof.
  induction clean as [|ch clean IH]; [done|]. intros Hall.
  inversion Hall as [|? ? Hch Hmore]; subst.
  change (String ch clean +:+ s) with (String ch (clean +:+ s)).
  rewrite normalizeSeparators_cons, Hch, (IH Hmore). reflexivity.
Qed.

Lemma trim_separators run :
  run <> EmptyString ->
  Forall (fun ch => isSeparator ch = true) (list_ascii_of_string run) ->
  normalizeFolderName (Some (JStr run)) = "_".
Proof.
  intros Hrun Hall. unfold normalizeFolderName.
  assert (stringOr (Some (JStr run)) = run) as -> by (by destruct run).
  assert (JsString.trim run = run) as ->.
  { assert (forall ch, isSeparator ch = true -> JsString.isWhiteSpace ch = false) as Hws.
    { intros ch Hch. unfold isSeparator in Hch. unfold JsString.isWhiteSpace.
      apply orb_true_iff in Hch as [H|H]; apply N.eqb_eq in H; by rewrite H. }
    unfold JsString.trim.
    assert (JsString.trimStart run = run) as ->.
    { destruct run as [|ch rest]; [done|]. inversion Hall as [|? ? Hch _]; subst.
      cbn. by rewrite (Hws ch Hch). }
    clear Hrun. induction run as [|ch rest IH]; [done|].
    inversion Hall as [|? ? Hch Hmore]; subst. rewrite trimEnd_cons, (IH Hmore).
    destruct rest; [by rewrite (Hws ch Hch)|done]. }
  by apply normalizeSeparators_only_separators.
Qed.

Lemma ensureFolderLoop_filter c parts parentFolderId trace w :
  ensureFolderLoop c parts parentFolderId trace w
  = ensureFolderLoop c (List.filter isNamed parts) parentFolderId trace w.
Proof.
  revert parentFolderId trace w.
  induction parts as [|rawPart rest IH]; intros parentFolderId trace w; [reflexivity|].
  cbn [List.filter]. unfold isNamed at 1.
  destruct (String.eqb (normalizeFolderName rawPart) EmptyString) eqn:Hname; cbn [negb].
  { cbn [ensureFolderLoop]. cbv zeta. rewrite Hname. apply IH. }
  cbn [ensureFolderLoop]. cbv zeta. rewrite Hname. unfold bind.
  destruct (listFolders c parentFolderId w) as [[e|folders] w1]; [reflexivity|].
  destruct (findByName (normalizeFolderName rawPart) folders) as [f|].
  { destruct (String.eqb (id f) EmptyString); [reflexivity|apply IH]. }
  destruct (createFolderCandidates c parentFolderId (normalizeFolderName rawPart) w1)
    as [[e|tried] w2]; [reflexivity|].
  destruct (listFolders c parentFolderId w2) as [[e|refreshed] w3]; [reflexivity|].
  destruct (findByName (normalizeFolderName rawPart) refreshed) as [f|]; [|reflexivity].
  destruct (String.eqb (id f) EmptyString); [reflexivity|apply IH].
Qed.

Lemma findFolderLoop_filter c parts parentFolderId trace w :
  findFolderLoop c parts parentFolderId trace w
  = findFolderLoop c (List.filter isNamed parts) parentFolderId trace w.
Proof.
  revert parentFolderId trace w.
  induction parts as [|rawPart rest IH]; intros parentFolderId trace w; [reflexivity|].
  cbn [List.filter]. unfold isNamed at 1.
  destruct (String.eqb (normalizeFolderName rawPart) EmptyString) eqn:Hname; cbn [negb].
  { cbn [findFolderLoop]. cbv zeta. rewrite Hname. apply IH. }
  cbn [findFolderLoop]. cbv zeta. rewrite Hname. unfold bind.
  destruct (listFolders c parentFolderId w) as [[e|folders] w1]; [reflexivity|].
  destruct (findByName (normalizeFolderName rawPart) folders) as [f|]; [|reflexivity].
  destruct (String.eqb (id f) EmptyString); [reflexivity|apply IH].
Qed.

(** The loops read a segment through its normal form only. *)
Lemma ensureFolderLoop_normal c part part' rest parentFolderId trace w :
  normalizeFolderName part = normalizeFolderName part' ->
  ensureFolderLoop c (part :: rest) parentFolderId trace w
  = ensureFolderLoop c (part' :: rest) parentFolderId trace w.
Proof. intros Hsame. cbn [ensureFolderLoop]. by rewrite Hsame. Qed.

Lemma findFolderLoop_normal c part part' rest parentFolderId trace w :
  normalizeFolderName part = normalizeFolderName part' ->
  findFolderLoop c (part :: rest) parentFolderId trace w
  = findFolderLoop c (part' :: rest) parentFolderId trace w.
Proof. intros Hsame. cbn [findFolderLoop]. by rewrite Hsame. Qed.

(** A run that starts with the listing of a folder. *)
Definition startsWithListing (parentFolderId : string) (w w' : World) : Prop :=
  exists first others,
    w' = afterSending w (first :: others) ∧ isListing parentFolderId 1 first.

Lemma listFolders_first c parentFolderId w res w1 :
  listFolders c parentFolderId w = (res, w1) ->
  exists first more,
    w1 = afterSending w (first :: more) ∧ isListing parentFolderId 1 first.
Proof.
  intros Hlist. apply listFolders_run in Hlist as (new & -> & Hlen & Hpages & _).
  destruct new as [|first more]; [cbn in Hlen; lia|].
  exists first, more. split; [done|].
  cbn [length seq] in Hpages. by apply Forall2_cons_1 in Hpages as [Hfirst _].
Qed.

Lemma startsWithListing_after parentFolderId w w1 new :
  startsWithListing parentFolderId w w1 ->
  startsWithListing parentFolderId w (afterSending w1 new).
Proof.
  intros (first & others & -> & Hfirst). exists first, (others ++ new).
  split; [|done]. by rewrite afterSending_app.
Qed.

Lemma startsWithListing_first parentFolderId w first more :
  isListing parentFolderId 1 first ->
  startsWithListing parentFolderId w (afterSending w (first :: more)).
Proof. intros Hfirst. by exists first, more. Qed.

Ltac listed :=
  unfold throw, ret; cbn [snd];
  repeat first [ by apply startsWithListing_first | apply startsWithListing_after ].

Lemma findFolderLoop_lists c rawPart rest parentFolderId trace w :
  isNamed rawPart = true ->
  startsWithListing parentFolderId w
    (findFolderLoop c (rawPart :: rest) parentFolderId trace w).2.
Proof.
  unfold isNamed. intros Hname. apply negb_true_iff in Hname.
  cbn [findFolderLoop]. cbv zeta. rewrite Hname. unfold bind at 1.
  destruct (listFolders c parentFolderId w) as [[e|folders] w1] eqn:Hlist;
    apply listFolders_first in Hlist as (first & more & -> & Hfirst).
  { listed. }
  destruct (findByName (normalizeFolderName rawPart) folders) as [f|]; [|listed].
  destruct (String.eqb (id f) EmptyString); [listed|].
  match goal with |- context [findFolderLoop c rest ?p ?t ?w0] =>
    destruct (findFolderLoop c rest p t w0) as [res w'] eqn:Hrest end.
  apply findFolderLoop_run in Hrest as (new & -> & _). listed.
Qed.

Lemma ensureFolderLoop_lists c rawPart rest parentFolderId trace w :
  isNamed rawPart = true ->
  startsWithListing parentFolderId w
    (ensureFolderLoop c (rawPart :: rest) parentFolderId trace w).2.
Proof.
  unfold isNamed. intros Hname. apply negb_true_iff in Hname.
  cbn [ensureFolderLoop]. cbv zeta. rewrite Hname. unfold bind at 1.
  destruct (listFolders c parentFolderId w) as [[e|folders] w1] eqn:Hlist;
    apply listFolders_first in Hlist as (first & more & -> & Hfirst).
  { listed. }
  destruct (findByName (normalizeFolderName rawPart) folders) as [f|].
  { destruct (String.eqb (id f) EmptyString); [listed|].
    match goal with |- context [ensureFolderLoop c rest ?p ?t ?w0] =>
      destruct (ensureFolderLoop c rest p t w0) as [res w'] eqn:Hrest end.
    apply ensureFolderLoop_run in Hrest as (new & -> & _). listed. }
  unfold bind at 1.
  destruct (createFolderCandidates c parentFolderId (normalizeFolderName rawPart) _)
    as [[e|tried] w2] eqn:Hcreate;
    apply createFolderCandidates_world in Hcreate as (new2 & created & -> & _).
  { listed. }
  unfold bind at 1.
  destruct (listFolders c parentFolderId _) as [[e|refreshed] w3] eqn:Hrelist;
    apply listFolders_run in Hrelist as (new3 & -> & _).
  { listed. }
  cbv zeta.
  destruct (findByName (normalizeFolderName rawPart) refreshed) as [f|]; [|listed].
  destruct (String.eqb (id f) EmptyString); [listed|].
  match goal with |- context [ensureFolderLoop c rest ?p ?t ?w0] =>
    destruct (ensureFolderLoop c rest p t w0) as [res w'] eqn:Hrest end.
  apply ensureFolderLoop_run in Hrest as (new & -> & _). listed.
Qed.

(** C10 (amended): in both ensure-path and find-path a segment is read
    through its normal form: the text of the segment trimmed, with each
    run of [/] or [\] replaced by one [_].  The normal form is empty
    exactly when the trimmed text is; such a segment is skipped
    wherever it stands in the parts list: the run is, result, trace and
    requests, the run on the list without it, and a list of such
    segments only sends nothing and yields the root folder id.  Every
    other segment is resolved: the run starts by listing the children
    of the current parent.  A segment made of separators only has the
    normal form [_]; it is not skipped, and is resolved as the folder
    name [_] is. *)
Theorem blank_segments_resolve_to_root c parts w :
  (forall part,
     isNamed part = false <-> JsString.trim (stringOr part) = EmptyString)
  ∧ (forall clean run rest,
       Forall (fun ch => isSeparator ch = false) (list_ascii_of_string clean) ->
       run <> EmptyString ->
       Forall (fun ch => isSeparator ch = true) (list_ascii_of_string run) ->
       (forall ch tail, rest = String ch tail -> isSeparator ch = false) ->
       normalizeSeparators (clean +:+ run +:+ rest)
       = clean +:+ "_" +:+ normalizeSeparators rest)
  ∧ (forall clean,
       Forall (fun ch => isSeparator ch = false) (list_ascii_of_string clean) ->
       normalizeSeparators clean = clean)
  ∧ ensureFolderPath c parts w = ensureFolderPath c (List.filter isNamed parts) w
  ∧ findFolderPath c parts w = findFolderPath c (List.filter isNamed parts) w
  ∧ (List.filter isNamed parts = [] ->
     ensureFolderPath c parts w = (inr (ROOT_FOLDER_ID, []), w)
     ∧ findFolderPath c parts w
       = (inr {| findOk := true; findFolderId := ROOT_FOLDER_ID; findTrace := [];
                 reason := None; missing_name := None |}, w))
  ∧ (forall part rest parentFolderId trace w0,
       isNamed part = true ->
       startsWithListing parentFolderId w0
         (ensureFolderLoop c (part :: rest) parentFolderId trace w0).2
       ∧ startsWithListing parentFolderId w0
           (findFolderLoop c (part :: rest) parentFolderId trace w0).2)
  ∧ (forall run rest parentFolderId trace w0,
       run <> EmptyString ->
       Forall (fun ch => isSeparator ch = true) (list_ascii_of_string run) ->
       normalizeFolderName (Some (JStr run)) = "_"
       ∧ isNamed (Some (JStr run)) = true
       ∧ ensureFolderLoop c (Some (JStr run) :: rest) parentFolderId trace w0
         = ensureFolderLoop c (Some (JStr "_") :: rest) parentFolderId trace w0
       ∧ findFolderLoop c (Some (JStr run) :: rest) parentFolderId trace w0
         = findFolderLoop c (Some (JStr "_") :: rest) parentFolderId trace w0).
Proof.
  split.
  { intros part. unfold isNamed. rewrite negb_false_iff, String.eqb_eq.
    apply normalizeFolderName_empty_iff. }
  split.
  { intros clean run rest Hclean Hrun Hall Hrest.
    rewrite (normalizeSeparators_prefix clean _ Hclean).
    by rewrite (normalizeSeparators_run run rest Hrun Hall Hrest). }
  split; [apply normalizeSeparators_clean|].
  split; [apply ensureFolderLoop_filter|]. split; [apply findFolderLoop_filter|].
  split.
  { intros Hnone. unfold ensureFolderPath, findFolderPath.
    by rewrite ensureFolderLoop_filter, findFolderLoop_filter, Hnone. }
  split.
  { intros part rest parentFolderId trace w0 Hnamed. split.
    - by apply ensureFolderLoop_lists.
    - by apply findFolderLoop_lists. }
  intros run rest parentFolderId trace w0 Hrun Hall.
  pose proof (trim_separators run Hrun Hall) as Hname.
  split; [done|]. split; [unfold isNamed; by rewrite Hname|].
  split; [by apply ensureFolderLoop_normal|by apply findFolderLoop_normal].
Qed.

End Client.

(** *** A small cloud to run the script against

    One remote folder, created by the second request shape, a session
    that accepts every upload call, and a download that delivers three
    bytes while its response declares ten. *)

Definition remoteFolder (folderName : string) : Json :=
  JObj [("fileListAO",
         JObj [("count", JNum 1);
               ("folderList", JArr [JObj [("id", JStr "77"); ("name", JStr folderName)]])])].

Definition answers (folderName : string) (text : string) : option Json :=
  if String.eqb text "no-folders" then
    Some (JObj [("fileListAO", JObj [("count", JNum 0); ("folderList", JArr [])])])
  else if String.eqb text "one-folder" then Some (remoteFolder folderName)
  else if String.eqb text "done" then Some (JObj [("res_code", JNum 0)])
  else if String.eqb text "init" then
    Some (JObj [("code", JStr "SUCCESS"); ("data", JObj [("uploadFileId", JStr "u1")])])
  else if String.eqb text "urls" then
    Some (JObj [("code", JStr "SUCCESS");
                ("uploadUrls",
                 JObj [("partNumber_1",
                        JObj [("requestURL", JStr "https://store.example/part1");
                              ("requestHeader", JStr "x-amz-date=today&flag=")])])])
  else if String.eqb text "commit" then
    Some (JObj [("code", JStr "SUCCESS"); ("file", JObj [("userFileId", JStr "f9")])])
  else None.

Definition plain (code : Z) (text : string) : FetchResult :=
  Fetched {| status := code; finalUrl := EmptyString; text := text; body := None |}.

Definition isCreate (r : Request) : bool :=
  match r with
  | OpenApiRequest _ _ _ method _ _ _ _ => String.eqb method "POST"
  | _ => false
  end.

Definition shortStream : BodyStream :=
  {| chunks := [[Byte.x01; Byte.x02]; [Byte.x03]]; failure := None;
     declaredLength := Some 10 |}.

Definition wholeStream : BodyStream :=
  {| chunks := [[Byte.x01; Byte.x02]; [Byte.x03]]; failure := None;
     declaredLength := Some 3 |}.

Definition cloud (history : list Request) (r : Request) : FetchResult :=
  match r with
  | OpenApiRequest _ _ _ method _ form _ _ =>
      if String.eqb method "GET" then
        plain 200 (if existsb isCreate history then "one-folder" else "no-folders")
      else match form with
           | ("name", _) :: _ => plain 200 "done"
           | _ => plain 500 "rejected"
           end
  | UploadRequest _ _ uri _ _ =>
      if String.eqb uri "/person/initMultiUpload" then plain 200 "init"
      else if String.eqb uri "/person/getMultiUploadUrls" then plain 200 "urls"
      else plain 200 "commit"
  | PutRequest _ _ _ => plain 200 EmptyString
  | DownloadRequest _ url =>
      if String.eqb url "https://cdn.example/short" then
        Fetched {| status := 200; finalUrl := url; text := EmptyString;
                   body := Some shortStream |}
      else if String.eqb url "https://cdn.example/save" then
        Fetched {| status := 200; finalUrl := url; text := EmptyString;
                   body := Some wholeStream |}
      else plain 403 "denied"
  | _ => FetchFailed "fetch failed"
  end.

Definition clock (history : list Request) : Z := 1700000000000 + Z.of_nat (length history).
Definition printed (j : Json) : string := "[...]".
Definition user : Credentials :=
  {| cookie := "COOKIE"; sessionKey := "SK"; accessToken := "AT" |}.
Definition key : RsaKey := {| pubKey := "PUB"; pkId := "PK" |}.

Definition start : World := {| sent := []; disk := ∅; dirs := ∅ |}.
Definition withSave (content : list Byte.byte) : World :=
  {| sent := []; disk := {[ "/tmp/save.7z" := content ]}; dirs := ∅ |}.

Definition ensureOn (folderName : string) : list Value -> M (string * list TraceEntry) :=
  ensureFolderPath cloud clock (answers folderName) printed Signing.rootCollate user.
Definition findOn (folderName : string) : list Value -> M FindResult :=
  findFolderPath cloud clock (answers folderName) Signing.rootCollate user.
Definition uploadOn : M UploadInfo :=
  uploadFileSlices cloud (answers "saves") printed (fun s => s) Some (fun s => s)
    user key "/tmp/save.7z" "77" "save.7z" None.
Definition downloadOn (url : string) : M DownloadInfo :=
  downloadUrlToFile cloud (fun s => s) (fun _ => "/tmp") user url "/tmp/out.7z".

Example ensure_creates_folder :
  let '(res, w) := ensureOn "saves" [Some (JStr " saves ")] start in
  (exists trace, res = inr ("77", trace)) ∧ length (sent w) = 7%nat.
Proof. vm_compute. split; [by eexists|done]. Qed.

Definition abc : list Byte.byte := [Byte.x61; Byte.x62; Byte.x63].


(** In the scenario the second of the five requests is the one that is
    accepted, and the attempt list says so. *)
Example ensure_records_each_outcome :
  exists attempts w,
    createFolderCandidates cloud clock (answers "saves") printed Signing.rootCollate user
      ROOT_FOLDER_ID "saves" start
    = (inr attempts, w)
    ∧ map attemptOk attempts = [false; true; false; false; false]
    ∧ map attemptError attempts
      = [Some "请求失败 status=500 endpoint=/api/open/file/createFolder.action body=rejected";
         None;
         Some "请求失败 status=500 endpoint=/api/open/file/createFolder.action body=rejected";
         Some "请求失败 status=500 endpoint=/api/open/batch/createBatchTask.action body=rejected";
         Some "请求失败 status=500 endpoint=/api/open/batch/createBatchTask.action body=rejected"].
Proof. eexists _, _. split; [vm_compute; reflexivity|]. split; reflexivity. Qed.

Lemma blank_segments_resolve_to_root_witness :
  (ensureOn "saves" [Some (JStr "  "); None; Some (JStr EmptyString)] start
   = (inr (ROOT_FOLDER_ID, []), start)
   ∧ findOn "saves" [Some (JStr "  "); None; Some (JStr EmptyString)] start
     = (inr {| findOk := true; findFolderId := ROOT_FOLDER_ID; findTrace := [];
               reason := None; missing_name := None |}, start))
  ∧ ensureOn "saves" [Some (JStr " "); Some (JStr "saves"); None] start
    = ensureOn "saves" [Some (JStr "saves")] start
  ∧ findOn "saves" [None; Some (JStr "saves"); Some (JStr "  ")] start
    = findOn "saves" [Some (JStr "saves")] start
  ∧ ensureOn "_" [Some (JStr "/\\")] start = ensureOn "_" [Some (JStr "_")] start.
Proof.
  unfold ensureOn, findOn.
  split; [|split; [|split]].
  - destruct (blank_segments_resolve_to_root cloud clock (answers "saves") printed
                Signing.rootCollate user [Some (JStr "  "); None; Some (JStr EmptyString)]
                start) as (_ & _ & _ & _ & _ & Hroot & _).
    apply Hroot. vm_compute. reflexivity.
  - destruct (blank_segments_resolve_to_root cloud clock (answers "saves") printed
                Signing.rootCollate user [Some (JStr " "); Some (JStr "saves"); None]
                start) as (_ & _ & _ & Hensure & _).
    assert (List.filter isNamed [Some (JStr " "); Some (JStr "saves"); None]
            = [Some (JStr "saves")]) as Hnamed by (vm_compute; reflexivity).
    rewrite Hnamed in Hensure. exact Hensure.
  - destruct (blank_segments_resolve_to_root cloud clock (answers "saves") printed
                Signing.rootCollate user [None; Some (JStr "saves"); Some (JStr "  ")]
                start) as (_ & _ & _ & _ & Hfind & _).
    assert (List.filter isNamed [None; Some (JStr "saves"); Some (JStr "  ")]
            = [Some (JStr "saves")]) as Hnamed by (vm_compute; reflexivity).
    rewrite Hnamed in Hfind. exact Hfind.
  - destruct (blank_segments_resolve_to_root cloud clock (answers "_") printed
                Signing.rootCollate user [] start) as (_ & _ & _ & _ & _ & _ & _ & Hrun).
    unfold ensureFolderPath.
    apply (Hrun "/\\" [] ROOT_FOLDER_ID [] start); [discriminate|repeat constructor].
Defined.

(** C10, as stated, fails on the code for a segment made of separators
    only: [/] is normalized to [_], which is not empty, so the folder
    is listed (and looked for, and created) like any other; ensure-path
    ends in folder 77, not in the root, and find-path reports the name
    [_] as missing after one listing. *)
Lemma separator_segment_is_resolved :
  (exists trace w,
      ensureOn "_" [Some (JStr "/")] start = (inr ("77", trace), w)
      ∧ length trace = 1%nat ∧ length (sent w) = 7%nat)
  ∧ (exists found w,
        findOn "_" [Some (JStr "/")] start = (inr found, w)
        ∧ findOk found = false ∧ missing_name found = Some "_"
        ∧ length (sent w) = 1%nat).
Proof.
  split.
  - eexists _, _. split; [vm_compute; reflexivity|]. split; reflexivity.
  - eexists _, _. split; [vm_compute; reflexivity|]. repeat split; reflexivity.
Qed.

Lemma uploadFileSlices_commit_sliceMd5_witness :
  exists earlier form,
    sent (uploadOn (withSave abc)).2
    = earlier ++ [UploadRequest "COOKIE" "SK" commitUri form "PK"]
    ∧ formValue "sliceMd5" form = Some "900150983cd24fb0d6963f7d28e17f72".
Proof.
  destruct (uploadFileSlices_commit_sliceMd5 cloud (answers "saves") printed (fun s => s)
              Some (fun s => s) user key "/tmp/save.7z" "77" "save.7z" None
              (withSave abc) abc (uploadOn (withSave abc)).1 (uploadOn (withSave abc)).2)
    as (new & Hsent & _ & Hlast).
  - vm_compute. reflexivity.
  - unfold uploadOn. by destruct (uploadFileSlices _ _ _ _ _ _ _ _ _ _ _ _ _).
  - destruct (Hlast {| userFileId := "f9"; uploadedSize := 3; chunkCount := 1;
                       uploadFileId := "u1" |}) as (earlier & form & -> & Hslice).
    + vm_compute. reflexivity.
    + exists earlier, form. split; [exact Hsent|]. vm_compute in Hslice. exact Hslice.
Defined.

Lemma uploadFileSlices_parts_cover_file_witness :
  exists new,
    sent (uploadOn (withSave abc)).2 = new
    ∧ omap putContent new = [abc]
    ∧ omap (uploadForm "/person/getMultiUploadUrls") new
      = [[("partInfo", "1-kAFQmDzST7DWlj99KOF/cg=="); ("uploadFileId", "u1")]].
Proof.
  destruct (uploadFileSlices_parts_cover_file cloud (answers "saves") printed (fun s => s)
              Some (fun s => s) user key "/tmp/save.7z" "77" "save.7z" None
              (withSave abc)
              {| userFileId := "f9"; uploadedSize := 3; chunkCount := 1;
                 uploadFileId := "u1" |}
              (uploadOn (withSave abc)).2)
    as (content & new & Hdisk & Hsent & _ & _ & _ & _ & _ & Hput & Hurls & _).
  - vm_compute. reflexivity.
  - exists new. vm_compute in Hdisk. injection Hdisk as <-.
    split; [exact Hsent|]. split.
    + rewrite Hput. vm_compute. reflexivity.
    + rewrite Hurls. vm_compute. reflexivity.
Defined.

(** C2, as stated, fails on the code for an empty file: the ceiling of
    0 / C is 0, yet the upload sends one part, with no bytes, and
    reports a chunk count of 1. *)
Lemma empty_file_has_one_part :
  exists info w,
    uploadOn (withSave []) = (inr info, w)
    ∧ chunkCount info = 1
    ∧ omap putContent (sent w) = [[]]
    ∧ isCeiling 0 0 (chunkSizeOf None)
    ∧ ~ isCeiling (chunkCount info) 0 (chunkSizeOf None).
Proof.
  eexists _, _. split; [vm_compute; reflexivity|].
  split; [reflexivity|]. split; [reflexivity|].
  unfold isCeiling. cbn [chunkCount]. vm_compute. split; [split; [reflexivity|discriminate]|].
  intros [H _]. discriminate H.
Qed.


(** A response that declares ten bytes and whose connection closes
    after three is a failed download. *)
Example short_download_fails :
  exists w,
    downloadOn "https://cdn.example/short" start
    = (inl {| exnName := "TypeError"; exnMessage := "terminated" |}, w)
    ∧ disk w !! "/tmp/out.7z" = Some [Byte.x01; Byte.x02; Byte.x03].
Proof. eexists. split; [vm_compute; reflexivity|]. vm_compute. reflexivity. Qed.


(** *** A second scenario: keys, download addresses, listings of files

    The web endpoint answers without a key and the signed API with one;
    the open API refuses to give a download address and the signed API
    gives it; the folder of saves holds two archives and a note. *)

Definition replies (text : string) : option Json :=
  if String.eqb text "rsa" then
    Some (JObj [("pubKey", JStr "PUB"); ("pkId", JStr "PK")])
  else if String.eqb text "address" then
    Some (JObj [("data", JObj [("fileDownloadUrl", JStr " https://cdn.example/save ")])])
  else if String.eqb text "saves" then
    Some (JObj [("fileListAO",
                 JObj [("count", JNum 3);
                       ("folderList",
                        JArr [JObj [("id", JStr "77");
                                    ("name", JStr "FreedeckCloudSaves")]]);
                       ("fileList",
                        JArr [JObj [("id", JStr "1"); ("name", JStr "a.7z");
                                    ("size", JNum 10)];
                              JObj [("id", JStr "2"); ("name", JStr "B.7Z")];
                              JObj [("id", JStr "3"); ("name", JStr "notes.txt")]])])])
  else if String.eqb text "order" then Some (JObj [("action", JStr " Bogus ")])
  else answers "saves" text.

Definition portal (history : list Request) (r : Request) : FetchResult :=
  match r with
  | JsonGetRequest _ _ => plain 200 "done"
  | ApiSignedRequest _ _ endpoint _ _ _ =>
      if String.eqb endpoint "/security/generateRsaKey.action" then plain 200 "rsa"
      else plain 200 "address"
  | OpenApiRequest _ _ endpoint method _ _ _ _ =>
      if String.eqb endpoint "/api/open/file/getFileDownloadUrl.action"
      then plain 500 "rejected"
      else if String.eqb method "GET" then plain 200 "saves"
      else plain 500 "rejected"
  | _ => cloud history r
  end.

Definition link (url : string) (query : list (string * string)) : string := url.
Definition parseError (text : string) : string := "Unexpected token".

Definition account : Json :=
  JObj [("cookie", JStr " COOKIE "); ("session_key", JStr "SK");
        ("access_token", JStr "AT"); ("local_file_path", JStr "/tmp/save.7z");
        ("file_id", JStr "9")].

Definition listFoldersOn : M (list Folder) :=
  listFolders cloud clock (answers "saves") Signing.rootCollate user ROOT_FOLDER_ID.
Definition listFilesOn : M (list CloudFile) :=
  listFiles portal clock replies Signing.rootCollate user "77".
Definition versionsOn : M ActionData :=
  runListVersions portal clock replies Signing.rootCollate (Some account).
Definition rsaOn : M RsaKey :=
  getRsaKey portal clock replies printed Signing.rootCollate link user.
Definition addressOn : M string :=
  getCloudFileDownloadUrl portal clock replies printed Signing.rootCollate user "9".
Definition fetchFileOn : M ActionData :=
  runDownloadFile portal clock replies printed Signing.rootCollate (fun s => s)
    (fun _ => "/tmp") (Some account).
Definition storeOn : M ActionData :=
  runUpload portal clock replies printed Signing.rootCollate (fun s => s) Some (fun s => s)
    (fun _ => "save.7z") link (Some account).
Definition clientOn : string -> World -> Process * World :=
  main portal clock replies printed Signing.rootCollate (fun s => s) Some (fun s => s)
    (fun _ => "/tmp") (fun _ => "save.7z") link parseError.

Example second_scenario :
  (exists files w, listFilesOn start = (inr files, w) ∧ length files = 3%nat)
  ∧ (exists w, rsaOn start = (inr key, w) ∧ length (sent w) = 2%nat)
  ∧ (exists w, addressOn start = (inr "https://cdn.example/save", w)
               ∧ length (sent w) = 3%nat)
  ∧ (exists data w, storeOn (withSave abc) = (inr data, w))
  ∧ (exists data w, fetchFileOn start = (inr data, w))
  ∧ (exists files trace w,
        versionsOn start = (inr (VersionsData true "77" files trace None), w)
        ∧ map file_name files = ["a.7z"; "B.7Z"]).
Proof.
  split; [eexists _, _; split; [vm_compute; reflexivity|reflexivity]|].
  split; [eexists; split; [vm_compute; reflexivity|reflexivity]|].
  split; [eexists; split; [vm_compute; reflexivity|reflexivity]|].
  split; [eexists _, _; vm_compute; reflexivity|].
  split; [eexists _, _; vm_compute; reflexivity|].
  eexists _, _, _. split; [vm_compute; reflexivity|reflexivity].
Qed.

Lemma listFolders_pages_witness :
  exists new,
    (listFoldersOn start).2 = afterSending start new
    ∧ (1 <= length new <= 20)%nat
    ∧ forall folders, (listFoldersOn start).1 = inr folders ->
        Forall (fun f => id f <> EmptyString ∧ name f <> EmptyString) folders.
Proof.
  destruct (listFolders_pages cloud clock (answers "saves") Signing.rootCollate user
              ROOT_FOLDER_ID start (listFoldersOn start).1 (listFoldersOn start).2)
    as (new & Hw & Hlen & _ & Hfolders).
  - unfold listFoldersOn. by destruct (listFolders _ _ _ _ _ _ _).
  - by exists new.
Defined.

Lemma findFolderPath_read_only_witness :
  exists new,
    (findOn "saves" [Some (JStr "saves")] start).2 = afterSending start new
    ∧ Forall anyListing new.
Proof.
  destruct (findFolderPath_read_only cloud clock (answers "saves") Signing.rootCollate user
              [Some (JStr "saves")] start
              (findOn "saves" [Some (JStr "saves")] start).1
              (findOn "saves" [Some (JStr "saves")] start).2)
    as (new & Hw & Hnew & _).
  - unfold findOn. by destruct (findFolderPath _ _ _ _ _ _ _).
  - by exists new.
Defined.

Lemma listFiles_pages_witness :
  exists new,
    (listFilesOn start).2 = afterSending start new
    ∧ (1 <= length new <= 30)%nat
    ∧ forall files, (listFilesOn start).1 = inr files -> Forall usableFile files.
Proof.
  destruct (listFiles_pages portal clock replies Signing.rootCollate user "77" start
              (listFilesOn start).1 (listFilesOn start).2)
    as (new & Hw & Hlen & _ & Hfiles).
  - unfold listFilesOn. by destruct (listFiles _ _ _ _ _ _ _).
  - by exists new.
Defined.

Lemma runListVersions_read_only_witness :
  exists new, (versionsOn start).2 = afterSending start new ∧ Forall anyListing new.
Proof.
  destruct (runListVersions_read_only portal clock replies Signing.rootCollate
              (Some account) start (versionsOn start).1 (versionsOn start).2)
    as (new & Hw & Hnew & _).
  - unfold versionsOn. by destruct (runListVersions _ _ _ _ _ _).
  - by exists new.
Defined.

Lemma getRsaKey_two_sources_witness :
  exists new,
    (rsaOn start).2 = afterSending start new
    ∧ Forall2 (isRsaRequest Signing.rootCollate link user)
        (take (length new) [cloud_unsigned; api_signed]) new
    ∧ length new = 2%nat.
Proof.
  destruct (getRsaKey_two_sources portal clock replies printed Signing.rootCollate link
              user start (rsaOn start).1 (rsaOn start).2)
    as (new & Hw & Hshape & _ & _ & _ & Hstop).
  - unfold rsaOn. by destruct (getRsaKey _ _ _ _ _ _ _ _).
  - exists new. split; [exact Hw|]. split; [exact Hshape|].
    match type of Hstop with
    | match ?first with Some _ => _ | None => _ end =>
        assert (first = None) as Hnone by (vm_compute; reflexivity)
    end.
    rewrite Hnone in Hstop. exact (proj1 Hstop).
Defined.

Lemma getCloudFileDownloadUrl_four_shapes_witness :
  exists new,
    (addressOn start).2 = afterSending start new
    ∧ Forall2 (fun P r => P r)
        (take (length new) (downloadRequestShapes Signing.rootCollate user "9")) new
    ∧ (1 <= length new <= 4)%nat.
Proof.
  destruct (getCloudFileDownloadUrl_four_shapes portal clock replies printed
              Signing.rootCollate user "9" start (addressOn start).1 (addressOn start).2)
    as (new & Hw & Hshape & Hlen & _).
  - unfold addressOn. by destruct (getCloudFileDownloadUrl _ _ _ _ _ _ _ _).
  - by exists new.
Defined.

Lemma ensureFolderPath_trace_witness :
  exists new,
    (ensureOn "saves" [Some (JStr " saves "); None] start).2 = afterSending start new
    ∧ Forall (fun r => anyListing r ∨ isCreateRequest r) new
    ∧ forall folderId result,
        (ensureOn "saves" [Some (JStr " saves "); None] start).1 = inr (folderId, result) ->
        map folder_name result = ["saves"].
Proof.
  destruct (ensureFolderPath_trace cloud clock (answers "saves") printed Signing.rootCollate
              user [Some (JStr " saves "); None] start
              (ensureOn "saves" [Some (JStr " saves "); None] start).1
              (ensureOn "saves" [Some (JStr " saves "); None] start).2)
    as (new & Hw & Hnew & Hres).
  - unfold ensureOn. by destruct (ensureFolderPath _ _ _ _ _ _ _ _).
  - exists new. split; [exact Hw|]. split; [exact Hnew|].
    intros folderId result Hresult.
    destruct (Hres folderId result Hresult) as (_ & _ & Hnames). exact Hnames.
Defined.

Lemma uploadFileSlices_commits_last_witness :
  exists earlier final,
    (uploadOn (withSave abc)).2 = afterSending (withSave abc) (earlier ++ final)
    ∧ Forall notCommit earlier.
Proof.
  destruct (uploadFileSlices_commits_last cloud (answers "saves") printed (fun s => s)
              Some (fun s => s) user key "/tmp/save.7z" "77" "save.7z" None
              (withSave abc) (uploadOn (withSave abc)).1 (uploadOn (withSave abc)).2)
    as (earlier & final & Hw & Hearlier & _).
  - unfold uploadOn. by destruct (uploadFileSlices _ _ _ _ _ _ _ _ _ _ _ _ _).
  - by exists earlier, final.
Defined.

Lemma runDownloadFile_checks_input_witness :
  exists new, sent (fetchFileOn start).2 = sent start ++ new ∧ new <> [].
Proof.
  pose proof (runDownloadFile_checks_input portal clock replies printed Signing.rootCollate
                (fun s => s) (fun _ => "/tmp") (Some account) start
                (fetchFileOn start).1 (fetchFileOn start).2) as Hrun.
  destruct Hrun as (new & Hsent & Hne & _).
  - unfold fetchFileOn. by destruct (runDownloadFile _ _ _ _ _ _ _ _ _).
  - by exists new.
Defined.

Lemma runUpload_checks_input_witness :
  exists new content,
    (storeOn (withSave abc)).2 = afterSending (withSave abc) new ∧ new <> []
    ∧ disk (withSave abc) !! "/tmp/save.7z" = Some content.
Proof.
  pose proof (runUpload_checks_input portal clock replies printed Signing.rootCollate
                (fun s => s) Some (fun s => s) (fun _ => "save.7z") link (Some account)
                (withSave abc) (storeOn (withSave abc)).1 (storeOn (withSave abc)).2)
    as Hrun.
  destruct Hrun as (new & content & Hw & Hne & Hdisk & _).
  - unfold storeOn. by destruct (runUpload _ _ _ _ _ _ _ _ _ _ _ _).
  - by exists new, content.
Defined.

Lemma main_rejects_unknown_input_witness :
  clientOn "order" start
  = ({| stdout := [EmitFailure "不支持的 action: bogus"
                     {| error_type := "Error"; message := "不支持的 action: bogus" |}];
        exitCode := 1 |}, start).
Proof.
  refine (main_rejects_unknown_input portal clock replies printed Signing.rootCollate
            (fun s => s) Some (fun s => s) (fun _ => "/tmp") (fun _ => "save.7z") link
            parseError "order" start _).
  intros Hin. apply list_elem_of_In in Hin. vm_compute in Hin.
  repeat destruct Hin as [Hin|Hin]; try discriminate Hin. exact Hin.
Defined.

Lemma parseRequestHeaderPairs_reads_pairs_witness :
  exists headers,
    parseRequestHeaderPairs Some (Some (JStr "x-amz-date=today&__proto__=x&sign=a=b="))
    = inr headers
    ∧ formValue "sign" headers = Some "a=b="
    ∧ formValue "__proto__" headers = None.
Proof.
  destruct (parseRequestHeaderPairs_reads_pairs Some
              (Some (JStr "x-amz-date=today&__proto__=x&sign=a=b="))
              [("x-amz-date", "today"); ("__proto__", "x"); ("sign", "a=b=")])
    as (headers & Hparse & Hvalues & _).
  - vm_compute. reflexivity.
  - repeat constructor; vm_compute; discriminate.
  - exists headers. split; [exact Hparse|]. rewrite !Hvalues. vm_compute.
    split; reflexivity.
Defined.

End Cloud.

Example normalize_samples :
  (Cloud.normalizeFolderName (Some (Js.JStr " a//b\c ")),
   Cloud.normalizeFolderName (Some (Js.JStr "  ")),
   Cloud.normalizeFolderName (Some (Js.JStr "/")),
   Cloud.normalizeFolderName None,
   Cloud.normalizeFolderName (Some (Js.JNum 7)))
  = ("a_b_c", "", "_", "", "7")%string.
Proof. vm_compute. reflexivity. Qed.

Example base64_samples :
  (Cloud.Base64.encode (MD5.digest (JsString.codes "abc")),
   Cloud.Base64.encode (JsString.codes "ab"), Cloud.Base64.encode (JsString.codes "a"))
  = ("kAFQmDzST7DWlj99KOF/cg==", "YWI=", "YQ==")%string.
Proof. vm_compute. reflexivity. Qed.

Example splitOn_samples :
  (Cloud.splitOn "&" "a=b&&c", Cloud.indexOf "=" "ab=c=d", Cloud.indexOf "=" "abc")
  = (["a=b"; ""; "c"]%string, Some 2%nat, None).
Proof. vm_compute. reflexivity. Qed.

(** ** Object graphs and the deep key search of the share resolver

    The deep search tells objects apart by identity, so here a value is
    a reference into a heap of nodes; a heap may hold cycles. *)

Module Graph.
#[local] Open Scope string_scope.
#[local] Open Scope Z_scope.
#[local] Open Scope list_scope.

Inductive Val : Type :=
| VUndefined
| VNull
| VBool (b : bool)
| VNum (n : Z)
| VStr (s : string)
| VRef (address : nat).

Inductive Node : Type :=
| NArr (items : list Val)
| NObj (fields : list (string * Val)).

Definition Heap : Type := list Node.

Definition truthy (v : Val) : bool :=
  match v with
  | VUndefined | VNull | VBool false | VNum 0 | VStr EmptyString => false
  | _ => true
  end.

(** [v && typeof v === "object"]. *)
Definition isObject (v : Val) : bool :=
  match v with
  | VRef _ => true
  | _ => false
  end.

Definition refsOf (values : list Val) : list Val := List.filter isObject values.

Section Search.
(** [Array.prototype.toString] of the host, on the items of an array. *)
Variable arrayText : Heap -> list Val -> string.
Variable h : Heap.

Definition isArray (v : Val) : bool :=
  match v with
  | VRef a => match h !! a with Some (NArr _) => true | _ => false end
  | _ => false
  end.

Definition String_ (v : Val) : string :=
  match v with
  | VUndefined => "undefined"
  | VNull => "null"
  | VBool true => "true"
  | VBool false => "false"
  | VNum n => JsString.ofZ n
  | VStr s => s
  | VRef a =>
      match h !! a with
      | Some (NArr items) => arrayText h items
      | _ => "[object Object]"
      end
  end.

(** [String(v || "")]. *)
Definition stringOr (v : Val) : string :=
  if truthy v then String_ v else EmptyString.

(** The values a node holds, in enumeration order. *)
Definition children (a : nat) : list Val :=
  match h !! a with
  | Some (NArr items) => items
  | Some (NObj fields) => map snd fields
  | None => []
  end.

Definition wantedSet (keys : list string) : list string :=
  map JsString.toLowerCase keys.

Section Walk.
Context {R : Type}.
(** What makes an entry with a wanted key a result. *)
Variable hit : Val -> option R.
Variable wanted : list string.

Definition entryHit (entry : string * Val) : option R :=
  if bool_decide (JsString.toLowerCase entry.1 ∈ wanted) then hit entry.2 else None.

(** The [for ... of Object.entries(current)] loop: the result, or the
    stack with the object values pushed. *)
Fixpoint scanFields (fields : list (string * Val)) (stack : list Val)
    : R + list Val :=
  match fields with
  | [] => inr stack
  | entry :: rest =>
      match entryHit entry with
      | Some r => inl r
      | None =>
          scanFields rest (if isObject entry.2 then entry.2 :: stack else stack)
      end
  end.

(** The [while (stack.length > 0)] loop; the top of the stack is the
    head of the list.  [None] when the fuel runs out. *)
Fixpoint walk (fuel : nat) (stack : list Val) (visited : gset nat)
    : option (option R) :=
  match fuel with
  | O => None
  | S fuel' =>
      match stack with
      | [] => Some None
      | VRef a :: stack' =>
          if bool_decide (a ∈ visited) then walk fuel' stack' visited
          else
            match h !! a with
            | Some (NArr items) =>
                walk fuel' (rev (refsOf items) ++ stack') ({[a]} ∪ visited)
            | Some (NObj fields) =>
                match scanFields fields stack' with
                | inl r => Some (Some r)
                | inr stack'' => walk fuel' stack'' ({[a]} ∪ visited)
                end
            | None => walk fuel' stack' ({[a]} ∪ visited)
            end
      | _ :: stack' => walk fuel' stack' visited
      end
  end.

Definition fieldHits (fields : list (string * Val)) : list R := omap entryHit fields.

Definition hitsOf (a : nat) : list R :=
  match h !! a with
  | Some (NObj fields) => fieldHits fields
  | _ => []
  end.
End Walk.

(** The objects in the order the loop takes them up, when nothing
    stops it. *)
Fixpoint traverse (fuel : nat) (stack : list Val) (visited : gset nat)
    : option (list nat) :=
  match fuel with
  | O => None
  | S fuel' =>
      match stack with
      | [] => Some []
      | VRef a :: stack' =>
          if bool_decide (a ∈ visited) then traverse fuel' stack' visited
          else cons a <$> traverse fuel' (rev (refsOf (children a)) ++ stack')
                            ({[a]} ∪ visited)
      | _ :: stack' => traverse fuel' stack' visited
      end
  end.

Definition outDegree (a : nat) : nat := length (refsOf (children a)).

(** Enough fuel for any search of the heap. *)
Definition fuelFor : nat :=
  2 + sum_list (map outDegree (seq 0 (length h))).

Definition usableText (v : Val) : option string :=
  let text := JsString.trim (stringOr v) in
  if String.eqb text EmptyString then None else Some text.

Definition arrayItems (v : Val) : option (list Val) :=
  match v with
  | VRef a => match h !! a with Some (NArr items) => Some items | _ => None end
  | _ => None
  end.

Definition getDeepStringFuel (fuel : nat) (payload : Val) (keys : list string)
    : option string :=
  if negb (truthy payload) || negb (isObject payload) then Some EmptyString
  else default EmptyString <$> walk usableText (wantedSet keys) fuel [payload] ∅.

Definition getDeepArrayFuel (fuel : nat) (payload : Val) (keys : list string)
    : option (list Val) :=
  if negb (truthy payload) || negb (isObject payload) then Some []
  else default [] <$> walk arrayItems (wantedSet keys) fuel [payload] ∅.

Definition getDeepString (payload : Val) (keys : list string) : string :=
  default EmptyString (getDeepStringFuel fuelFor payload keys).

(** The items of the array the search returns. *)
Definition getDeepArray (payload : Val) (keys : list string) : list Val :=
  default [] (getDeepArrayFuel fuelFor payload keys).

(** Reachable from the payload through array items and field values. *)
Inductive reachable (payload : Val) : nat -> Prop :=
| reachable_root a : payload = VRef a -> reachable payload a
| reachable_child a b :
    reachable payload a -> VRef b ∈ children a -> reachable payload b.

(** The field of an object at a position of its enumeration. *)
Definition fieldAt (a i : nat) : option (string * Val) :=
  match h !! a with
  | Some (NObj fields) => fields !! i
  | _ => None
  end.

(** A key matches a wanted name when the two agree in lower case. *)
Definition Wanted (keys : list string) (key : string) : Prop :=
  exists name, name ∈ keys ∧ JsString.toLowerCase key = JsString.toLowerCase name.

(** A match of the string search: a wanted key whose value gives a text
    that is not empty once trimmed; the text is what the match yields. *)
Definition TextMatch (keys : list string) (entry : string * Val) (text : string) : Prop :=
  Wanted keys entry.1
  ∧ text = JsString.trim (stringOr entry.2) ∧ text <> EmptyString.

(** A match of the array search: a wanted key whose value is an array. *)
Definition ArrayMatch (keys : list string) (entry : string * Val) (items : list Val)
    : Prop :=
  Wanted keys entry.1 ∧ exists b, entry.2 = VRef b ∧ h !! b = Some (NArr items).

(** [r] is what the first match yields: the match sits at field [i] of
    the [p]-th object taken up, and no field before it, in an earlier
    object or earlier in the same one, is a match. *)
Definition FirstMatch {R : Type} (Matches : string * Val -> R -> Prop)
    (order : list nat) (r : R) : Prop :=
  exists p a i entry,
    order !! p = Some a ∧ fieldAt a i = Some entry ∧ Matches entry r
    ∧ forall p' a' i' entry' r',
        (p' < p ∨ (p' = p ∧ i' < i))%nat ->
        order !! p' = Some a' -> fieldAt a' i' = Some entry' -> ¬ Matches entry' r'.

(** Some field of an object reachable from the payload is a match. *)
Definition SomeMatch {R : Type} (Matches : string * Val -> R -> Prop)
    (payload : Val) : Prop :=
  exists a i entry r,
    reachable payload a ∧ fieldAt a i = Some entry ∧ Matches entry r.

(** *** Facts: the search ends, and returns the first match *)

Definition pending (visited : gset nat) (a : nat) : nat :=
  if bool_decide (a ∈ visited) then O else outDegree a.

(** What is left to do: the stack, and the values that the objects not
    yet visited can still push. *)
Definition measure (stack : list Val) (visited : gset nat) : nat :=
  length stack + sum_list (map (pending visited) (seq 0 (length h))).

Lemma elem_of_rev {A} (x : A) (l : list A) : x ∈ rev l <-> x ∈ l.
Proof. rewrite !list_elem_of_In. symmetry. apply in_rev. Qed.

Lemma pending_le visited a b : (pending ({[a]} ∪ visited) b <= pending visited b)%nat.
Proof.
  unfold pending. repeat case_bool_decide; try lia. set_solver.
Qed.

Lemma sum_pending_le visited a (l : list nat) :
  (sum_list (map (pending ({[a]} ∪ visited)) l) <= sum_list (map (pending visited) l))%nat.
Proof.
  induction l as [|b l IH]; simpl; [lia|]. pose proof (pending_le visited a b). lia.
Qed.

Lemma sum_pending_visit visited a (l : list nat) :
  a ∉ visited -> a ∈ l ->
  (sum_list (map (pending ({[a]} ∪ visited)) l) + outDegree a
   <= sum_list (map (pending visited) l))%nat.
Proof.
  intros Hnew. induction l as [|b l IH]; [by rewrite elem_of_nil|].
  rewrite elem_of_cons. simpl. intros [<-|Hin].
  - pose proof (sum_pending_le visited a l). unfold pending at 1 3.
    rewrite bool_decide_eq_true_2 by set_solver.
    rewrite bool_decide_eq_false_2 by done. lia.
  - pose proof (pending_le visited a b). specialize (IH Hin). lia.
Qed.

Lemma outDegree_dangling a : h !! a = None -> outDegree a = O.
Proof. unfold outDegree, children. by intros ->. Qed.

Lemma measure_visit stack visited a :
  a ∉ visited ->
  (measure (rev (refsOf (children a)) ++ stack) ({[a]} ∪ visited)
   <= measure stack visited)%nat.
Proof.
  intros Hnew. unfold measure. rewrite length_app, length_rev.
  fold (outDegree a).
  destruct (h !! a) as [node|] eqn:Hnode.
  - assert (a ∈ seq 0 (length h)) as Hin.
    { apply elem_of_seq. apply lookup_lt_Some in Hnode. lia. }
    pose proof (sum_pending_visit visited a _ Hnew Hin). lia.
  - rewrite (outDegree_dangling a Hnode).
    pose proof (sum_pending_le visited a (seq 0 (length h))). lia.
Qed.

Lemma traverse_enough fuel stack visited :
  (measure stack visited < fuel)%nat -> is_Some (traverse fuel stack visited).
Proof.
  revert stack visited. induction fuel as [|fuel IH]; intros stack visited Hfuel; [lia|].
  destruct stack as [|current stack']; [by eexists|].
  assert (measure stack' visited < fuel)%nat as Hpop.
  { unfold measure in *. simpl in Hfuel. lia. }
  destruct current as [| | | | |a]; simpl; try by apply IH.
  case_bool_decide as Hseen; [by apply IH|].
  apply fmap_is_Some, IH.
  pose proof (measure_visit stack' visited a Hseen). lia.
Qed.

Lemma traverse_more fuel fuel' stack visited order :
  traverse fuel stack visited = Some order -> (fuel <= fuel')%nat ->
  traverse fuel' stack visited = Some order.
Proof.
  revert fuel' stack visited order.
  induction fuel as [|fuel IH]; intros fuel' stack visited order; [done|].
  destruct fuel' as [|fuel']; [lia|]. intros Hrun Hle.
  assert (fuel <= fuel')%nat as Hle' by lia.
  destruct stack as [|current stack']; [done|].
  destruct current as [| | | | |a]; simpl in *; eauto.
  case_bool_decide; eauto.
  destruct (traverse fuel _ _) as [rest|] eqn:Hrest; [|done].
  by rewrite (IH _ _ _ _ Hrest Hle').
Qed.

Lemma scanFields_spec {R} (hit : Val -> option R) wanted fields stack :
  scanFields hit wanted fields stack
  = match head (fieldHits hit wanted fields) with
    | Some r => inl r
    | None => inr (rev (refsOf (map snd fields)) ++ stack)
    end.
Proof.
  revert stack. induction fields as [|entry rest IH]; intros stack; [done|].
  cbn [scanFields fieldHits omap list_omap map refsOf List.filter].
  fold (fieldHits hit wanted rest). fold (refsOf (map snd rest)).
  destruct (entryHit hit wanted entry) as [r|]; [done|]. rewrite IH.
  destruct (head (fieldHits hit wanted rest)); [done|].
  destruct (isObject entry.2); [|done]. cbn [rev]. by rewrite <- app_assoc.
Qed.

(** The search returns the first hit met along the traversal. *)
Lemma walk_first_hit {R} (hit : Val -> option R) wanted fuel stack visited order :
  traverse fuel stack visited = Some order ->
  walk hit wanted fuel stack visited = Some (head (flat_map (hitsOf hit wanted) order)).
Proof.
  revert stack visited order.
  induction fuel as [|fuel IH]; intros stack visited order; [done|].
  destruct stack as [|current stack']; [by intros [= <-]|].
  destruct current as [| | | | |a]; simpl; eauto.
  case_bool_decide; eauto.
  destruct (traverse fuel _ _) as [rest|] eqn:Hrest; [|done]. intros [= <-].
  cbn [flat_map]. unfold hitsOf at 1. unfold children in Hrest.
  destruct (h !! a) as [[items|fields]|].
  - by apply IH.
  - rewrite scanFields_spec.
    destruct (fieldHits hit wanted fields) as [|r hits] eqn:Hhits; [|done].
    by apply IH.
  - by apply IH.
Qed.

Lemma traverse_fresh fuel stack visited order :
  traverse fuel stack visited = Some order ->
  NoDup order ∧ (forall a, a ∈ order -> a ∉ visited).
Proof.
  revert stack visited order.
  induction fuel as [|fuel IH]; intros stack visited order; [done|].
  destruct stack as [|current stack'].
  { intros [= <-]. split; [constructor|]. intros a. by rewrite elem_of_nil. }
  destruct current as [| | | | |a]; simpl; eauto.
  case_bool_decide as Hseen; eauto.
  destruct (traverse fuel _ _) as [rest|] eqn:Hrest; [|done]. intros [= <-].
  destruct (IH _ _ _ Hrest) as [Hnd Hfresh]. split.
  - constructor; [|done]. intros Hin. apply Hfresh in Hin.
    apply Hin, elem_of_union. left. by apply elem_of_singleton.
  - intros b. rewrite elem_of_cons. intros [->|Hb]; [done|].
    apply Hfresh in Hb. intros Hv. apply Hb, elem_of_union. by right.
Qed.

(** Every object on the stack ends up visited, and so does every
    child of an object the traversal takes up. *)
Lemma traverse_closed fuel stack visited order :
  traverse fuel stack visited = Some order ->
  (forall a, VRef a ∈ stack -> a ∈ visited ∨ a ∈ order)
  ∧ (forall a b, a ∈ order -> VRef b ∈ children a -> b ∈ visited ∨ b ∈ order).
Proof.
  revert stack visited order.
  induction fuel as [|fuel IH]; intros stack visited order; [done|].
  destruct stack as [|current stack'].
  { intros [= <-]. split; intros a; [by rewrite elem_of_nil|].
    intros b. by rewrite elem_of_nil. }
  assert (forall c rest, (forall a, VRef a ∈ rest -> a ∈ visited ∨ a ∈ order) ->
            isObject c = false ->
            forall a, VRef a ∈ c :: rest -> a ∈ visited ∨ a ∈ order) as Hskip.
  { intros c rest Hrest Hc a. rewrite elem_of_cons. intros [<-|Hin]; [done|auto]. }
  destruct current as [| | | | |a]; simpl;
    try (intros Hrun; destruct (IH _ _ _ Hrun) as [H1 H2]; split; [|done];
         by apply Hskip).
  case_bool_decide as Hseen.
  - intros Hrun. destruct (IH _ _ _ Hrun) as [H1 H2]. split; [|done].
    intros b. rewrite elem_of_cons. intros [[= ->]|Hin]; [by left|auto].
  - destruct (traverse fuel _ _) as [rest|] eqn:Hrest; [|done]. intros [= <-].
    destruct (IH _ _ _ Hrest) as [H1 H2].
    assert (forall b, VRef b ∈ rev (refsOf (children a)) ++ stack' ->
              b ∈ visited ∨ b ∈ a :: rest) as Hstack.
    { intros b Hb. destruct (H1 b Hb) as [Hv|Hr]; [|right; by right].
      apply elem_of_union in Hv as [Hv|Hv]; [|by left].
      apply elem_of_singleton in Hv as ->. right. by left. }
    split.
    + intros b. rewrite elem_of_cons. intros [[= ->]|Hin]; [right; by left|].
      apply Hstack. apply elem_of_app. by right.
    + intros x b. rewrite elem_of_cons. intros [->|Hx] Hchild.
      * apply Hstack. apply elem_of_app. left. apply elem_of_rev.
        unfold refsOf. apply list_elem_of_In, filter_In. split; [|done].
        by apply list_elem_of_In.
      * destruct (H2 x b Hx Hchild) as [Hv|Hr]; [|right; by right].
        apply elem_of_union in Hv as [Hv|Hv]; [|by left].
        apply elem_of_singleton in Hv as ->. right. by left.
Qed.

Lemma traverse_reaches fuel payload order a :
  traverse fuel [payload] ∅ = Some order -> reachable payload a -> a ∈ order.
Proof.
  intros Hrun. destruct (traverse_closed _ _ _ _ Hrun) as [Hroot Hstep].
  induction 1 as [a ->|a b _ IH Hchild].
  - destruct (Hroot a) as [Hv|Ho]; [by left|by apply not_elem_of_empty in Hv|done].
  - destruct (Hstep a b IH Hchild) as [Hv|Ho]; [by apply not_elem_of_empty in Hv|done].
Qed.

(** Only reachable objects are taken up. *)
Lemma traverse_within fuel payload stack visited order :
  traverse fuel stack visited = Some order ->
  (forall a, VRef a ∈ stack -> reachable payload a) ->
  forall a, a ∈ order -> reachable payload a.
Proof.
  revert stack visited order.
  induction fuel as [|fuel IH]; intros stack visited order; [done|].
  destruct stack as [|current stack'].
  { intros [= <-] _ a. by rewrite elem_of_nil. }
  assert (forall c, (forall a, VRef a ∈ c :: stack' -> reachable payload a) ->
            forall a, VRef a ∈ stack' -> reachable payload a) as Hpop.
  { intros c Hall a Ha. apply Hall. by right. }
  destruct current as [| | | | |a]; simpl; eauto.
  case_bool_decide as Hseen; eauto.
  destruct (traverse fuel _ _) as [rest|] eqn:Hrest; [|done]. intros [= <-] Hall.
  assert (reachable payload a) as Ha by (apply Hall; by left).
  intros b. rewrite elem_of_cons. intros [->|Hb]; [done|].
  eapply IH; [exact Hrest| |exact Hb].
  intros x. rewrite elem_of_app, elem_of_rev. intros [Hx|Hx]; [|apply Hall; by right].
  apply (reachable_child payload a x Ha).
  unfold refsOf in Hx. apply list_elem_of_In, filter_In in Hx as [Hx _].
  by apply list_elem_of_In.
Qed.

Lemma measure_initial payload : (measure [payload] ∅ < fuelFor)%nat.
Proof.
  unfold measure, fuelFor. cbn [length].
  assert (map (pending ∅) (seq 0 (length h)) = map outDegree (seq 0 (length h))) as ->.
  { apply map_ext. intros a. unfold pending. by rewrite bool_decide_eq_false_2. }
  lia.
Qed.

Lemma entryHit_text keys entry text :
  entryHit usableText (wantedSet keys) entry = Some text <-> TextMatch keys entry text.
Proof.
  unfold entryHit, TextMatch, Wanted, wantedSet, usableText. cbv zeta.
  case_bool_decide as Hin.
  - apply list_elem_of_fmap in Hin as (name & Heq & Hname).
    destruct (String.eqb_spec (JsString.trim (stringOr entry.2)) EmptyString) as [Hempty|Hne].
    + split; [done|]. intros (_ & -> & Hne). done.
    + split; [intros [= <-]; eauto|]. by intros (_ & -> & _).
  - split; [done|]. intros ((name & Hname & Heq) & _). destruct Hin.
    apply list_elem_of_fmap. eauto.
Qed.

Lemma entryHit_array keys entry items :
  entryHit arrayItems (wantedSet keys) entry = Some items <-> ArrayMatch keys entry items.
Proof.
  unfold entryHit, ArrayMatch, Wanted, wantedSet, arrayItems.
  case_bool_decide as Hin.
  - apply list_elem_of_fmap in Hin as (name & Heq & Hname). split.
    + destruct entry.2 as [| | | | |b]; try done.
      destruct (h !! b) as [[found|]|] eqn:Hb; try done. intros [= <-].
      split; [eauto|]. by exists b.
    + intros (_ & b & -> & ->). done.
  - split; [done|]. intros ((name & Hname & Heq) & _). destruct Hin.
    apply list_elem_of_fmap. eauto.
Qed.

(** The first hit among the fields of one object. *)
Lemma fieldHits_first {R} (hit : Val -> option R) wanted fields :
  match head (fieldHits hit wanted fields) with
  | Some r =>
      exists i entry,
        fields !! i = Some entry ∧ entryHit hit wanted entry = Some r
        ∧ forall i' entry', (i' < i)%nat -> fields !! i' = Some entry' ->
                            entryHit hit wanted entry' = None
  | None => forall i entry, fields !! i = Some entry -> entryHit hit wanted entry = None
  end.
Proof.
  induction fields as [|first rest IH].
  { intros i entry. by rewrite lookup_nil. }
  cbn [fieldHits omap list_omap]. fold (fieldHits hit wanted rest).
  destruct (entryHit hit wanted first) as [r|] eqn:Hfirst.
  - exists O, first. split; [done|]. split; [done|]. intros i' entry' Hlt. lia.
  - destruct (head (fieldHits hit wanted rest)) as [r|].
    + destruct IH as (i & entry & Hi & Hhit & Hbefore).
      exists (S i), entry. split; [done|]. split; [done|].
      intros [|i'] entry' Hlt Hentry'.
      * by injection Hentry' as <-.
      * apply (Hbefore i'); [lia|done].
    + intros [|i] entry Hentry.
      * by injection Hentry as <-.
      * by apply (IH i).
Qed.

(** The first hit along an order of objects. *)
Lemma hitsOf_first {R} (hit : Val -> option R) wanted order :
  match head (flat_map (hitsOf hit wanted) order) with
  | Some r =>
      exists p a i entry,
        order !! p = Some a ∧ fieldAt a i = Some entry
        ∧ entryHit hit wanted entry = Some r
        ∧ forall p' a' i' entry',
            (p' < p ∨ (p' = p ∧ i' < i))%nat ->
            order !! p' = Some a' -> fieldAt a' i' = Some entry' ->
            entryHit hit wanted entry' = None
  | None =>
      forall p a i entry,
        order !! p = Some a -> fieldAt a i = Some entry ->
        entryHit hit wanted entry = None
  end.
Proof.
  induction order as [|a rest IH].
  { intros p a i entry. by rewrite lookup_nil. }
  cbn [flat_map].
  assert (match head (hitsOf hit wanted a) with
          | Some r =>
              exists i entry,
                fieldAt a i = Some entry ∧ entryHit hit wanted entry = Some r
                ∧ forall i' entry', (i' < i)%nat -> fieldAt a i' = Some entry' ->
                                    entryHit hit wanted entry' = None
          | None => forall i entry, fieldAt a i = Some entry ->
                                    entryHit hit wanted entry = None
          end) as Hhere.
  { unfold hitsOf, fieldAt. destruct (h !! a) as [[items|fields]|]; try done.
    apply fieldHits_first. }
  destruct (hitsOf hit wanted a) as [|r hits].
  - rewrite app_nil_l. cbn [head] in Hhere.
    destruct (head (flat_map (hitsOf hit wanted) rest)) as [r|].
    + destruct IH as (p & b & i & entry & Hp & Hi & Hhit & Hbefore).
      exists (S p), b, i, entry. split; [done|]. split; [done|]. split; [done|].
      intros [|p'] a' i' entry' Hlt Ha' Hentry'.
      * injection Ha' as <-. by apply (Hhere i').
      * apply (Hbefore p' a' i'); [lia|done|done].
    + intros [|p] b i entry Hb Hentry.
      * injection Hb as <-. by apply (Hhere i).
      * by apply (IH p b i).
  - cbn [app head] in *. destruct Hhere as (i & entry & Hi & Hhit & Hbefore).
    exists O, a, i, entry. split; [done|]. split; [done|]. split; [done|].
    intros p' a' i' entry' [Hlt|[-> Hlt]] Ha' Hentry'; [lia|].
    injection Ha' as <-. by apply (Hbefore i').
Qed.

(** What [walk] returns, by matches that are stated without the loop. *)
Lemma walk_first_match {R} (hit : Val -> option R) (Matches : string * Val -> R -> Prop)
    wanted payload order (found : option R) :
  (forall entry r, entryHit hit wanted entry = Some r <-> Matches entry r) ->
  (forall a, a ∈ order <-> reachable payload a) ->
  found = head (flat_map (hitsOf hit wanted) order) ->
  (SomeMatch Matches payload -> exists r, found = Some r ∧ FirstMatch Matches order r)
  ∧ (¬ SomeMatch Matches payload -> found = None).
Proof.
  intros Hhit Horder ->. pose proof (hitsOf_first hit wanted order) as Hfirst.
  destruct (head (flat_map (hitsOf hit wanted) order)) as [r|].
  - destruct Hfirst as (p & a & i & entry & Hp & Hi & Hr & Hbefore).
    split.
    + intros _. exists r. split; [done|]. exists p, a, i, entry.
      split; [done|]. split; [done|]. split; [by apply Hhit|].
      intros p' a' i' entry' r' Hlt Ha' Hentry' Hmatch. apply Hhit in Hmatch.
      by rewrite (Hbefore p' a' i' entry' Hlt Ha' Hentry') in Hmatch.
    + intros Hnone. destruct Hnone. exists a, i, entry, r.
      split; [|split; [done|by apply Hhit]].
      apply Horder. by apply list_elem_of_lookup_2 with p.
  - split; [|done]. intros (a & i & entry & r & Ha & Hi & Hmatch).
    apply Horder, list_elem_of_lookup_1 in Ha as [p Hp]. apply Hhit in Hmatch.
    by rewrite (Hfirst p a i entry Hp Hi) in Hmatch.
Qed.

(** C8: on every heap, cyclic or not, the deep search ends: the fuel
    [fuelFor] is enough, and more fuel changes nothing.  The loop takes
    up each object reachable from the payload exactly once, in the
    order [order].  When some field of a reachable object has a key
    that agrees in lower case with a wanted name and a value that gives
    a non-empty trimmed text, [getDeepString] returns the text of the
    first such field along that order; [getDeepArray] likewise returns
    the array of the first field with a wanted key whose value is an
    array; without such a field they return the empty string and the
    empty array. *)
Theorem deep_search_terminates_with_first_match (payload : Val) (keys : list string) :
  exists order,
    (forall fuel, (fuelFor <= fuel)%nat -> traverse fuel [payload] ∅ = Some order)
    ∧ NoDup order
    ∧ (forall a, a ∈ order <-> reachable payload a)
    ∧ (forall fuel, (fuelFor <= fuel)%nat ->
         exists text,
           getDeepStringFuel fuel payload keys = Some text
           ∧ (SomeMatch (TextMatch keys) payload -> FirstMatch (TextMatch keys) order text)
           ∧ (¬ SomeMatch (TextMatch keys) payload -> text = EmptyString))
    ∧ (forall fuel, (fuelFor <= fuel)%nat ->
         exists items,
           getDeepArrayFuel fuel payload keys = Some items
           ∧ (SomeMatch (ArrayMatch keys) payload -> FirstMatch (ArrayMatch keys) order items)
           ∧ (¬ SomeMatch (ArrayMatch keys) payload -> items = [])).
Proof.
  destruct (traverse_enough fuelFor [payload] ∅ (measure_initial payload))
    as [order Horder].
  exists order.
  assert (forall fuel, (fuelFor <= fuel)%nat -> traverse fuel [payload] ∅ = Some order)
    as Hall by (intros fuel Hfuel; by eapply traverse_more).
  split; [done|]. split; [by destruct (traverse_fresh _ _ _ _ Horder)|].
  assert (forall a, a ∈ order <-> reachable payload a) as Hreach.
  { intros a. split.
    - apply (traverse_within _ payload _ _ _ Horder).
      intros b Hb. apply list_elem_of_singleton in Hb. by constructor.
    - by apply traverse_reaches with fuelFor. }
  split; [done|].
  assert (isObject payload = false -> order = []) as Hplain.
  { intros Hp. unfold fuelFor in Horder. cbn [Nat.add traverse] in Horder.
    destruct payload; try discriminate; by injection Horder as <-. }
  assert (forall R (Matches : string * Val -> R -> Prop),
            order = [] -> ¬ SomeMatch Matches payload) as Hnone.
  { intros R Matches Hempty (a & i & entry & r & Ha & _). apply Hreach in Ha.
    rewrite Hempty in Ha. by apply elem_of_nil in Ha. }
  split; intros fuel Hfuel.
  - unfold getDeepStringFuel.
    destruct (negb (truthy payload) || negb (isObject payload)) eqn:Hguard.
    + exists EmptyString. split; [done|]. split; [|done]. intros Hsome.
      destruct (Hnone _ (TextMatch keys)); [|done]. apply Hplain. by destruct payload.
    + rewrite (walk_first_hit _ _ _ _ _ _ (Hall fuel Hfuel)).
      destruct (walk_first_match usableText (TextMatch keys) (wantedSet keys) payload
                  order _ (entryHit_text keys) Hreach eq_refl) as [Hsome Hno].
      eexists. split; [reflexivity|]. split.
      * intros Hmatch. destruct (Hsome Hmatch) as (r & -> & Hfirst). exact Hfirst.
      * intros Hmatch. by rewrite (Hno Hmatch).
  - unfold getDeepArrayFuel.
    destruct (negb (truthy payload) || negb (isObject payload)) eqn:Hguard.
    + exists []. split; [done|]. split; [|done]. intros Hsome.
      destruct (Hnone _ (ArrayMatch keys)); [|done]. apply Hplain. by destruct payload.
    + rewrite (walk_first_hit _ _ _ _ _ _ (Hall fuel Hfuel)).
      destruct (walk_first_match arrayItems (ArrayMatch keys) (wantedSet keys) payload
                  order _ (entryHit_array keys) Hreach eq_refl) as [Hsome Hno].
      eexists. split; [reflexivity|]. split.
      * intros Hmatch. destruct (Hsome Hmatch) as (r & -> & Hfirst). exact Hfirst.
      * intros Hmatch. by rewrite (Hno Hmatch).
Qed.

End Search.
End Graph.

(** Two objects that point at each other; the second holds the key. *)
Example deep_search_on_cycle :
  let h := [Graph.NObj [("peer", Graph.VRef 1%nat); ("ShareID", Graph.VStr " ")];
            Graph.NObj [("back", Graph.VRef 0%nat); ("shareId", Graph.VStr " s1 ")]]%string in
  Graph.getDeepString (fun _ _ => EmptyString) h (Graph.VRef 0%nat) ["shareId"; "shareID"]%string
  = "s1"%string.
Proof. vm_compute. reflexivity. Qed.

(** ** The share-link resolver script *)

Module Resolver.
Import Graph.
Import Cloud.Notations.
#[local] Open Scope string_scope.
#[local] Open Scope Z_scope.
#[local] Open Scope list_scope.
#[local] Open Scope cloud_scope.

(** What [new URL(text)] gives when it accepts the text. *)
Record ParsedUrl : Type := {
  hostname : string;
  pathname : string;
  searchParams : list (string * string)
}.

Record AttemptRecord : Type := {
  attemptStep : string;
  attemptEndpoint : string;
  attemptOk : bool;
  attemptStatus : Z;
  attemptMessage : option string;
  body_type : option string;
  body_preview : option string;
  attemptShareId : option string
}.

Record ShareFile : Type := {
  file_id : string;
  name : string;
  size : Z;
  is_folder : bool
}.

Record FailureDiagnostics : Type := {
  share_code : string;
  share_url : string;
  failedAttempts : list AttemptRecord;
  check_payload_keys : list string;
  info_payload_keys : list string
}.

(** The object [run] returns, which [main] prints. *)
Inductive Outcome : Type :=
| Resolved (share_code share_id pwd : string) (files : list ShareFile)
    (attempts : list AttemptRecord)
| Unresolved (error : string) (diagnostics : FailureDiagnostics).

(** What [main] writes to standard output. *)
Inductive Emitted : Type :=
| EmitOutcome (result : Outcome)
| EmitError (error : string).

Record Process : Type := { stdout : list Emitted; exitCode : Z }.

Definition startsWith (prefix s : string) : bool :=
  String.eqb (substring 0 (String.length prefix) s) prefix.

Fixpoint includes (needle s : string) : bool :=
  startsWith needle s
  || match s with
     | EmptyString => false
     | String _ rest => includes needle rest
     end.

(** [Number.parseInt(text, 10)]; [None] is [NaN]. *)
Fixpoint leadingDigits (s : string) (acc : option Z) : option Z :=
  match s with
  | EmptyString => acc
  | String c rest =>
      let n := Z.of_N (N_of_ascii c) in
      if (48 <=? n) && (n <=? 57)
      then leadingDigits rest (Some (10 * default 0 acc + (n - 48)))
      else acc
  end.

Definition parseInt (text : string) : option Z :=
  match JsString.trimStart text with
  | String "-"%char rest => Z.opp <$> leadingDigits rest None
  | String "+"%char rest => leadingDigits rest None
  | t => leadingDigits t None
  end.

Definition pathPartsOf (pathname : string) : list string :=
  List.filter (fun item => negb (String.eqb (JsString.trim item) EmptyString))
    (Cloud.splitOn "/" pathname).

Definition hostAccepted (host : string) : bool :=
  String.eqb host "cloud.189.cn" || String.eqb host "www.cloud.189.cn".

Definition pathAccepted (pathParts : list string) : bool :=
  match pathParts with
  | first :: _ :: _ => String.eqb first "t"
  | _ => false
  end.

Fixpoint searchGet {V} (k : string) (params : list (string * V)) : option V :=
  match params with
  | [] => None
  | (k', v) :: rest => if String.eqb k k' then Some v else searchGet k rest
  end.

(** A fresh [{}]. *)
Definition emptyObject : Heap * Val := ([NObj []], VRef 0).

Section Script.
Variable arrayText : Heap -> list Val -> string.
Variable server : list Cloud.Request -> Cloud.Request -> Cloud.FetchResult.
Variable nowMs : list Cloud.Request -> Z.
(** [JSON.parse]: the objects it allocates and the value it returns. *)
Variable JSON_parse : string -> option (Heap * Val).
Variable parseUrl : string -> option ParsedUrl.
Variable encodeURIComponent : string -> string.
(** The first group of [/^\s*[\w.$]+\(([\s\S]+)\)\s*;?\s*$/]. *)
Variable jsonpBody : string -> option string.
(** The first group of each of the three share-id patterns. *)
Variable shareIdPatterns : list (string -> option string).

Definition shortText : string -> string := Cloud.shortText.

Definition detectBodyType (text : string) : string :=
  let raw := JsString.trim text in
  if String.eqb raw EmptyString then "empty"
  else
    let head := JsString.toLowerCase (JsString.sliceUnits 120 raw) in
    if startsWith "{" raw || startsWith "[" raw then "json"
    else if bool_decide (is_Some (jsonpBody raw)) then "jsonp"
    else if startsWith "<" raw then
      if includes "<!doctype html" head || includes "<html" head then "html" else "xml"
    else "text".

(** [None] is [null]. *)
Definition parseJsonLike (text : string) : option (Heap * Val) :=
  let raw := JsString.trim text in
  if String.eqb raw EmptyString then None
  else match JSON_parse raw with
       | Some parsed => Some parsed
       | None =>
           match jsonpBody raw with
           | Some inner => JSON_parse (JsString.trim inner)
           | None => None
           end
       end.

Definition getProp (h : Heap) (v : Val) (k : string) : Val :=
  match v with
  | VRef a =>
      match h !! a with
      | Some (NObj fields) => default VUndefined (searchGet k fields)
      | _ => VUndefined
      end
  | _ => VUndefined
  end.

(** [String(value ?? "")]. *)
Definition stringOrNullish (h : Heap) (v : Val) : string :=
  match v with
  | VUndefined | VNull => EmptyString
  | _ => String_ arrayText h v
  end.

Definition asInt (h : Heap) (value : Val) (fallback : Z) : Z :=
  default fallback (parseInt (stringOrNullish h value)).

Definition toFolderFlag (h : Heap) (value : Val) : bool :=
  let text := JsString.trim (JsString.toLowerCase (stringOrNullish h value)) in
  String.eqb text "1" || String.eqb text "true".

Fixpoint firstPattern (patterns : list (string -> option string)) (raw : string) : string :=
  match patterns with
  | [] => EmptyString
  | pattern :: rest =>
      match pattern raw with
      | Some group =>
          if String.eqb group EmptyString then firstPattern rest raw
          else JsString.trim group
      | None => firstPattern rest raw
      end
  end.

Definition extractShareIdFromText (text : string) : string :=
  if String.eqb text EmptyString then EmptyString else firstPattern shareIdPatterns text.

Record TextResponse : Type := {
  respStatus : Z;
  respUrl : string;
  respText : string;
  bodyType : string;
  payload : option (Heap * Val)
}.

Definition requestText (url cookie : string) (extraHeaders : list (string * string))
    : Cloud.M TextResponse :=
  fun w =>
    let w' := {| Cloud.sent := Cloud.sent w ++ [Cloud.TextRequest cookie url extraHeaders];
                 Cloud.disk := Cloud.disk w; Cloud.dirs := Cloud.dirs w |} in
    match server (Cloud.sent w) (Cloud.TextRequest cookie url extraHeaders) with
    | Cloud.FetchFailed reason =>
        (inl {| Cloud.exnName := "TypeError"; Cloud.exnMessage := reason |}, w')
    | Cloud.Fetched response =>
        (inr {| respStatus := Cloud.status response;
                respUrl := if String.eqb (Cloud.finalUrl response) EmptyString then url
                           else Cloud.finalUrl response;
                respText := Cloud.text response;
                bodyType := detectBodyType (Cloud.text response);
                payload := parseJsonLike (Cloud.text response) |}, w')
    end.

(** [payload && typeof payload === "object" ? payload : {}]. *)
Definition objectOr (payload : option (Heap * Val)) : Heap * Val :=
  match payload with
  | Some (h, VRef a) => (h, VRef a)
  | _ => emptyObject
  end.

Definition objectKeys (obj : Heap * Val) : list string :=
  match obj.2 with
  | VRef a =>
      match obj.1 !! a with
      | Some (NObj fields) => map fst fields
      | Some (NArr items) => map (fun i => JsString.ofZ (Z.of_nat i)) (seq 0 (length items))
      | None => []
      end
  | _ => []
  end.

(** [a || b] on strings. *)
Definition orElse (a b : string) : string :=
  if String.eqb a EmptyString then b else a.

Definition fileOfItem (h : Heap) (item : Val) : option ShareFile :=
  if negb (truthy item) || negb (isObject item) then None
  else
    let idRaw := if truthy (getProp h item "id") then getProp h item "id"
                 else getProp h item "fileId" in
    let fileId := JsString.trim (stringOr arrayText h idRaw) in
    if String.eqb fileId EmptyString then None
    else
      let nameRaw := if truthy (getProp h item "name") then getProp h item "name"
                     else getProp h item "fileName" in
      let sizeRaw := match getProp h item "size" with
                     | VUndefined | VNull => getProp h item "fileSize"
                     | v => v
                     end in
      Some {| file_id := fileId;
              name := if truthy nameRaw then String_ arrayText h nameRaw
                      else "file-" +:+ fileId;
              size := Z.max 0 (asInt h sizeRaw 0);
              is_folder := toFolderFlag h (getProp h item "isFolder") |}.

Definition mapFilesFromPayload (obj : Heap * Val) : list ShareFile :=
  omap (fileOfItem obj.1)
    (getDeepArray obj.1 obj.2 ["fileList"; "files"; "rows"; "list"]).

Definition baseAttempt (step endpoint : string) : AttemptRecord :=
  {| attemptStep := step; attemptEndpoint := endpoint; attemptOk := false;
     attemptStatus := 0; attemptMessage := None; body_type := None;
     body_preview := None; attemptShareId := None |}.

Definition responseAttempt (step endpoint : string) (isOk : bool) (resp : TextResponse)
    (shareId : string) : AttemptRecord :=
  {| attemptStep := step; attemptEndpoint := endpoint; attemptOk := isOk;
     attemptStatus := respStatus resp; attemptMessage := None;
     body_type := Some (bodyType resp);
     body_preview := Some (shortText (respText resp));
     attemptShareId := Some shareId |}.

Definition shareIdKeys : list string := ["shareId"; "shareID"; "shareid"].

(** [input.k]; reading a property of [null] or [undefined] throws. *)
Definition readInput (input : Heap * Val) (k : string) : Cloud.M Val :=
  match input.2 with
  | VUndefined | VNull =>
      fun w => (inl {| Cloud.exnName := "TypeError";
                       Cloud.exnMessage := "Cannot read properties of null (reading '"
                                           +:+ k +:+ "')" |}, w)
  | v => Cloud.ret (getProp input.1 v k)
  end.

Definition checkEndpoint : string := "/api/open/share/checkAccessCode.action".
Definition infoEndpoint : string := "/api/open/share/getShareInfoByCodeV2.action".
Definition listEndpoint : string := "/api/open/share/listShareDir.action".

Definition checkUrlOf (noCache shareCode pwd : string) : string :=
  "https://cloud.189.cn/api/open/share/checkAccessCode.action"
  +:+ "?noCache=" +:+ encodeURIComponent noCache
  +:+ "&shareCode=" +:+ encodeURIComponent shareCode
  +:+ "&accessCode=" +:+ encodeURIComponent pwd.

Definition infoUrlOf (noCache shareCode : string) : string :=
  "https://cloud.189.cn/api/open/share/getShareInfoByCodeV2.action"
  +:+ "?noCache=" +:+ encodeURIComponent noCache
  +:+ "&shareCode=" +:+ encodeURIComponent shareCode.

Definition listUrlOf (isFolder : bool) (noCache shareId rootFileId pwd : string) : string :=
  if isFolder then
    "https://cloud.189.cn/api/open/share/listShareDir.action"
    +:+ "?noCache=" +:+ encodeURIComponent noCache
    +:+ "&pageNum=1&pageSize=60"
    +:+ "&fileId=" +:+ encodeURIComponent shareId
    +:+ "&shareDirFileId=" +:+ encodeURIComponent shareId
    +:+ "&isFolder=true"
    +:+ "&shareId=" +:+ encodeURIComponent shareId
    +:+ "&shareMode=1&iconOption=5"
    +:+ "&orderBy=lastOpTime&descending=true"
    +:+ "&accessCode=" +:+ encodeURIComponent pwd
  else
    "https://cloud.189.cn/api/open/share/listShareDir.action"
    +:+ "?noCache=" +:+ encodeURIComponent noCache
    +:+ "&fileId=" +:+ encodeURIComponent (orElse rootFileId shareId)
    +:+ "&shareMode=1&isFolder=false"
    +:+ "&shareId=" +:+ encodeURIComponent shareId
    +:+ "&iconOption=5&pageNum=1&pageSize=10"
    +:+ "&accessCode=" +:+ encodeURIComponent pwd.

(** The part of [run] after the URL has passed the checks. *)
Definition resolve (shareUrl cookie shareCode pwd : string) : Cloud.M Outcome :=
  fun w0 =>
  let noCache := JsString.ofZ (nowMs (Cloud.sent w0)) in
  (checked <-
     (if String.eqb pwd EmptyString then
        Cloud.ret (EmptyString, emptyObject,
                   [{| attemptStep := "check_access_code_primary_js";
                       attemptEndpoint := checkEndpoint; attemptOk := false;
                       attemptStatus := 0; attemptMessage := Some "pwd_missing_skip";
                       body_type := None; body_preview := None;
                       attemptShareId := None |}])
      else
        checkResp <- requestText (checkUrlOf noCache shareCode pwd) cookie [] ;;
        let checkObj := objectOr (payload checkResp) in
        let shareId :=
          orElse (getDeepString arrayText checkObj.1 checkObj.2 shareIdKeys) EmptyString in
        Cloud.ret (shareId, checkObj,
                   [responseAttempt "check_access_code_primary_js" checkEndpoint
                      (negb (String.eqb shareId EmptyString)) checkResp shareId])) ;;
   let '(shareId0, checkPayload, attempts0) := checked in
   infoResp <- requestText (infoUrlOf noCache shareCode) cookie [] ;;
   let infoObj := objectOr (payload infoResp) in
   let shareId1 :=
     orElse (getDeepString arrayText infoObj.1 infoObj.2 shareIdKeys) shareId0 in
   let rootFileId0 :=
     getDeepString arrayText infoObj.1 infoObj.2 ["fileId"; "fileID"; "fileid"] in
   let isFolder :=
     toFolderFlag infoObj.1
       (VStr (getDeepString arrayText infoObj.1 infoObj.2 ["isFolder"])) in
   let attempts1 := attempts0 ++
     [responseAttempt "get_share_info_js" infoEndpoint
        (negb (String.eqb shareId1 EmptyString)) infoResp shareId1] in
   let shareId :=
     if String.eqb shareId1 EmptyString then
       orElse (extractShareIdFromText (respText infoResp))
              (extractShareIdFromText (respUrl infoResp))
     else shareId1 in
   let rootFileId := orElse rootFileId0 shareId in
   if String.eqb shareId EmptyString then
     Cloud.ret (Unresolved "js_share_parse_failed_no_shareid"
                  {| share_code := shareCode; share_url := shareUrl;
                     failedAttempts := attempts1;
                     check_payload_keys := objectKeys checkPayload;
                     info_payload_keys := objectKeys infoObj |})
   else
     listResp <- requestText (listUrlOf isFolder noCache shareId rootFileId pwd) cookie
                   [("Sign-Type", "1")] ;;
     let listObj := objectOr (payload listResp) in
     let attempts2 := attempts1 ++
       [responseAttempt "list_share_dir_js" listEndpoint
          ((200 <=? respStatus listResp) && (respStatus listResp <? 400)) listResp shareId] in
     let mapped := mapFilesFromPayload listObj in
     let files :=
       match mapped with
       | [] =>
           if String.eqb rootFileId EmptyString then []
           else [{| file_id := rootFileId;
                    name := orElse (getDeepString arrayText infoObj.1 infoObj.2
                                      ["name"; "fileName"]) "single-file";
                    size := Z.max 0 (asInt infoObj.1
                                       (VStr (getDeepString arrayText infoObj.1 infoObj.2
                                                ["size"; "fileSize"])) 0);
                    is_folder := false |}]
       | _ => mapped
       end in
     Cloud.ret (Resolved shareCode shareId pwd files attempts2)) w0.

Definition run (input : Heap * Val) : Cloud.M Outcome :=
  shareUrlRaw <- readInput input "share_url" ;;
  cookieRaw <- readInput input "cookie" ;;
  let shareUrl := JsString.trim (stringOr arrayText input.1 shareUrlRaw) in
  let cookie := JsString.trim (stringOr arrayText input.1 cookieRaw) in
  if String.eqb shareUrl EmptyString then Cloud.throw "share_url_empty"
  else if String.eqb cookie EmptyString then Cloud.throw "cookie_empty"
  else
    match parseUrl shareUrl with
    | None => Cloud.throw "share_url_invalid"
    | Some parsedUrl =>
        let host := JsString.toLowerCase (hostname parsedUrl) in
        if negb (hostAccepted host) then Cloud.throw "share_host_invalid"
        else
          let pathParts := pathPartsOf (pathname parsedUrl) in
          if negb (pathAccepted pathParts) then Cloud.throw "share_path_invalid"
          else
            let shareCode := JsString.trim (nth 1 pathParts EmptyString) in
            let pwd := JsString.trim (default EmptyString
                                        (searchGet "pwd" (searchParams parsedUrl))) in
            resolve shareUrl cookie shareCode pwd
    end.

(** [main], run to completion: what it wrote and the exit status. *)
Definition main (raw : string) (w : Cloud.World) : Process * Cloud.World :=
  match (if String.eqb raw EmptyString then Some emptyObject else JSON_parse raw) with
  | None => ({| stdout := [EmitError "stdin_json_invalid"]; exitCode := 0 |}, w)
  | Some input =>
      match run input w with
      | (inr result, w') => ({| stdout := [EmitOutcome result]; exitCode := 0 |}, w')
      | (inl err, w') =>
          ({| stdout := [EmitError (orElse (Cloud.exnMessage err)
                                      (orElse (Cloud.exnName err)
                                         "js_resolver_exception"))];
              exitCode := 0 |}, w')
      end
  end.

(** *** Facts: what a resolution sends *)

Lemma requestText_world url cookie extraHeaders w :
  (requestText url cookie extraHeaders w).2
  = Cloud.afterSending w [Cloud.TextRequest cookie url extraHeaders].
Proof. unfold requestText. by destruct (server _ _). Qed.

Lemma requestText_error url cookie extraHeaders w err w1 :
  requestText url cookie extraHeaders w = (inl err, w1) -> Cloud.exnName err = "TypeError".
Proof. unfold requestText. destruct (server _ _); [by intros [= <- _]|done]. Qed.

Definition usableFile (f : ShareFile) : Prop := file_id f <> EmptyString ∧ 0 <= size f.

Lemma fileOfItem_usable h item f : fileOfItem h item = Some f -> usableFile f.
Proof.
  unfold fileOfItem. destruct (_ || _); [done|]. cbv zeta.
  destruct (String.eqb _ EmptyString) eqn:Hid; [done|].
  intros [= <-]. split; cbn [file_id size]; [by apply String.eqb_neq|lia].
Qed.

Lemma mapFilesFromPayload_files obj : Forall usableFile (mapFilesFromPayload obj).
Proof.
  unfold mapFilesFromPayload. apply Forall_forall. intros f Hf.
  apply list_elem_of_omap in Hf as (item & _ & Hitem). by eapply fileOfItem_usable.
Qed.

Definition checkRequests (cookie noCache shareCode pwd : string) : list Cloud.Request :=
  if String.eqb pwd EmptyString then []
  else [Cloud.TextRequest cookie (checkUrlOf noCache shareCode pwd) []].

Definition infoRequest (cookie noCache shareCode : string) : Cloud.Request :=
  Cloud.TextRequest cookie (infoUrlOf noCache shareCode) [].

Definition isListRequest (cookie noCache shareId pwd : string) (r : Cloud.Request) : Prop :=
  exists isFolder rootFileId,
    rootFileId <> EmptyString
    ∧ r = Cloud.TextRequest cookie (listUrlOf isFolder noCache shareId rootFileId pwd)
            [("Sign-Type", "1")].

Lemma resolve_run shareUrl cookie shareCode pwd w res w' :
  resolve shareUrl cookie shareCode pwd w = (res, w') ->
  let noCache := JsString.ofZ (nowMs (Cloud.sent w)) in
  let check := checkRequests cookie noCache shareCode pwd in
  let info := infoRequest cookie noCache shareCode in
  exists new,
    w' = Cloud.afterSending w new
    ∧ new <> []
    ∧ match res with
      | inr (Resolved code shareId accessCode files attempts) =>
          code = shareCode ∧ accessCode = pwd ∧ shareId <> EmptyString
          ∧ (exists list,
                new = check ++ [info; list] ∧ isListRequest cookie noCache shareId pwd list)
          ∧ map attemptStep attempts
            = ["check_access_code_primary_js"; "get_share_info_js"; "list_share_dir_js"]
          ∧ files <> [] ∧ Forall usableFile files
      | inr (Unresolved error diagnostics) =>
          error = "js_share_parse_failed_no_shareid"
          ∧ new = check ++ [info]
          ∧ share_code diagnostics = shareCode ∧ share_url diagnostics = shareUrl
          ∧ map attemptStep (failedAttempts diagnostics)
            = ["check_access_code_primary_js"; "get_share_info_js"]
      | inl err =>
          Cloud.exnName err = "TypeError"
          ∧ (new = check ∨ new = check ++ [info]
             ∨ exists shareId list,
                 new = check ++ [info; list]
                 ∧ isListRequest cookie noCache shareId pwd list)
      end.
Proof.
  unfold resolve. cbv zeta.
  set (noCache := JsString.ofZ (nowMs (Cloud.sent w))).
  unfold Cloud.bind at 1.
  assert (exists checked,
             (if String.eqb pwd EmptyString
              then Cloud.ret (EmptyString, emptyObject,
                     [{| attemptStep := "check_access_code_primary_js";
                         attemptEndpoint := checkEndpoint; attemptOk := false;
                         attemptStatus := 0; attemptMessage := Some "pwd_missing_skip";
                         body_type := None; body_preview := None;
                         attemptShareId := None |}])
              else
                Cloud.bind (requestText (checkUrlOf noCache shareCode pwd) cookie [])
                  (fun checkResp =>
                     Cloud.ret
                       (orElse (getDeepString arrayText (objectOr (payload checkResp)).1
                                  (objectOr (payload checkResp)).2 shareIdKeys) EmptyString,
                        objectOr (payload checkResp),
                        [responseAttempt "check_access_code_primary_js" checkEndpoint
                           (negb (String.eqb
                                    (orElse (getDeepString arrayText
                                               (objectOr (payload checkResp)).1
                                               (objectOr (payload checkResp)).2 shareIdKeys)
                                       EmptyString) EmptyString))
                           checkResp
                           (orElse (getDeepString arrayText (objectOr (payload checkResp)).1
                                      (objectOr (payload checkResp)).2 shareIdKeys)
                              EmptyString)]))) w
             = (checked, Cloud.afterSending w (checkRequests cookie noCache shareCode pwd))
             ∧ match checked with
               | inl err =>
                   Cloud.exnName err = "TypeError"
                   ∧ checkRequests cookie noCache shareCode pwd <> []
               | inr (_, _, attempts0) =>
                   map attemptStep attempts0 = ["check_access_code_primary_js"]
               end) as (checked & -> & Hchecked).
  { unfold checkRequests. destruct (String.eqb pwd EmptyString).
    - eexists. rewrite Cloud.afterSending_nil. by split.
    - unfold Cloud.bind.
      pose proof (requestText_world (checkUrlOf noCache shareCode pwd) cookie [] w) as Hw.
      destruct (requestText _ _ _ w) as [[e|checkResp] w1] eqn:Hreq;
        cbn [snd] in Hw; subst w1.
      + eexists. split; [done|]. split; [by eapply requestText_error|done].
      + by eexists. }
  destruct checked as [err|[[shareId0 checkPayload] attempts0]].
  { intros [= <- <-]. destruct Hchecked as [Hname Hsome]. eexists. split; [done|].
    split; [done|]. split; [done|]. by left. }
  unfold Cloud.bind at 1.
  pose proof (requestText_world (infoUrlOf noCache shareCode) cookie []
                (Cloud.afterSending w (checkRequests cookie noCache shareCode pwd))) as Hw.
  destruct (requestText (infoUrlOf noCache shareCode) cookie [] _) as [[e|infoResp] w1]
    eqn:Hinfo; cbn [snd] in Hw; subst w1; rewrite Cloud.afterSending_app.
  { intros [= <- <-]. eexists. split; [done|].
    split; [by destruct (checkRequests cookie noCache shareCode pwd)|].
    split; [|right; by left]. by eapply requestText_error. }
  clear Hinfo.
  set (infoObj := objectOr (payload infoResp)).
  set (shareId1 := orElse (getDeepString arrayText infoObj.1 infoObj.2 shareIdKeys) shareId0).
  set (shareId := if String.eqb shareId1 EmptyString
                  then orElse (extractShareIdFromText (respText infoResp))
                         (extractShareIdFromText (respUrl infoResp))
                  else shareId1).
  set (rootFileId := orElse _ shareId).
  destruct (String.eqb shareId EmptyString) eqn:Hshare.
  { unfold Cloud.ret. intros [= <- <-]. eexists. split; [done|].
    split; [by destruct (checkRequests cookie noCache shareCode pwd)|].
    cbn [share_code share_url failedAttempts]. rewrite map_app, Hchecked.
    by repeat split. }
  apply String.eqb_neq in Hshare.
  assert (rootFileId <> EmptyString) as Hroot.
  { unfold rootFileId, orElse.
    match goal with |- (if String.eqb ?a EmptyString then _ else _) <> _ =>
      destruct (String.eqb a EmptyString) eqn:H0
    end; [done|by apply String.eqb_neq in H0]. }
  unfold Cloud.bind at 1.
  match goal with
  | |- context [requestText ?url cookie ?hdrs ?w0] =>
      pose proof (requestText_world url cookie hdrs w0) as Hw;
      destruct (requestText url cookie hdrs w0) as [[e|listResp] w1] eqn:Hlist;
      cbn [snd] in Hw; subst w1; rewrite Cloud.afterSending_app
  end.
  { intros [= <- <-]. eexists. split; [done|].
    split; [by destruct (checkRequests cookie noCache shareCode pwd)|]. split.
    - by eapply requestText_error.
    - right. right. rewrite <- app_assoc. eexists shareId, _. split; [done|].
      by eexists _, rootFileId. }
  clear Hlist. unfold Cloud.ret. intros [= <- <-]. eexists. split; [done|].
  split; [by destruct (checkRequests cookie noCache shareCode pwd)|].
  split; [done|]. split; [done|]. split; [done|]. split.
  { rewrite <- app_assoc. eexists. split; [done|]. by eexists _, rootFileId. }
  split; [by rewrite !map_app, Hchecked|].
  pose proof (mapFilesFromPayload_files (objectOr (payload listResp))) as Hmapped.
  destruct (mapFilesFromPayload _) as [|f files]; [|done].
  apply String.eqb_neq in Hroot. rewrite Hroot. apply String.eqb_neq in Hroot.
  split; [done|]. constructor; [|constructor]. split; cbn [file_id size]; [done|lia].
Qed.

(** *** Facts: validation comes before any request *)

(** The host is the expected cloud domain. *)
Definition ExpectedHost (host : string) : Prop :=
  JsString.toLowerCase host = "cloud.189.cn"
  ∨ JsString.toLowerCase host = "www.cloud.189.cn".

(** The path is [/t/<code>], as the specification words it: a slash,
    the segment [t], a slash and the code, one segment that is not
    blank. *)
Definition SharePath (path : string) : Prop :=
  exists code,
    path = "/t/" +:+ code
    ∧ Cloud.indexOf "/" code = None
    ∧ JsString.trim code <> EmptyString.

(** What the code asks of the path: split at [/] and with the blank
    segments dropped, it starts with the segment [t] and one more, the
    code; further segments are not looked at. *)
Definition LeadingShareCode (path code : string) : Prop :=
  exists rest, pathPartsOf path = "t" :: code :: rest.

Definition validationErrors : list string :=
  ["share_url_empty"; "cookie_empty"; "share_url_invalid"; "share_host_invalid";
   "share_path_invalid"].

Lemma hostAccepted_spec host :
  hostAccepted (JsString.toLowerCase host) = true <-> ExpectedHost host.
Proof.
  unfold hostAccepted, ExpectedHost. rewrite orb_true_iff, !String.eqb_eq. done.
Qed.

Lemma pathAccepted_spec path :
  pathAccepted (pathPartsOf path) = true <-> exists code, LeadingShareCode path code.
Proof.
  unfold LeadingShareCode. destruct (pathPartsOf path) as [|first [|code rest]]; simpl.
  - split; [done|]. by intros (code & rest & ?).
  - split; [done|]. by intros (code & rest & ?).
  - rewrite String.eqb_eq. split.
    + intros ->. by eexists _, _.
    + by intros (code' & rest' & [= -> _ _]).
Qed.

Lemma splitOn_segment (s : string) :
  Cloud.indexOf "/" s = None -> Cloud.splitOn "/" s = [s].
Proof.
  induction s as [|c s IH]; [done|]. cbn [Cloud.indexOf Cloud.splitOn].
  destruct (Ascii.eqb c "/"); [done|].
  destruct (Cloud.indexOf "/" s); [done|]. intros _. by rewrite IH.
Qed.

(** A path [/t/<code>] passes the test of the code, with that code. *)
Lemma SharePath_accepted path :
  SharePath path ->
  exists code, path = "/t/" +:+ code ∧ pathPartsOf path = ["t"; code].
Proof.
  intros (code & -> & Hslash & Hcode). exists code. split; [done|].
  unfold pathPartsOf.
  change (Cloud.splitOn "/" ("/t/" +:+ code))
    with (EmptyString :: match Cloud.splitOn "/" (String "/" code) with
                         | [] => ["t"]
                         | first :: others => String "t" first :: others
                         end).
  change (Cloud.splitOn "/" (String "/" code))
    with (EmptyString :: Cloud.splitOn "/" code).
  rewrite splitOn_segment by done. cbn [List.filter].
  change (JsString.trim EmptyString) with EmptyString.
  change (JsString.trim "t") with "t".
  apply String.eqb_neq in Hcode. rewrite Hcode. reflexivity.
Qed.

(** C4 (amended): a share URL whose host is not the expected domain, or
    whose path, split at [/] with blank segments dropped, does not
    start with [t] and a code, makes [run] throw a validation error
    with the world untouched: no request has been sent.  With a cookie,
    the error is [share_host_invalid] for a wrong host and
    [share_path_invalid] otherwise.  A URL that passes both checks is
    resolved under the code that follows [t], and a request is sent;
    every path [/t/<code>] passes, and so does a path with more
    segments. *)
Theorem run_rejects_foreign_share_url (h : Heap) (a : nat) (w : Cloud.World)
    (parsedUrl : ParsedUrl) :
  let shareUrl := JsString.trim (stringOr arrayText h (getProp h (VRef a) "share_url")) in
  let cookie := JsString.trim (stringOr arrayText h (getProp h (VRef a) "cookie")) in
  parseUrl shareUrl = Some parsedUrl ->
  (~ ExpectedHost (hostname parsedUrl)
   ∨ ~ (exists code, LeadingShareCode (pathname parsedUrl) code) ->
   exists reason,
     run (h, VRef a) w = (inl (Cloud.Error reason), w)
     ∧ reason ∈ validationErrors
     ∧ (shareUrl <> EmptyString -> cookie <> EmptyString ->
        reason = if hostAccepted (JsString.toLowerCase (hostname parsedUrl))
                 then "share_path_invalid" else "share_host_invalid"))
  ∧ (forall code,
       shareUrl <> EmptyString -> cookie <> EmptyString ->
       ExpectedHost (hostname parsedUrl) ->
       LeadingShareCode (pathname parsedUrl) code ->
       run (h, VRef a) w
       = resolve shareUrl cookie (JsString.trim code)
           (JsString.trim (default EmptyString (searchGet "pwd" (searchParams parsedUrl))))
           w
       ∧ exists first others,
           Cloud.sent (run (h, VRef a) w).2 = Cloud.sent w ++ first :: others)
  ∧ (SharePath (pathname parsedUrl) ->
     exists code,
       pathname parsedUrl = "/t/" +:+ code ∧ LeadingShareCode (pathname parsedUrl) code).
Proof.
  intros shareUrl cookie Hparse. split; [|split].
  - intros Hbad. unfold run, readInput, Cloud.bind, Cloud.ret. cbn [fst snd].
    fold shareUrl cookie.
    destruct (String.eqb shareUrl EmptyString) eqn:Hurl.
    { exists "share_url_empty". split; [done|]. split; [by left|].
      apply String.eqb_eq in Hurl. by intros []. }
    destruct (String.eqb cookie EmptyString) eqn:Hcookie.
    { exists "cookie_empty". split; [done|]. split; [right; by left|].
      apply String.eqb_eq in Hcookie. by intros _ []. }
    rewrite Hparse.
    destruct (hostAccepted (JsString.toLowerCase (hostname parsedUrl))) eqn:Hhost.
    + destruct (pathAccepted (pathPartsOf (pathname parsedUrl))) eqn:Hpath.
      * exfalso. apply hostAccepted_spec in Hhost. apply pathAccepted_spec in Hpath.
        by destruct Hbad.
      * exists "share_path_invalid". split; [done|]. split; [|done].
        unfold validationErrors. rewrite !elem_of_cons. tauto.
    + exists "share_host_invalid". split; [done|]. split; [|done].
      unfold validationErrors. rewrite !elem_of_cons. tauto.
  - intros code Hurl Hcookie Hhost [rest Hpath].
    assert (run (h, VRef a) w
            = resolve shareUrl cookie (JsString.trim code)
                (JsString.trim (default EmptyString
                                  (searchGet "pwd" (searchParams parsedUrl)))) w) as Hrun.
    { unfold run, readInput, Cloud.bind, Cloud.ret. cbn [fst snd]. fold shareUrl cookie.
      apply String.eqb_neq in Hurl, Hcookie. rewrite Hurl, Hcookie, Hparse.
      apply hostAccepted_spec in Hhost. rewrite Hhost, Hpath. reflexivity. }
    split; [exact Hrun|]. rewrite Hrun.
    destruct (resolve _ _ _ _ w) as [res w'] eqn:Hres.
    apply resolve_run in Hres as (new & -> & Hnew & _).
    destruct new as [|first others]; [done|]. by exists first, others.
  - intros Hshare. destruct (SharePath_accepted _ Hshare) as (code & Hcode & Hparts).
    exists code. split; [done|]. by exists [].
Qed.

Lemma resolver_main_outcome raw w :
  exitCode (main raw w).1 = 0
  ∧ ((main raw w).1.(stdout) = [EmitError "stdin_json_invalid"]
     ∨ (exists input result,
           run input w = (inr result, (main raw w).2)
           ∧ (main raw w).1.(stdout) = [EmitOutcome result])
     ∨ (exists input err,
           run input w = (inl err, (main raw w).2)
           ∧ (main raw w).1.(stdout)
             = [EmitError (orElse (Cloud.exnMessage err)
                             (orElse (Cloud.exnName err) "js_resolver_exception"))])).
Proof.
  unfold main.
  destruct (if String.eqb raw EmptyString then Some emptyObject else JSON_parse raw)
    as [input|]; [|split; [done|by left]].
  destruct (run input w) as [[err|result] w'] eqn:Hrun; cbn [fst snd stdout exitCode].
  - split; [done|]. right. right. by exists input, err.
  - split; [done|]. right. left. by exists input, result.
Qed.

(** *** Further facts: what a resolution sends and returns *)

(** Every file [mapFilesFromPayload] returns has an id that is not
    empty and a size that is not negative, whatever the payload holds. *)
Theorem mapFilesFromPayload_usable obj : Forall usableFile (mapFilesFromPayload obj).
Proof.
  unfold mapFilesFromPayload. apply Forall_forall. intros f Hf.
  apply list_elem_of_omap in Hf as (item & _ & Hitem). by eapply fileOfItem_usable.
Qed.

(** [detectBodyType] answers with one of six labels, and with [empty]
    exactly for a text that is blank; such a text also parses to
    [null]. *)
Theorem detectBodyType_labels text :
  detectBodyType text ∈ ["empty"; "json"; "jsonp"; "html"; "xml"; "text"]
  ∧ (detectBodyType text = "empty" <-> JsString.trim text = EmptyString)
  ∧ (JsString.trim text = EmptyString -> parseJsonLike text = None).
Proof.
  unfold detectBodyType, parseJsonLike. cbv zeta.
  destruct (String.eqb (JsString.trim text) EmptyString) eqn:Hraw.
  - apply String.eqb_eq in Hraw. split; [by repeat constructor|]. by split.
  - apply String.eqb_neq in Hraw. split; [|split; [split; [|done]|done]].
    + repeat case_match; by repeat constructor.
    + repeat case_match; discriminate.
Qed.

(** [resolve] sends at most three requests, all with the cookie and
    the same [noCache] stamp: the access-code check, only when there is
    an access code; the share information; and the listing, only when a
    share id was found.  A resolved share has a share id that is not
    empty, three attempts on record and at least one file, each with an
    id and a size that is not negative; an unresolved one has sent no
    listing and has two attempts on record; a thrown error is a failed
    fetch. *)
Theorem resolve_request_sequence shareUrl cookie shareCode pwd w res w' :
  resolve shareUrl cookie shareCode pwd w = (res, w') ->
  let noCache := JsString.ofZ (nowMs (Cloud.sent w)) in
  let check := checkRequests cookie noCache shareCode pwd in
  let info := infoRequest cookie noCache shareCode in
  exists new,
    w' = Cloud.afterSending w new
    ∧ match res with
      | inr (Resolved code shareId accessCode files attempts) =>
          code = shareCode ∧ accessCode = pwd ∧ shareId <> EmptyString
          ∧ (exists list,
                new = check ++ [info; list] ∧ isListRequest cookie noCache shareId pwd list)
          ∧ map attemptStep attempts
            = ["check_access_code_primary_js"; "get_share_info_js"; "list_share_dir_js"]
          ∧ files <> [] ∧ Forall usableFile files
      | inr (Unresolved error diagnostics) =>
          error = "js_share_parse_failed_no_shareid"
          ∧ new = check ++ [info]
          ∧ share_code diagnostics = shareCode ∧ share_url diagnostics = shareUrl
          ∧ map attemptStep (failedAttempts diagnostics)
            = ["check_access_code_primary_js"; "get_share_info_js"]
      | inl err =>
          Cloud.exnName err = "TypeError"
          ∧ (new = check ∨ new = check ++ [info]
             ∨ exists shareId list,
                 new = check ++ [info; list]
                 ∧ isListRequest cookie noCache shareId pwd list)
      end.
Proof.
  intros Hrun. apply resolve_run in Hrun as (new & Hw & _ & Hres). by exists new.
Qed.

(** *** Further facts: where the cookie goes *)

Definition shareApi : string := "https://cloud.189.cn/api/open/share/".

(** A request of the resolver: a text request to the share API. *)
Definition isShareRequest (r : Cloud.Request) : Prop :=
  exists cookie url headers,
    r = Cloud.TextRequest cookie url headers ∧ startsWith shareApi url = true.

Lemma run_world input w res w' :
  run input w = (res, w') ->
  exists new,
    w' = Cloud.afterSending w new ∧ (length new <= 3)%nat ∧ Forall isShareRequest new.
Proof.
  assert (forall res0 w0, (res0, w0) = (res, w') -> w0 = w ->
            exists new,
              w' = Cloud.afterSending w new ∧ (length new <= 3)%nat
              ∧ Forall isShareRequest new) as Hstop.
  { intros res0 w0 [= <- <-] ->. exists []. rewrite Cloud.afterSending_nil.
    split; [done|]. split; [cbn; lia|constructor]. }
  unfold run, readInput, Cloud.bind, Cloud.ret, Cloud.throw.
  destruct input.2 eqn:Hinput; try (intros Heq; by apply (Hstop _ _ Heq)).
  all: destruct (String.eqb _ EmptyString); [intros Heq; by apply (Hstop _ _ Heq)|].
  all: destruct (String.eqb _ EmptyString); [intros Heq; by apply (Hstop _ _ Heq)|].
  all: destruct (parseUrl _) as [parsedUrl|]; [|intros Heq; by apply (Hstop _ _ Heq)].
  all: destruct (negb (hostAccepted _)); [intros Heq; by apply (Hstop _ _ Heq)|].
  all: destruct (negb (pathAccepted _)); [intros Heq; by apply (Hstop _ _ Heq)|].
  all: intros Hrun; apply resolve_run in Hrun as (new & -> & _ & Hres); cbv zeta in Hres.
  all: exists new; (split; [done|]).
  all: match type of Hres with
       | context [checkRequests ?cookie ?noCache ?shareCode ?pwd] =>
           assert (Forall isShareRequest (checkRequests cookie noCache shareCode pwd)
                   ∧ (length (checkRequests cookie noCache shareCode pwd) <= 1)%nat)
             as [Hcheck Hlen];
           [unfold checkRequests; destruct (String.eqb pwd EmptyString);
              (split; [|cbn; lia]); repeat constructor; by eexists _, _, _|];
           assert (isShareRequest (infoRequest cookie noCache shareCode)) as Hinfo
             by (by eexists _, _, _);
           assert (forall shareId list,
                     isListRequest cookie noCache shareId pwd list -> isShareRequest list)
             as Hlist
             by (intros shareId list (isFolder & rootFileId & _ & ->);
                 eexists _, _, _; split; [done|]; by destruct isFolder)
       end.
  all: assert (forall list, isShareRequest list ->
                 forall check, Forall isShareRequest check -> (length check <= 1)%nat ->
                 forall info, isShareRequest info ->
                   (length (check ++ [info; list]) <= 3)%nat
                   ∧ Forall isShareRequest (check ++ [info; list])) as Hthree
         by (intros list Hl check Hc Hn info Hi; split;
               [rewrite length_app; cbn; lia|apply Forall_app; by repeat constructor]).
  all: assert (forall check, Forall isShareRequest check -> (length check <= 1)%nat ->
                 forall info, isShareRequest info ->
                   (length (check ++ [info]) <= 3)%nat
                   ∧ Forall isShareRequest (check ++ [info])) as Htwo
         by (intros check Hc Hn info Hi; split;
               [rewrite length_app; cbn; lia|apply Forall_app; by repeat constructor]).
  all: destruct res as [err|[code shareId accessCode files attempts|error diagnostics]].
  all: try (destruct Hres as (_ & [->|[->|(shareId & list & -> & Hl)]]);
            [split; [lia|done]|by apply Htwo|by eapply Hthree; eauto]).
  all: try (destruct Hres as (_ & _ & _ & (list & -> & Hl) & _); by eapply Hthree; eauto).
  all: destruct Hres as (_ & -> & _); by apply Htwo.
Qed.

(** The input passes the checks of [run]: it is an object that can be
    read, its share link and cookie are not blank, the link parses as a
    URL, the host is the expected one and the path starts with [t] and
    a code. *)
Definition Valid (input : Heap * Val) : Prop :=
  (input.2 <> VUndefined ∧ input.2 <> VNull)
  ∧ JsString.trim (stringOr arrayText input.1 (getProp input.1 input.2 "cookie"))
    <> EmptyString
  ∧ exists parsedUrl,
      JsString.trim (stringOr arrayText input.1 (getProp input.1 input.2 "share_url"))
      <> EmptyString
      ∧ parseUrl
          (JsString.trim (stringOr arrayText input.1 (getProp input.1 input.2 "share_url")))
        = Some parsedUrl
      ∧ ExpectedHost (hostname parsedUrl)
      ∧ exists code, LeadingShareCode (pathname parsedUrl) code.

Lemma readInput_object h v k w :
  v <> VUndefined -> v <> VNull -> readInput (h, v) k w = (inr (getProp h v k), w).
Proof. by destruct v. Qed.

Lemma run_checks input w :
  (Valid input
   ∧ exists first others, Cloud.sent (run input w).2 = Cloud.sent w ++ first :: others)
  ∨ (¬ Valid input ∧ exists err, run input w = (inl err, w)).
Proof.
  destruct input as [h v]. unfold Valid. cbn [fst snd].
  assert (v = VUndefined ∨ v = VNull ∨ (v <> VUndefined ∧ v <> VNull))
    as [->|[->|[Hundefined Hnull]]] by (destruct v; auto).
  1, 2: right; split; [by intros [[? ?] _]|by eexists].
  unfold run, Cloud.bind. rewrite !readInput_object by done. cbn [fst snd].
  set (shareUrl := JsString.trim (stringOr arrayText h (getProp h v "share_url"))).
  set (cookie := JsString.trim (stringOr arrayText h (getProp h v "cookie"))).
  unfold Cloud.throw.
  destruct (String.eqb shareUrl EmptyString) eqn:Hurl.
  { right. split; [|by eexists]. apply String.eqb_eq in Hurl.
    by intros (_ & _ & parsedUrl & Hne & _). }
  destruct (String.eqb cookie EmptyString) eqn:Hcookie.
  { right. split; [|by eexists]. apply String.eqb_eq in Hcookie.
    by intros (_ & Hne & _). }
  destruct (parseUrl shareUrl) as [parsedUrl|] eqn:Hparse.
  2: { right. split; [|by eexists]. by intros (_ & _ & parsedUrl & _ & Hp & _). }
  destruct (hostAccepted (JsString.toLowerCase (hostname parsedUrl))) eqn:Hhost;
    cbn [negb].
  2: { right. split; [|by eexists].
       intros (_ & _ & parsedUrl' & _ & [= <-] & Hexpected & _).
       apply hostAccepted_spec in Hexpected. by rewrite Hexpected in Hhost. }
  destruct (pathAccepted (pathPartsOf (pathname parsedUrl))) eqn:Hpath; cbn [negb].
  2: { right. split; [|by eexists].
       intros (_ & _ & parsedUrl' & _ & [= <-] & _ & Hcode).
       apply pathAccepted_spec in Hcode. by rewrite Hcode in Hpath. }
  left. split.
  { split; [done|]. split; [by apply String.eqb_neq|]. exists parsedUrl.
    split; [by apply String.eqb_neq|]. split; [done|].
    split; [by apply hostAccepted_spec|by apply pathAccepted_spec]. }
  match goal with
  | |- context [resolve ?u ?k ?code ?pwd w] =>
      destruct (resolve u k code pwd w) as [res w'] eqn:Hres
  end.
  apply resolve_run in Hres as (new & -> & Hnew & _).
  destruct new as [|first others]; [done|]. by exists first, others.
Qed.

(** Whatever its input and whatever the server answers, the resolver
    process sends at most three requests, each a text request to an
    address under the share API of the cloud host, and touches no
    file.  With a standard input that is not JSON it sends none and
    writes [stdin_json_invalid]; with an input that fails a check of
    [run] it sends none and writes an error; with an input that passes
    them it sends at least one. *)
Theorem main_requests raw w :
  exists new,
    (main raw w).2 = Cloud.afterSending w new
    ∧ (length new <= 3)%nat
    ∧ Forall isShareRequest new
    ∧ match (if String.eqb raw EmptyString then Some emptyObject else JSON_parse raw) with
      | None => new = [] ∧ stdout (main raw w).1 = [EmitError "stdin_json_invalid"]
      | Some input =>
          (Valid input -> new <> [])
          ∧ (¬ Valid input ->
             new = [] ∧ exists reason, stdout (main raw w).1 = [EmitError reason])
      end.
Proof.
  unfold main.
  destruct (if String.eqb raw EmptyString then Some emptyObject else JSON_parse raw)
    as [input|].
  - pose proof (run_checks input w) as Hchecks.
    destruct (run input w) as [res w'] eqn:Hrun.
    pose proof Hrun as Hworld. apply run_world in Hworld as (new & -> & Hlen & Hnew).
    exists new. cbn [snd] in Hchecks.
    assert ((let '(res0, w0) := (res, Cloud.afterSending w new) in
             match res0 with
             | inl err =>
                 ({| stdout := [EmitError (orElse (Cloud.exnMessage err)
                                             (orElse (Cloud.exnName err)
                                                "js_resolver_exception"))];
                     exitCode := 0 |}, w0)
             | inr result => ({| stdout := [EmitOutcome result]; exitCode := 0 |}, w0)
             end).2 = Cloud.afterSending w new) as Hsecond by (by destruct res).
    split; [by destruct res|]. split; [done|]. split; [done|]. split.
    + intros Hvalid Hempty. subst new.
      destruct Hchecks as [(_ & first & others & Hsent)|[Hinvalid _]]; [|done].
      cbn [Cloud.afterSending Cloud.sent] in Hsent. rewrite app_nil_r in Hsent.
      apply (f_equal length) in Hsent. rewrite length_app in Hsent. cbn in Hsent. lia.
    + intros Hinvalid. destruct Hchecks as [[Hvalid _]|(_ & err & [= -> Hw])]; [done|].
      split; [|by eexists].
      apply (f_equal Cloud.sent) in Hw. cbn [Cloud.afterSending Cloud.sent] in Hw.
      apply (f_equal length) in Hw. rewrite length_app in Hw.
      destruct new; [done|cbn in Hw; lia].
  - exists []. rewrite Cloud.afterSending_nil. split; [done|]. split; [cbn; lia|].
    split; [constructor|done].
Qed.
End Script.
End Resolver.

(** ** The two processes together (claims C4 and C7) *)

Module Processes.
#[local] Open Scope string_scope.
#[local] Open Scope Z_scope.

Definition noArrayText (h : Graph.Heap) (items : list Graph.Val) : string := EmptyString.

(** A URL parser for two addresses, one on a foreign host and one on
    the cloud host with a path outside [/t/]. *)
Definition parseTwo (text : string) : option Resolver.ParsedUrl :=
  if String.eqb text "https://files.example.org/t/AbCd12" then
    Some {| Resolver.hostname := "files.example.org"; Resolver.pathname := "/t/AbCd12";
            Resolver.searchParams := [] |}
  else if String.eqb text "https://cloud.189.cn/web/main" then
    Some {| Resolver.hostname := "cloud.189.cn"; Resolver.pathname := "/web/main";
            Resolver.searchParams := [] |}
  else None.

Definition inputOf (shareUrl : string) : Graph.Heap * Graph.Val :=
  ([Graph.NObj [("share_url", Graph.VStr shareUrl); ("cookie", Graph.VStr "COOKIE")]],
   Graph.VRef 0).

Definition runOn (parse : string -> option (Graph.Heap * Graph.Val))
    : Graph.Heap * Graph.Val -> Cloud.M Resolver.Outcome :=
  Resolver.run noArrayText Cloud.cloud Cloud.clock parse parseTwo (fun s => s)
    (fun _ => None) [].

Definition resolverOn (parse : string -> option (Graph.Heap * Graph.Val))
    : string -> Cloud.World -> Resolver.Process * Cloud.World :=
  Resolver.main noArrayText Cloud.cloud Cloud.clock parse parseTwo (fun s => s)
    (fun _ => None) [].

Lemma run_rejects_foreign_share_url_witness :
  runOn (fun _ => None) (inputOf "https://files.example.org/t/AbCd12") Cloud.start
  = (inl (Cloud.Error "share_host_invalid"), Cloud.start)
  ∧ runOn (fun _ => None) (inputOf " https://cloud.189.cn/web/main ") Cloud.start
    = (inl (Cloud.Error "share_path_invalid"), Cloud.start).
Proof.
  split.
  - destruct (proj1 (Resolver.run_rejects_foreign_share_url noArrayText Cloud.cloud
                       Cloud.clock (fun _ => None) parseTwo (fun s => s) (fun _ => None) []
                       (inputOf "https://files.example.org/t/AbCd12").1 0 Cloud.start
                       {| Resolver.hostname := "files.example.org";
                          Resolver.pathname := "/t/AbCd12"; Resolver.searchParams := [] |}
                       ltac:(vm_compute; reflexivity)))
      as (reason & Hrun & _ & Hreason).
    + left. unfold Resolver.ExpectedHost. vm_compute. intros [H|H]; discriminate H.
    + rewrite (Hreason ltac:(vm_compute; discriminate) ltac:(vm_compute; discriminate))
        in Hrun. exact Hrun.
  - destruct (proj1 (Resolver.run_rejects_foreign_share_url noArrayText Cloud.cloud
                       Cloud.clock (fun _ => None) parseTwo (fun s => s) (fun _ => None) []
                       (inputOf " https://cloud.189.cn/web/main ").1 0 Cloud.start
                       {| Resolver.hostname := "cloud.189.cn";
                          Resolver.pathname := "/web/main"; Resolver.searchParams := [] |}
                       ltac:(vm_compute; reflexivity)))
      as (reason & Hrun & _ & Hreason).
    + right. unfold Resolver.LeadingShareCode. vm_compute.
      intros (code & rest & H). discriminate H.
    + rewrite (Hreason ltac:(vm_compute; discriminate) ltac:(vm_compute; discriminate))
        in Hrun. exact Hrun.
Defined.

(** A share that resolves: the share information names the share and
    its root file, and the listing holds one archive. *)

Definition parseShare (text : string) : option (Graph.Heap * Graph.Val) :=
  if String.eqb text "info" then
    Some ([Graph.NObj [("res_code", Graph.VNum 0);
                       ("shareId", Graph.VNum 555); ("fileId", Graph.VStr "777");
                       ("isFolder", Graph.VBool true)]], Graph.VRef 0)
  else if String.eqb text "list" then
    Some ([Graph.NObj [("fileListAO", Graph.VRef 1)];
           Graph.NObj [("count", Graph.VNum 1); ("fileList", Graph.VRef 2)];
           Graph.NArr [Graph.VRef 3];
           Graph.NObj [("id", Graph.VNum 9001); ("name", Graph.VStr "save.7z");
                       ("size", Graph.VStr "12")]], Graph.VRef 0)
  else None.

Definition shareServer (history : list Cloud.Request) (r : Cloud.Request)
    : Cloud.FetchResult :=
  match r with
  | Cloud.TextRequest _ url _ =>
      Cloud.plain 200 (if Resolver.includes "getShareInfoByCodeV2" url then "info"
                       else "list")
  | _ => Cloud.cloud history r
  end.

(** An address on the cloud host whose path goes on after the code. *)
Definition parseDeep (text : string) : option Resolver.ParsedUrl :=
  if String.eqb text "https://cloud.189.cn/t/AbCd12/extra/more" then
    Some {| Resolver.hostname := "cloud.189.cn";
            Resolver.pathname := "/t/AbCd12/extra/more"; Resolver.searchParams := [] |}
  else None.

(** C4, as stated, fails on the code for a path that goes on after the
    code: [/t/AbCd12/extra/more] is not [/t/<code>], yet it passes the
    check, the share is resolved under the code [AbCd12], and two
    requests are sent. *)
Lemma share_path_with_more_segments_is_resolved :
  ~ Resolver.SharePath "/t/AbCd12/extra/more"
  ∧ exists files attempts w,
      Resolver.run noArrayText shareServer Cloud.clock parseShare parseDeep (fun s => s)
        (fun _ => None) [] (inputOf "https://cloud.189.cn/t/AbCd12/extra/more") Cloud.start
      = (inr (Resolver.Resolved "AbCd12" "555" EmptyString files attempts), w)
      ∧ length (Cloud.sent w) = 2%nat.
Proof.
  split.
  - intros (code & Hpath & Hslash & _).
    change ("/t/" +:+ code) with (String "/" (String "t" (String "/" code))) in Hpath.
    injection Hpath as Hcode. rewrite <- Hcode in Hslash. vm_compute in Hslash.
    discriminate Hslash.
  - eexists _, _, _. split; [vm_compute; reflexivity|reflexivity].
Qed.

(** C7, as stated, fails on the code for the share resolver: its
    [main] never sets an exit status, and a failure it reports after an
    exception or an unreadable input carries no diagnostics.  Input that
    is not JSON is reported as [stdin_json_invalid] with exit status 0,
    and so is a share URL on a foreign host. *)
Lemma resolver_failure_exits_zero :
  resolverOn (fun _ => None) "{" Cloud.start
  = ({| Resolver.stdout := [Resolver.EmitError "stdin_json_invalid"];
        Resolver.exitCode := 0 |}, Cloud.start)
  ∧ resolverOn (fun _ => Some (inputOf "https://files.example.org/t/AbCd12")) "{...}"
      Cloud.start
    = ({| Resolver.stdout := [Resolver.EmitError "share_host_invalid"];
          Resolver.exitCode := 0 |}, Cloud.start).
Proof. split; vm_compute; reflexivity. Qed.

(** C7 (amended): each process writes exactly one result.  The cloud
    client writes [{ok: true, data}] and exits with status 0 when the
    action returns, and [{ok: false, error, diagnostics}], whose error
    is the message of the diagnostics, with exit status 1 when it
    throws.  The share resolver writes the object [run] returns, or
    [{ok: false, error}] without diagnostics when the input is not JSON
    or [run] throws; its exit status is 0 in every case. *)
Theorem each_process_writes_one_result
    server nowMs parseJson stringify localeCompare encodeURI decodeURI
    pathResolve pathDirname pathBasename urlWithSearchParams syntaxErrorMessage
    arrayText parseGraph parseUrl jsonpBody shareIdPatterns
    (stdin : string) (w : Cloud.World) :
  let client :=
    Cloud.main server nowMs parseJson stringify localeCompare encodeURI decodeURI
      pathResolve pathDirname pathBasename urlWithSearchParams syntaxErrorMessage stdin w in
  let resolver :=
    Resolver.main arrayText server nowMs parseGraph parseUrl encodeURI jsonpBody
      shareIdPatterns stdin w in
  ((exists data,
       Cloud.stdout client.1 = [Cloud.EmitOk data] ∧ Cloud.exitCode client.1 = 0)
   ∨ (exists diagnostics,
         Cloud.stdout client.1
         = [Cloud.EmitFailure (Cloud.message diagnostics) diagnostics]
         ∧ Cloud.exitCode client.1 = 1))
  ∧ (Resolver.exitCode resolver.1 = 0
     ∧ ((exists result, Resolver.stdout resolver.1 = [Resolver.EmitOutcome result])
        ∨ (exists reason, Resolver.stdout resolver.1 = [Resolver.EmitError reason]))).
Proof.
  intros client resolver. split.
  - destruct (Cloud.client_main_outcome server nowMs parseJson stringify localeCompare encodeURI
                decodeURI pathResolve pathDirname pathBasename urlWithSearchParams
                syntaxErrorMessage stdin w)
      as [(data & _ & Hout)|(err & diagnostics & _ & _ & Hout)];
      fold client in Hout; rewrite Hout.
    + left. by exists data.
    + right. by exists diagnostics.
  - destruct (Resolver.resolver_main_outcome arrayText server nowMs parseGraph parseUrl encodeURI
                jsonpBody shareIdPatterns stdin w)
      as [Hexit [Hout|[(input & result & _ & Hout)|(input & err & _ & Hout)]]];
      fold resolver in Hexit, Hout; (split; [exact Hexit|]); rewrite Hout.
    + right. by eexists.
    + left. by eexists.
    + right. by eexists.
Qed.

Definition resolveOn : Cloud.M Resolver.Outcome :=
  Resolver.resolve noArrayText shareServer Cloud.clock parseShare (fun s => s)
    (fun _ => None) [] "https://cloud.189.cn/t/AbCd12" "COOKIE" "AbCd12" EmptyString.

Example share_resolves :
  exists attempts w,
    resolveOn Cloud.start
    = (inr (Resolver.Resolved "AbCd12" "555" EmptyString
              [{| Resolver.file_id := "9001"; Resolver.name := "save.7z";
                  Resolver.size := 12; Resolver.is_folder := false |}] attempts), w)
    ∧ length (Cloud.sent w) = 2%nat.
Proof. eexists _, _. split; [vm_compute; reflexivity|reflexivity]. Qed.

Lemma resolve_request_sequence_witness :
  exists new list,
    (resolveOn Cloud.start).2 = Cloud.afterSending Cloud.start new
    ∧ new = [Resolver.infoRequest (fun s => s) "COOKIE" "1700000000000" "AbCd12"; list]
    ∧ Resolver.isListRequest (fun s => s) "COOKIE" "1700000000000" "555" EmptyString list.
Proof.
  pose proof (Resolver.resolve_request_sequence noArrayText shareServer Cloud.clock
                parseShare (fun s => s) (fun _ => None) []
                "https://cloud.189.cn/t/AbCd12" "COOKIE" "AbCd12" EmptyString Cloud.start
                (resolveOn Cloud.start).1 (resolveOn Cloud.start).2) as Hrun.
  destruct Hrun as (new & Hw & Hres).
  - unfold resolveOn. by destruct (Resolver.resolve _ _ _ _ _ _ _ _ _ _ _ _).
  - assert ((resolveOn Cloud.start).1
            = inr (Resolver.Resolved "AbCd12" "555" EmptyString
                     [{| Resolver.file_id := "9001"; Resolver.name := "save.7z";
                         Resolver.size := 12; Resolver.is_folder := false |}]
                     (match (resolveOn Cloud.start).1 with
                      | inr (Resolver.Resolved _ _ _ _ attempts) => attempts
                      | _ => []
                      end))) as Hdata by (vm_compute; reflexivity).
    rewrite Hdata in Hres.
    destruct Hres as (_ & _ & _ & (list & Hnew & Hlist) & _).
    exists new, list. split; [exact Hw|]. split; [exact Hnew|exact Hlist].
Defined.

End Processes.
